(** * DocuBot: a shallow embedding of the document-chat pipeline

    The development follows the TypeScript sources:
    - [JS]          the fragment of the JavaScript runtime the code relies on
                    (strings as UTF-16 code units, [trim], [slice],
                    [includes], [split], [join], decimal printing);
    - [Regex]       a backtracking matcher for the regular expressions that
                    occur in the sources, with [replace] and [match] for
                    the [g] flag;
    - [Utils]       [parseMarkdown] (src/utils);
    - [PdfService]  [validatePDFFile], [extractTextFromPDF], [processPDFFile],
                    [cleanupPDFResources], [getPDFStats], [extractKeyInfo];
    - [GroqService] [chatWithContext];
    - [Chat]        [handleFileUpload] of the Chat component.

    [Spec] holds the vocabulary of the specification and [Samples] a few
    concrete inputs; the modules after them state and prove what the code
    does: [JSFacts] and [RegexFacts] about the runtime fragment,
    [PdfFacts], [ExtractFacts] and [UploadFacts] about the PDF pipeline,
    [GroqFacts] about the model gateway, [MarkdownFacts] about the
    renderer. [PdfMore], [GroqMore], [ChatMore], [UtilsMore],
    [MatcherFacts], [EmailFacts], [MarkdownMore], [WhitespaceFacts] and
    [KeyInfoFacts] go on with the rest of these files: the other
    utilities, [analyzeDocument], [handleSendMessage] and
    [removeAttachment].

    Console output is not modelled: it is not observable by any caller. *)

From Stdlib Require Import String Ascii NArith ZArith Bool Arith Lia QArith.
From Stdlib Require Import Numbers.DecimalString.
From Stdlib Require Import List.
Import ListNotations.

Set Implicit Arguments.
Close Scope Q_scope.
Local Open Scope list_scope.

(* ================================================================== *)
(** ** The JavaScript runtime fragment *)
(* ================================================================== *)

Module JS.

(** A JavaScript string is a sequence of UTF-16 code units; [length],
    [slice] and regular expressions without the [u] flag all count code
    units. *)
Definition jsstr := list N.

(** A source literal written in ASCII. *)
Definition lit (s : string) : jsstr :=
  List.map N_of_ascii (list_ascii_of_string s).

(** [\n], which the literals above do not hold. *)
Definition nl : jsstr := [10%N].

(** A source literal that holds double quotes, written here with single
    quotes in their place (no literal of the sources holds a single
    quote). *)
Definition litq (s : string) : jsstr :=
  List.map (fun c => if N.eqb c 39 then 34%N else c) (lit s).

Fixpoint eqb (a b : jsstr) : bool :=
  match a, b with
  | [], [] => true
  | x :: a', y :: b' => N.eqb x y && eqb a' b'
  | _, _ => false
  end.

(** [!s] is false exactly for the non-empty strings. *)
Definition truthy (s : jsstr) : bool :=
  match s with [] => false | _ :: _ => true end.

(** ECMAScript LineTerminator. *)
Definition is_line_terminator (c : N) : bool :=
  (N.eqb c 10 || N.eqb c 13 || N.eqb c 8232 || N.eqb c 8233)%N.

(** ECMAScript WhiteSpace and LineTerminator: the class [\s] and the
    characters [trim] strips. *)
Definition is_ws (c : N) : bool :=
  ((N.leb 9 c && N.leb c 13) || N.eqb c 32 || N.eqb c 160 || N.eqb c 5760
   || (N.leb 8192 c && N.leb c 8202) || N.eqb c 8232 || N.eqb c 8233
   || N.eqb c 8239 || N.eqb c 8287 || N.eqb c 12288 || N.eqb c 65279)%N.

Fixpoint trimStart (s : jsstr) : jsstr :=
  match s with
  | [] => []
  | c :: r => if is_ws c then trimStart r else s
  end.

Definition trimEnd (s : jsstr) : jsstr := rev (trimStart (rev s)).

(** [s.trim()] *)
Definition trim (s : jsstr) : jsstr := trimEnd (trimStart s).

(** [s.slice(0, n)] for a non-negative [n]. *)
Definition slice_to {A} (n : N) (s : list A) : list A :=
  firstn (N.to_nat n) s.

(** [a.slice(-n)] for a positive [n]: the last [n] elements, all of them
    when there are fewer. *)
Definition slice_last {A} (n : N) (a : list A) : list A :=
  skipn (length a - N.to_nat n) a.

(** [a.slice(start, end)] for integers: a negative index counts from the
    end, and both are clamped to the array. *)
Definition slice_index (len : nat) (i : Z) : nat :=
  if (i <? 0)%Z then len - Z.to_nat (- i) else Nat.min (Z.to_nat i) len.

Definition slice {A} (from to : Z) (a : list A) : list A :=
  let f := slice_index (length a) from in
  let t := slice_index (length a) to in
  firstn (t - f) (skipn f a).

Fixpoint startsWith (p s : jsstr) : bool :=
  match p, s with
  | [], _ => true
  | x :: p', y :: s' => N.eqb x y && startsWith p' s'
  | _ :: _, [] => false
  end.

(** [s.includes(needle)] *)
Fixpoint includes (needle s : jsstr) : bool :=
  startsWith needle s ||
  match s with
  | [] => false
  | _ :: s' => includes needle s'
  end.

(** Number of (possibly overlapping) occurrences of [needle] in [s]. *)
Fixpoint occurrences (needle s : jsstr) : nat :=
  (if startsWith needle s then 1 else 0) +
  match s with
  | [] => 0
  | _ :: s' => occurrences needle s'
  end.

(** [a.join(sep)] *)
Fixpoint join (sep : jsstr) (a : list jsstr) : jsstr :=
  match a with
  | [] => []
  | [x] => x
  | x :: rest => x ++ sep ++ join sep rest
  end.

(** [s.replace(pat, by)] with a string pattern: the first occurrence
    only. *)
Fixpoint replace_first (pat by_ s : jsstr) : jsstr :=
  if startsWith pat s then by_ ++ skipn (length pat) s
  else match s with
       | [] => []
       | c :: s' => c :: replace_first pat by_ s'
       end.

(** [String(n)] (and [`${n}`]) for a non-negative integer. *)
Definition of_N (n : N) : jsstr :=
  lit (NilEmpty.string_of_uint (N.to_uint n)).

(** [s.split(/\s+/)]: the pieces between the maximal runs of white
    space; a leading or trailing run yields an empty first or last
    piece, and the empty string yields one empty piece. [in_ws] tells
    that the previous code unit belonged to a separator, [cur] holds the
    current piece, reversed. *)
Fixpoint split_ws_from (in_ws : bool) (cur : jsstr) (s : jsstr)
  : list jsstr :=
  match s with
  | [] => [rev cur]
  | c :: r =>
      if is_ws c then
        if in_ws then split_ws_from true cur r
        else rev cur :: split_ws_from true [] r
      else split_ws_from false (c :: cur) r
  end.

Definition split_ws (s : jsstr) : list jsstr := split_ws_from false [] s.

(** [Math.ceil(n / d)] for non-negative integers [n] and a positive
    integer [d]. The quotient of two integers below 2^53 is rounded to a
    double that lies on the same side of every integer, so the ceiling
    is the integer one. *)
Definition ceil_div (n d : N) : N :=
  (if N.eqb (n mod d) 0 then n / d else n / d + 1)%N.

(** Values a [catch] clause can receive: an [Error] object, with its
    message, or anything else. *)
Inductive Thrown :=
| ErrorObj (message : jsstr)
| NonError.

(** The outcome of a call that may throw. *)
Inductive Result (A : Type) :=
| Ok (a : A)
| Throw (t : Thrown).
Arguments Ok {A} a.
Arguments Throw {A} t.

End JS.

Import JS.

(* ================================================================== *)
(** ** Regular expressions *)
(* ================================================================== *)

Module Regex.

(** The syntax the sources use. Flags: every expression below has [g];
    [m] is built into [Bol] and [Eol]; [i] only ever sits on expressions
    without letters, where it changes nothing. *)
Inductive re :=
| Eps
| Chr (p : N -> bool)            (* one code unit: literal, class or [.] *)
| Bol                            (* [^] under the [m] flag *)
| Eol                            (* [$] under the [m] flag *)
| WordB                          (* [\b] *)
| Seq (r1 r2 : re)
| Alt (r1 r2 : re)
| Star (greedy : bool) (r : re)  (* [r*] and [r*?] *)
| Group (i : nat) (r : re).      (* the [i]-th capturing parenthesis *)

(** A position in the subject: the code units before it, nearest first,
    and those after it. *)
Record pos := { before : jsstr; after : jsstr }.

Definition start (s : jsstr) : pos := {| before := []; after := s |}.

(** The code units between position [x] and a later position [y]. *)
Definition between (x y : pos) : jsstr :=
  rev (firstn (length (before y) - length (before x)) (before y)).

(** Captures, most recent first. *)
Definition caps := list (nat * jsstr).

Fixpoint capture (i : nat) (c : caps) : jsstr :=
  match c with
  | [] => []
  | (j, s) :: c' => if Nat.eqb i j then s else capture i c'
  end.

Definition is_digit (c : N) : bool := (N.leb 48 c && N.leb c 57)%N.
Definition is_upper (c : N) : bool := (N.leb 65 c && N.leb c 90)%N.
Definition is_lower (c : N) : bool := (N.leb 97 c && N.leb c 122)%N.
(** [\w] *)
Definition is_word (c : N) : bool :=
  is_digit c || is_upper c || is_lower c || N.eqb c 95.
(** [.] without the [s] flag *)
Definition dot (c : N) : bool := negb (is_line_terminator c).
(** [[\s\S]] *)
Definition any (c : N) : bool := true.
Definition one_of (s : jsstr) (c : N) : bool := existsb (N.eqb c) s.

Definition head_is (p : N -> bool) (s : jsstr) : bool :=
  match s with [] => false | c :: _ => p c end.

Definition result := option (pos * caps).

Definition orelse (a : result) (b : unit -> result) : result :=
  match a with Some r => Some r | None => b tt end.

(** A repetition of [body], in continuation-passing style: greedy, it
    tries one more iteration before the continuation [k]; lazy, after
    it. ECMAScript gives up an iteration that consumed nothing, so there
    are at most as many iterations as code units left, and [n], which
    starts from that number, is never used up. *)
Fixpoint star_loop (body : pos -> caps -> (pos -> caps -> result) -> result)
  (greedy : bool) (k : pos -> caps -> result) (n : nat) (x : pos) (c : caps)
  {struct n} : result :=
  let iterate (_ : unit) : result :=
    match n with
    | O => None
    | S n' =>
        body x c (fun x' c' =>
          if length (after x') <? length (after x)
          then star_loop body greedy k n' x' c' else None)
    end in
  if greedy then orelse (iterate tt) (fun _ => k x c)
  else orelse (k x c) iterate.

(** The backtracking matcher of ECMAScript: [m r x c k] matches [r] at
    [x] and hands the end position and the captures to [k]; a failure of
    [k] makes [m] try the next alternative. (Captures under a repetition
    are not reset between iterations; no expression of the sources reads
    such a capture.) *)
Fixpoint m (r : re) (x : pos) (c : caps) (k : pos -> caps -> result)
  {struct r} : result :=
  match r with
  | Eps => k x c
  | Chr p =>
      match after x with
      | ch :: rest =>
          if p ch then k {| before := ch :: before x; after := rest |} c
          else None
      | [] => None
      end
  | Bol =>
      match before x with
      | [] => k x c
      | ch :: _ => if is_line_terminator ch then k x c else None
      end
  | Eol =>
      match after x with
      | [] => k x c
      | ch :: _ => if is_line_terminator ch then k x c else None
      end
  | WordB =>
      if xorb (head_is is_word (before x)) (head_is is_word (after x))
      then k x c else None
  | Seq r1 r2 => m r1 x c (fun x' c' => m r2 x' c' k)
  | Alt r1 r2 => orelse (m r1 x c k) (fun _ => m r2 x c k)
  | Star greedy r' => star_loop (m r') greedy k (length (after x)) x c
  | Group i r' => m r' x c (fun x' c' => k x' ((i, between x x') :: c'))
  end.

(** One attempt at position [x]. *)
Definition exec_at (r : re) (x : pos) : result :=
  m r x [] (fun x' c' => Some (x', c')).

(** The leftmost match at or after the position [(b, a)]: where it
    starts, where it ends, and its captures. *)
Fixpoint search (r : re) (b a : jsstr) {struct a}
  : option (pos * pos * caps) :=
  let x := {| before := b; after := a |} in
  match exec_at r x with
  | Some (e, c) => Some (x, e, c)
  | None =>
      match a with
      | [] => None
      | ch :: a' => search r (ch :: b) a'
      end
  end.

(** Replacement patterns: text, [$n] and [$&]. *)
Inductive piece :=
| Text (s : jsstr)
| Dollar (i : nat)
| Whole.

Definition expand (tpl : list piece) (matched : jsstr) (c : caps) : jsstr :=
  concat (List.map (fun p =>
                      match p with
                      | Text s => s
                      | Dollar i => capture i c
                      | Whole => matched
                      end) tpl).

(** After a match ending at [e]: continue there, or one code unit later
    when the match was empty. *)
Definition resume (s e : pos) : jsstr * option pos :=
  if length (after e) <? length (after s) then ([], Some e)
  else match after e with
       | [] => ([], None)
       | ch :: rest =>
           ([ch], Some {| before := ch :: before e; after := rest |})
       end.

(** [s.replace(r, tpl)] with the [g] flag. Every round moves on by at
    least one code unit, so [S (length s)] rounds are never used up. *)
Fixpoint replace_from (r : re) (tpl : list piece) (n : nat) (x : pos)
  : jsstr :=
  match n with
  | O => after x
  | S n' =>
      match search r (before x) (after x) with
      | None => after x
      | Some (s, e, c) =>
          between x s ++ expand tpl (between s e) c ++
          match resume s e with
          | (skipped, Some x') => skipped ++ replace_from r tpl n' x'
          | (skipped, None) => skipped
          end
      end
  end.

Definition replace (r : re) (tpl : list piece) (s : jsstr) : jsstr :=
  replace_from r tpl (S (length s)) (start s).

(** [s.match(r) || []] with the [g] flag: the matched substrings, in
    order. *)
Fixpoint match_from (r : re) (n : nat) (x : pos) : list jsstr :=
  match n with
  | O => []
  | S n' =>
      match search r (before x) (after x) with
      | None => []
      | Some (s, e, _) =>
          between s e ::
          match resume s e with
          | (_, Some x') => match_from r n' x'
          | (_, None) => []
          end
      end
  end.

Definition match_all (r : re) (s : jsstr) : list jsstr :=
  match_from r (S (length s)) (start s).

(** Derived forms. *)
Fixpoint str (s : jsstr) : re :=
  match s with
  | [] => Eps
  | c :: s' => Seq (Chr (N.eqb c)) (str s')
  end.
Definition plus (r : re) : re := Seq r (Star true r).
Definition opt (r : re) : re := Alt r Eps.
Fixpoint seqs (rs : list re) : re :=
  match rs with
  | [] => Eps
  | r :: rs' => Seq r (seqs rs')
  end.
(** [r{lo,lo+extra}], greedy *)
Fixpoint upto (extra : nat) (r : re) : re :=
  match extra with
  | O => Eps
  | S e => opt (Seq r (upto e r))
  end.
Fixpoint times (lo : nat) (r : re) (rest : re) : re :=
  match lo with
  | O => rest
  | S l => Seq r (times l r rest)
  end.
Definition rep (lo extra : nat) (r : re) : re := times lo r (upto extra r).
(** [r{lo,}], greedy *)
Definition at_least (lo : nat) (r : re) : re := times lo r (Star true r).

(** A class the first code unit of every match of [r] belongs to, when
    the syntax shows one. *)
Fixpoint requires_head (r : re) : option (N -> bool) :=
  match r with
  | Chr p => Some p
  | Seq r1 _ => requires_head r1
  | Group _ r' => requires_head r'
  | _ => None
  end.

(** The declarative reading of an expression: [matches r x y] says that
    [r] can match the code units between the positions [x] and [y]. An
    iteration of a repetition consumes at least one code unit. *)
Inductive matches : re -> pos -> pos -> Prop :=
| M_Eps x : matches Eps x x
| M_Chr p x ch rest :
    after x = ch :: rest -> p ch = true ->
    matches (Chr p) x {| before := ch :: before x; after := rest |}
| M_Bol x :
    match before x with
    | [] => true
    | ch :: _ => is_line_terminator ch
    end = true ->
    matches Bol x x
| M_Eol x :
    match after x with
    | [] => true
    | ch :: _ => is_line_terminator ch
    end = true ->
    matches Eol x x
| M_WordB x :
    xorb (head_is is_word (before x)) (head_is is_word (after x)) = true ->
    matches WordB x x
| M_Seq r1 r2 x y z :
    matches r1 x y -> matches r2 y z -> matches (Seq r1 r2) x z
| M_Alt_l r1 r2 x y : matches r1 x y -> matches (Alt r1 r2) x y
| M_Alt_r r1 r2 x y : matches r2 x y -> matches (Alt r1 r2) x y
| M_Star_done g r x : matches (Star g r) x x
| M_Star_more g r x y z :
    matches r x y -> length (after y) < length (after x) ->
    matches (Star g r) y z -> matches (Star g r) x z
| M_Group i r x y : matches r x y -> matches (Group i r) x y.

End Regex.

(* ================================================================== *)
(** ** src/utils: [parseMarkdown] *)
(* ================================================================== *)

Module Utils.
Import Regex.

(** [/^PREFIX(.*$)/gim] *)
Definition line_rule (prefix : re) : re :=
  seqs [Bol; prefix; Group 1 (Seq (Star true (Chr dot)) Eol)].

(** [/OPEN(.*?)CLOSE/g], with [.] or [[\s\S]] inside *)
Definition span_rule (delim : jsstr) (inner : N -> bool) : re :=
  seqs [str delim; Group 1 (Star false (Chr inner)); str delim].

(** One or more of [<li.*?>.*?<\/li>] followed by [\s*], flag [g] *)
Definition list_items : re :=
  plus (Group 1 (seqs [str (lit "<li"); Star false (Chr dot);
                       str (lit ">"); Star false (Chr dot);
                       str (lit "</li>"); Star true (Chr is_ws)])).

(** The text the source holds between [mb-2'>] and [ $1]: the three code
    units U+00E2 U+20AC U+00A2. *)
Definition bullet : jsstr := [226; 8364; 162]%N.

Definition paragraph_open : jsstr := litq "<p class='mb-4'>".

Definition parseMarkdown (text : jsstr) : jsstr :=
  let html := text in
  (* Headers *)
  let html := replace (line_rule (str (lit "### ")))
    [Text (litq "<h3 class='text-lg font-serif font-bold mt-6 mb-3 text-vintage-title'>");
     Dollar 1; Text (lit "</h3>")] html in
  let html := replace (line_rule (str (lit "## ")))
    [Text (litq "<h2 class='text-xl font-serif font-bold mt-8 mb-4 text-vintage-title'>");
     Dollar 1; Text (lit "</h2>")] html in
  let html := replace (line_rule (str (lit "# ")))
    [Text (litq "<h1 class='text-2xl font-serif font-bold mt-8 mb-4 text-vintage-title'>");
     Dollar 1; Text (lit "</h1>")] html in
  (* Bold text *)
  let html := replace (span_rule (lit "**") dot)
    [Text (litq "<strong class='font-semibold text-vintage-black'>");
     Dollar 1; Text (lit "</strong>")] html in
  (* Italic text *)
  let html := replace (span_rule (lit "*") dot)
    [Text (litq "<em class='italic'>"); Dollar 1; Text (lit "</em>")] html in
  (* Code blocks *)
  let html := replace (span_rule (lit "```") any)
    [Text (litq "<pre class='bg-vintage-gray-100 border border-vintage-gray-300 p-4 my-4 font-mono text-sm overflow-x-auto'><code>");
     Dollar 1; Text (lit "</code></pre>")] html in
  (* Inline code *)
  let html := replace (span_rule (lit "`") dot)
    [Text (litq "<code class='bg-vintage-gray-100 px-2 py-1 font-mono text-sm border border-vintage-gray-300'>");
     Dollar 1; Text (lit "</code>")] html in
  (* Lists *)
  let html := replace (line_rule (str (lit "- ")))
    [Text (litq "<li class='ml-4 mb-2'>" ++ bullet ++ lit " ");
     Dollar 1; Text (lit "</li>")] html in
  let html := replace (line_rule (seqs [plus (Chr is_digit); str (lit ". ")]))
    [Text (litq "<li class='ml-4 mb-2 list-decimal'>");
     Dollar 1; Text (lit "</li>")] html in
  (* Wrap consecutive list items *)
  let html := replace list_items
    [Text (litq "<ul class='my-4 space-y-1'>"); Whole; Text (lit "</ul>")]
    html in
  (* Blockquotes *)
  let html := replace (line_rule (str (lit "> ")))
    [Text (litq "<blockquote class='border-l-4 border-vintage-black pl-4 my-4 italic text-vintage-gray-700'>");
     Dollar 1; Text (lit "</blockquote>")] html in
  (* Line breaks *)
  let html := replace (str (nl ++ nl))
    [Text (lit "</p>" ++ paragraph_open)] html in
  let html := replace (str nl) [Text (lit "<br>")] html in
  (* Wrap in paragraphs if not already wrapped *)
  if negb (includes (lit "<p>") html) && negb (includes (lit "<h1>") html)
     && negb (includes (lit "<h2>") html) && negb (includes (lit "<h3>") html)
  then paragraph_open ++ html ++ lit "</p>"
  else html.

(** [truncateText] and [truncate]: the same body twice. [maxLength] is
    taken to be an integer. *)
Definition truncateText (text : jsstr) (maxLength : Z) : jsstr :=
  if (Z.of_nat (length text) <=? maxLength)%Z then text
  else slice 0 maxLength text ++ lit "...".

Definition truncate (text : jsstr) (len : Z) : jsstr :=
  if (Z.of_nat (length text) <=? len)%Z then text
  else slice 0 len text ++ lit "...".

(** [chunk]: the loop [for (i = 0; i < array.length; i += size)] pushes
    [array.slice(i, i + size)]. It does not end for every [size], so the
    model counts the iterations it may take: [None] says that [fuel]
    iterations were not enough. *)
Fixpoint chunk_loop {A} (fuel : nat) (array : list A) (size : Z) (i : Z)
  (chunks : list (list A)) : option (list (list A)) :=
  if (i <? Z.of_nat (length array))%Z then
    match fuel with
    | O => None
    | S fuel' =>
        chunk_loop fuel' array size (i + size)%Z
          (chunks ++ [slice i (i + size) array])
    end
  else Some chunks.

Definition chunk {A} (fuel : nat) (array : list A) (size : Z)
  : option (list (list A)) :=
  chunk_loop fuel array size 0%Z [].

(** [/^R$/.test(s)] without the [m] flag: [^] holds at the start of the
    subject only and [$] at its end only, so the expression matches when
    [R] matches from the start to the end. *)
Definition test_anchored (r : re) (s : jsstr) : bool :=
  match m r (start s) []
          (fun x c => match after x with
                      | [] => Some (x, c)
                      | _ :: _ => None
                      end) with
  | Some _ => true
  | None => false
  end.

(** [[^\s@]] *)
Definition email_char (c : N) : bool := negb (is_ws c) && negb (N.eqb c 64).

Definition isValidEmail (email : jsstr) : bool :=
  test_anchored
    (seqs [plus (Chr email_char); str (lit "@"); plus (Chr email_char);
           str (lit "."); plus (Chr email_char)]) email.

(** [formatRelativeTime], with [now] for [new Date().getTime()] and
    [date] for [date.getTime()], both in milliseconds. [Math.floor] of a
    quotient is the floor division of the integers. *)
Definition formatRelativeTime (now date : Z) : jsstr :=
  let diffInSeconds := ((now - date) / 1000)%Z in
  if (diffInSeconds <? 60)%Z then lit "just now"
  else if (diffInSeconds <? 3600)%Z then
    of_N (Z.to_N (diffInSeconds / 60)) ++ lit "m ago"
  else if (diffInSeconds <? 86400)%Z then
    of_N (Z.to_N (diffInSeconds / 3600)) ++ lit "h ago"
  else of_N (Z.to_N (diffInSeconds / 86400)) ++ lit "d ago".

End Utils.

(* ================================================================== *)
(** ** src/types *)
(* ================================================================== *)

Module Types.

(** A value of type [any] handed over by the PDF library: the code only
    asks whether it is a string. *)
Inductive JSValue :=
| VString (s : jsstr)
| VNull
| VOther.

(** [AttachmentMetadata]; [None] is an absent property. The two fields
    the extraction fills from [any] values keep them as they come. *)
Record AttachmentMetadata := {
  title : option jsstr;
  author : option jsstr;
  subject : option jsstr;
  creator : option jsstr;
  producer : option jsstr;
  creationDate : option JSValue;
  keywords : option JSValue;
  pageCount : option N
}.

(** The object literal [{}]. *)
Definition no_metadata : AttachmentMetadata :=
  {| title := None; author := None; subject := None; creator := None;
     producer := None; creationDate := None; keywords := None;
     pageCount := None |}.

Record Attachment := {
  id : jsstr;
  name : jsstr;
  type : jsstr;
  size : N;
  url : jsstr;
  extractedText : option jsstr;
  metadata : option AttachmentMetadata
}.

Inductive Role := system | user | assistant.

Record Message := {
  msg_id : jsstr;
  msg_content : jsstr;
  msg_role : Role;
  msg_timestamp : N;
  msg_attachments : option (list Attachment)
}.

Record GroqMessage := {
  role : Role;
  content : jsstr
}.

Record PDFProcessingResult := {
  text : jsstr;
  result_pageCount : nat;
  result_metadata : AttachmentMetadata
}.

End Types.

(* ================================================================== *)
(** ** The browser and the PDF library *)
(* ================================================================== *)

Module Host.
Import Types.

(** A [File]: its name, declared media type, byte size and bytes. *)
Record File := {
  file_name : jsstr;
  file_type : jsstr;
  file_size : N;
  file_data : list N
}.

(** An entry of [textContent.items]: a text item has [str], marked
    content has not. *)
Inductive TextContentItem :=
| TextItem (str : jsstr)
| MarkedContent.

(** [pdf.getPage(n)] followed by [page.getTextContent()]: either of them
    throws, or the items arrive. *)
Inductive PageOutcome :=
| PageThrows
| PageItems (items : list TextContentItem).

(** [pdfMetadata.info] *)
Record PDFInfo := {
  Title : option JSValue;
  Author : option JSValue;
  Subject : option JSValue;
  Creator : option JSValue;
  Producer : option JSValue;
  CreationDate : option JSValue;
  Keywords : option JSValue
}.

(** [pdf.getMetadata()]: throws, or returns with [info] possibly
    undefined. *)
Inductive MetadataOutcome :=
| MetadataThrows
| MetadataInfo (info : option PDFInfo).

(** A loaded document. [getPage] is only asked for 1..[numPages]. *)
Record PDFDocument := {
  numPages : nat;
  getMetadata : MetadataOutcome;
  getPage : nat -> PageOutcome
}.

(** [file.arrayBuffer()] followed by [pdfjsLib.getDocument(...).promise]:
    one of them throws, or the document is there. *)
Inductive LoadOutcome :=
| LoadThrows (t : Thrown)
| Loaded (pdf : PDFDocument).

(** What the browser keeps between calls: how many identifiers, object
    URLs and dates it has handed out, which object URLs were revoked (in
    call order), and how many [setInterval] timers are running. *)
Record Browser := {
  drawn : nat;
  revoked : list jsstr;
  intervals : nat
}.

Definition tick (b : Browser) : Browser :=
  {| drawn := S (drawn b); revoked := revoked b; intervals := intervals b |}.

Definition revokeObjectURL (u : jsstr) (b : Browser) : Browser :=
  {| drawn := drawn b; revoked := revoked b ++ [u];
     intervals := intervals b |}.

Definition setInterval (b : Browser) : Browser :=
  {| drawn := drawn b; revoked := revoked b; intervals := S (intervals b) |}.

Definition clearInterval (b : Browser) : Browser :=
  {| drawn := drawn b; revoked := revoked b;
     intervals := Nat.pred (intervals b) |}.

(** The functions of the environment whose values the code does not
    determine. *)
Record Env := {
  (** reading the bytes of a file and [pdfjsLib.getDocument] on them *)
  getDocument : list N -> LoadOutcome;
  (** [formatFileSize], which computes with floating-point logarithms *)
  formatFileSize : N -> jsstr;
  (** [Number.prototype.toLocaleString], which depends on the locale *)
  toLocaleString : N -> jsstr;
  (** the value of [generateId()] at the k-th draw *)
  generateId : nat -> jsstr;
  (** the value of [URL.createObjectURL(file)] at the k-th draw *)
  createObjectURL : nat -> File -> jsstr;
  (** the value of [new Date()] at the k-th draw *)
  now : nat -> N
}.

End Host.

(* ================================================================== *)
(** ** src/services/pdfService.ts *)
(* ================================================================== *)

Module PdfService.
Import Types Host Regex.

Section WithEnv.
Variable env : Env.

Record Validation := {
  valid : bool;
  error : option jsstr
}.

Definition pdf_mime : jsstr := lit "application/pdf".
Definition maxSize : N := (15 * 1024 * 1024)%N.

Definition too_large_message (size : N) : jsstr :=
  lit "File size (" ++ formatFileSize env size ++
  lit ") exceeds the maximum limit of " ++ formatFileSize env maxSize.

Definition validatePDFFile (file : File) : Validation :=
  (* Check file type *)
  if negb (JS.eqb (file_type file) pdf_mime) then
    {| valid := false; error := Some (lit "Please select a PDF file") |}
  (* Check file size *)
  else if (maxSize <? file_size file)%N then
    {| valid := false; error := Some (too_large_message (file_size file)) |}
  else {| valid := true; error := None |}.

(** *** [extractTextFromPDF] *)

Definition string_or (v : option JSValue) (default : jsstr) : jsstr :=
  match v with
  | Some (VString s) => s
  | _ => default
  end.

Definition field (info : option PDFInfo) (f : PDFInfo -> option JSValue)
  : option JSValue :=
  match info with
  | Some i => f i
  | None => None
  end.

(** The metadata object of lines 66-74. *)
Definition read_metadata (file : File) (info : option PDFInfo)
  : AttachmentMetadata :=
  {| title := Some (string_or (field info Title)
                      (replace_first (lit ".pdf") [] (file_name file)));
     author := Some (string_or (field info Author) (lit "Unknown"));
     subject := Some (string_or (field info Subject)
                        (lit "Document Analysis"));
     creator := Some (string_or (field info Creator) (lit "PDF Creator"));
     producer := Some (string_or (field info Producer) (lit "Unknown"));
     creationDate := Some (match field info CreationDate with
                           | Some v => v
                           | None => VNull
                           end);
     keywords := Some (match field info Keywords with
                       | Some v => v
                       | None => VString []
                       end);
     pageCount := None |}.

Definition item_str (item : TextContentItem) : jsstr :=
  match item with
  | TextItem s => s
  | MarkedContent => []
  end.

(** [.replace(/\s+/g, ' ')] *)
Definition normalize_whitespace (s : jsstr) : jsstr :=
  replace (plus (Chr is_ws)) [Text (lit " ")] s.

Definition pageText (items : list TextContentItem) : jsstr :=
  trim (normalize_whitespace (join (lit " ") (List.map item_str items))).

Definition marker (pageNum : nat) : jsstr :=
  lit "--- Page " ++ of_N (N.of_nat pageNum) ++ lit " ---".

Definition page_error_text : jsstr :=
  lit "[Error extracting text from this page]".

(** The body of the page loop: what one page adds to [textPages].
    [page.cleanup()] returns a boolean and leaves the text alone. *)
Definition process_page (pdf : PDFDocument) (pageNum : nat)
  (textPages : list jsstr) : list jsstr :=
  match getPage pdf pageNum with
  | PageItems items =>
      let t := pageText items in
      if truthy t then textPages ++ [marker pageNum ++ nl ++ t ++ nl]
      else textPages
  | PageThrows =>
      textPages ++ [marker pageNum ++ nl ++ page_error_text ++ nl]
  end.

(** [for (let pageNum = ...; pageNum <= pdf.numPages; pageNum++)], with
    [remaining] the number of iterations left. *)
Fixpoint page_loop (pdf : PDFDocument) (remaining pageNum : nat)
  (textPages : list jsstr) : list jsstr :=
  match remaining with
  | O => textPages
  | S r => page_loop pdf r (S pageNum) (process_page pdf pageNum textPages)
  end.

Definition fullText (pdf : PDFDocument) : jsstr :=
  trim (join nl (page_loop pdf (numPages pdf) 1 [])).

Definition raw_empty_message : jsstr :=
  lit "PDF appears to be empty or contains only images/scanned content. Text extraction failed.".

(** The messages of the four error classes and of a thrown non-error. *)
Definition InvalidDocument : jsstr :=
  lit "The uploaded file appears to be corrupted or is not a valid PDF document.".
Definition PasswordProtected : jsstr :=
  lit "This PDF is password-protected. Please upload an unprotected PDF file.".
Definition EmptyOrImageOnly : jsstr :=
  lit "This PDF appears to contain only images or scanned content. Please try a PDF with selectable text.".
Definition Unknown (message : jsstr) : jsstr :=
  lit "Failed to extract text from PDF: " ++ message.
Definition Unexpected : jsstr :=
  lit "An unexpected error occurred while processing the PDF. Please try again.".

(** The [try] block. *)
Definition extract_body (file : File) : Result PDFProcessingResult :=
  match getDocument env (file_data file) with
  | LoadThrows t => Throw t
  | Loaded pdf =>
      let metadata :=
        match getMetadata pdf with
        | MetadataInfo info => read_metadata file info
        | MetadataThrows => no_metadata
        end in
      let fullText := fullText pdf in
      if negb (truthy fullText) || (length fullText <? 10) then
        Throw (ErrorObj raw_empty_message)
      else
        Ok {| text := fullText;
              result_pageCount := numPages pdf;
              result_metadata := metadata |}
  end.

(** The [catch] block. *)
Definition classify (t : Thrown) : Thrown :=
  match t with
  | ErrorObj message =>
      if includes (lit "Invalid PDF") message then ErrorObj InvalidDocument
      else if includes (lit "password") message then
             ErrorObj PasswordProtected
      else if includes (lit "empty") message then ErrorObj EmptyOrImageOnly
      else ErrorObj (Unknown message)
  | NonError => ErrorObj Unexpected
  end.

Definition extractTextFromPDF (file : File) : Result PDFProcessingResult :=
  match extract_body file with
  | Ok r => Ok r
  | Throw t => Throw (classify t)
  end.

(** *** [processPDFFile] *)

Definition processPDFFile (file : File) (b : Browser)
  : Result Attachment * Browser :=
  (* Validate file first *)
  let validation := validatePDFFile file in
  if negb (valid validation) then
    (Throw (ErrorObj (match error validation with
                      | Some e => e
                      | None => []
                      end)), b)
  else
    (* Extract text from PDF *)
    match extractTextFromPDF file with
    | Throw t => (Throw t, b)
    | Ok extractionResult =>
        (* Create attachment object *)
        let b1 := tick b in
        let b2 := tick b1 in
        (Ok {| id := generateId env (drawn b);
               name := file_name file;
               type := lit "pdf";
               size := file_size file;
               url := createObjectURL env (drawn b1) file;
               extractedText := Some (text extractionResult);
               metadata := Some (result_metadata extractionResult) |}, b2)
    end.

(** *** [cleanupPDFResources] *)

Definition cleanupPDFResources (attachment : Attachment) (b : Browser)
  : Browser :=
  if startsWith (lit "blob:") (url attachment)
  then revokeObjectURL (url attachment) b
  else b.

(** *** [getPDFStats] *)

Record Stats := {
  wordCount : N;
  characterCount : N;
  readingTime : N;
  pages : N
}.

(** [x || d] on an optional string and on an optional number. *)
Definition or_string (x : option jsstr) (d : jsstr) : jsstr :=
  match x with
  | Some s => if truthy s then s else d
  | None => d
  end.

Definition or_number (x : option N) (d : N) : N :=
  match x with
  | Some n => if N.eqb n 0 then d else n
  | None => d
  end.

Definition getPDFStats (attachment : Attachment) : Stats :=
  let text := or_string (extractedText attachment) [] in
  let words := filter (fun word => 0 <? length word) (split_ws text) in
  let characters := length text in
  let readingTime := ceil_div (N.of_nat (length words)) 200 in
  {| wordCount := N.of_nat (length words);
     characterCount := N.of_nat characters;
     readingTime := readingTime;
     pages := or_number (match metadata attachment with
                         | Some md => pageCount md
                         | None => None
                         end) 0 |}.

(** *** [extractKeyInfo] *)

Record KeyInfo := {
  emails : list jsstr;
  phones : list jsstr;
  urls : list jsstr;
  dates : list jsstr
}.

Definition is_alnum (c : N) : bool := is_upper c || is_lower c || is_digit c.

Definition emailRegex : re :=
  seqs [WordB;
        plus (Chr (fun c => is_alnum c || one_of (lit "._%+-") c));
        str (lit "@");
        plus (Chr (fun c => is_alnum c || one_of (lit ".-") c));
        str (lit ".");
        at_least 2 (Chr (fun c => is_upper c || N.eqb c 124 || is_lower c));
        WordB].

Definition phone_sep : re := opt (Chr (fun c => one_of (lit "-.") c || is_ws c)).

Definition phoneRegex : re :=
  seqs [opt (Group 1 (seqs [opt (str (lit "+")); rep 1 2 (Chr is_digit);
                            phone_sep]));
        opt (str (lit "(")); rep 3 0 (Chr is_digit); opt (str (lit ")"));
        phone_sep; rep 3 0 (Chr is_digit);
        phone_sep; rep 4 0 (Chr is_digit)].

Definition urlRegex : re :=
  seqs [str (lit "http"); opt (str (lit "s")); str (lit "://");
        plus (Chr (fun c => negb (is_ws c)))].

Definition date_sep : re := Chr (one_of (lit "/-.")).

Definition dateRegex : re :=
  Alt (seqs [WordB; rep 1 1 (Chr is_digit); date_sep;
             rep 1 1 (Chr is_digit); date_sep;
             rep 2 2 (Chr is_digit); WordB])
      (seqs [WordB; rep 4 0 (Chr is_digit); date_sep;
             rep 1 1 (Chr is_digit); date_sep;
             rep 1 1 (Chr is_digit); WordB]).

(** [[...new Set(a)]]: the first occurrence of every element, in order. *)
Fixpoint unique_from (seen : list jsstr) (a : list jsstr) : list jsstr :=
  match a with
  | [] => []
  | x :: a' =>
      if existsb (JS.eqb x) seen then unique_from seen a'
      else x :: unique_from (x :: seen) a'
  end.

Definition unique (a : list jsstr) : list jsstr := unique_from [] a.

Definition extractKeyInfo (text : jsstr) : KeyInfo :=
  {| emails := unique (match_all emailRegex text);
     phones := unique (match_all phoneRegex text);
     urls := unique (match_all urlRegex text);
     dates := unique (match_all dateRegex text) |}.

End WithEnv.
End PdfService.

(* ================================================================== *)
(** ** src/services/groqService.ts *)
(* ================================================================== *)

Module GroqService.
Import Types.

Definition aiPrompt : jsstr := lit
"You are an elite AI assistant specializing in document analysis and intelligent conversation. You excel at understanding PDF documents, extracting insights, and providing clear, professional responses with a vintage scholarly approach.

Core Capabilities:
- Comprehensive document analysis and understanding with scholarly precision
- Intelligent information extraction and detailed summarization
- Context-aware responses that demonstrate deep comprehension
- Clear explanations of complex concepts with academic rigor
- Professional, articulate communication with vintage sophistication

Response Excellence:
1. Provide precise, well-structured answers that directly address the inquiry
2. Use clear, eloquent language while maintaining technical accuracy
3. Structure responses with proper formatting and logical progression
4. Include specific examples or references when relevant
5. Offer actionable insights and scholarly recommendations

Response Structure:
- Begin with a direct, authoritative answer to the core question
- Follow with supporting analysis and contextual information
- Use proper formatting (bold, italics, lists) for maximum clarity
- Conclude with practical insights or next steps when appropriate
- Maintain a professional yet approachable scholarly tone

Document Analysis Approach:
- Thoroughly examine content structure, key themes, and relationships
- Extract relevant information with precision and context
- Identify important patterns, conclusions, and implications
- Provide comprehensive summaries that capture essential elements
- Offer intelligent insights that go beyond surface-level content

Your mission is to provide intelligent, accurate, and insightful analysis that transforms complex documents into accessible, actionable knowledge with the refinement of classic scholarship.".

Definition DEFAULT_MODEL : jsstr :=
  lit "meta-llama/llama-4-scout-17b-16e-instruct".
Definition FALLBACK_MODEL : jsstr := lit "llama3-8b-8192".

(** The body of [groq.chat.completions.create]. *)
Record Request := {
  model : jsstr;
  messages : list GroqMessage;
  temperature : Q;
  max_tokens : N;
  top_p : Q;
  frequency_penalty : option Q;
  presence_penalty : option Q
}.

(** [...GROQ_CONFIG.GENERATION_PARAMS] *)
Definition with_generation_params (model : jsstr)
  (messages : list GroqMessage) : Request :=
  {| model := model; messages := messages;
     temperature := (7 # 10)%Q; max_tokens := 2000; top_p := (95 # 100)%Q;
     frequency_penalty := Some (1 # 10)%Q;
     presence_penalty := Some (5 # 100)%Q |}.

(** What comes back: [choices], each with an optional [message] whose
    [content] may be null. *)
Record ChoiceMessage := { reply_content : option jsstr }.
Record Choice := { message : option ChoiceMessage }.
Record Completion := { choices : list Choice }.

Inductive ApiOutcome :=
| ApiThrows (t : Thrown)
| ApiReturns (completion : Completion).

(** [completion.choices[0]?.message?.content] *)
Definition first_content (completion : Completion) : option jsstr :=
  match choices completion with
  | [] => None
  | c :: _ =>
      match message c with
      | None => None
      | Some msg => reply_content msg
      end
  end.

(** The requests sent so far, oldest first. *)
Definition Log := list Request.

(** Computations that call the service and may throw. *)
Definition M (A : Type) := Log -> Result A * Log.

Definition ret {A} (a : A) : M A := fun l => (Ok a, l).
Definition throw {A} (t : Thrown) : M A := fun l => (Throw t, l).
Definition bind {A B} (c : M A) (k : A -> M B) : M B :=
  fun l => match c l with
           | (Ok a, l') => k a l'
           | (Throw t, l') => (Throw t, l')
           end.
Definition try_catch {A} (c : M A) (handler : Thrown -> M A) : M A :=
  fun l => match c l with
           | (Ok a, l') => (Ok a, l')
           | (Throw t, l') => handler t l'
           end.

Notation "x <- c ;; k" := (bind c (fun x => k))
  (at level 61, c at next level, right associativity).

Section WithService.
(** The service: its answer to a request, given how many requests it
    received before. *)
Variable service : nat -> Request -> ApiOutcome.

Definition create (req : Request) : M Completion :=
  fun l => match service (length l) req with
           | ApiThrows t => (Throw t, l ++ [req])
           | ApiReturns c => (Ok c, l ++ [req])
           end.

(** [if (!response) throw new Error(message); return response.trim()] *)
Definition checked (response : option jsstr) (message : jsstr) : M jsstr :=
  match response with
  | Some r => if truthy r then ret (trim r) else throw (ErrorObj message)
  | None => throw (ErrorObj message)
  end.

(** The user turn, with [budget] code units of document context. *)
Definition userContent (budget : N) (userMessage : jsstr)
  (documentContext : option jsstr) : jsstr :=
  match documentContext with
  | Some d =>
      if truthy d then
        lit "Document Context:" ++ nl ++ slice_to budget d ++ nl ++ nl ++
        lit "User Question: " ++ userMessage
      else userMessage
  | None => userMessage
  end.

Definition system_turn : GroqMessage :=
  {| role := system; content := aiPrompt |}.

(** Lines 66-93: the request of the first attempt. *)
Definition primary_request (userMessage : jsstr)
  (conversationHistory : list GroqMessage) (documentContext : option jsstr)
  : Request :=
  let messages := [system_turn] in
  (* Add conversation history *)
  let messages :=
    if 0 <? length conversationHistory
    then messages ++ slice_last 10 conversationHistory
    else messages in
  (* Create user message with document context if available *)
  let messages :=
    messages ++ [{| role := user;
                    content := userContent 8000 userMessage documentContext |}] in
  with_generation_params DEFAULT_MODEL messages.

(** Lines 106-126: the request of the second attempt. *)
Definition fallback_request (userMessage : jsstr)
  (conversationHistory : list GroqMessage) (documentContext : option jsstr)
  : Request :=
  {| model := FALLBACK_MODEL;
     messages :=
       [system_turn] ++ slice_last 8 conversationHistory ++
       [{| role := user;
           content := userContent 6000 userMessage documentContext |}];
     temperature := (6 # 10)%Q; max_tokens := 1500; top_p := (9 # 10)%Q;
     frequency_penalty := None; presence_penalty := None |}.

Definition ServiceUnavailable : jsstr :=
  lit "AI service is currently unavailable. Please try again in a moment.".

Definition chatWithContext (userMessage : jsstr)
  (conversationHistory : list GroqMessage) (documentContext : option jsstr)
  : M jsstr :=
  try_catch
    (completion <- create (primary_request userMessage conversationHistory
                             documentContext) ;;
     checked (first_content completion)
       (lit "No response received from AI service"))
    (fun error =>
       (* Try with fallback model *)
       try_catch
         (completion <- create (fallback_request userMessage
                                  conversationHistory documentContext) ;;
          checked (first_content completion)
            (lit "No response received from fallback AI service"))
         (fun fallbackError => throw (ErrorObj ServiceUnavailable))).

(** Lines 146-158: the prompt of [analyzeDocument]. *)
Definition analysisPrompt (documentText fileName : jsstr) : jsstr :=
  litq "Please provide a comprehensive analysis of this PDF document '" ++
    fileName ++ litq "'. " ++ nl ++
  nl ++
  lit "Document Content:" ++ nl ++
  slice_to 10000 documentText ++ nl ++
  nl ++
  lit "Please provide:" ++ nl ++
  lit "1. **Document Summary**: A concise overview of the main content and purpose" ++ nl ++
  lit "2. **Key Topics**: The primary subjects and themes covered" ++ nl ++
  lit "3. **Important Information**: Critical data, conclusions, or insights" ++ nl ++
  lit "4. **Structure Analysis**: How the document is organized and its logical flow" ++ nl ++
  lit "5. **Notable Elements**: Any significant figures, references, or unique aspects" ++ nl ++
  nl ++
  lit "Format your response with clear headings and bullet points for easy reading.".

Definition analysis_request (documentText fileName : jsstr) : Request :=
  with_generation_params DEFAULT_MODEL
    [system_turn;
     {| role := user; content := analysisPrompt documentText fileName |}].

Definition AnalysisFailed : jsstr :=
  lit "Failed to analyze document. Please try again.".

Definition analyzeDocument (documentText fileName : jsstr) : M jsstr :=
  try_catch
    (completion <- create (analysis_request documentText fileName) ;;
     checked (first_content completion)
       (lit "No analysis received from AI service"))
    (fun error => throw (ErrorObj AnalysisFailed)).

End WithService.
End GroqService.

(* ================================================================== *)
(** ** src/components/Chat.tsx *)
(* ================================================================== *)

Module Chat.
Import Types Host PdfService.

(** The state variables of the component. *)
Record State := {
  messages : list Message;
  input : jsstr;
  isLoading : bool;
  attachment : option Attachment;
  uploadProgress : N;
  processingStatus : jsstr;
  error : option jsstr;
  showDebug : bool
}.

Definition setIsLoading (v : bool) (s : State) : State :=
  {| messages := messages s; input := input s; isLoading := v;
     attachment := attachment s; uploadProgress := uploadProgress s;
     processingStatus := processingStatus s; error := error s;
     showDebug := showDebug s |}.

Definition setUploadProgress (v : N) (s : State) : State :=
  {| messages := messages s; input := input s; isLoading := isLoading s;
     attachment := attachment s; uploadProgress := v;
     processingStatus := processingStatus s; error := error s;
     showDebug := showDebug s |}.

Definition setError (v : option jsstr) (s : State) : State :=
  {| messages := messages s; input := input s; isLoading := isLoading s;
     attachment := attachment s; uploadProgress := uploadProgress s;
     processingStatus := processingStatus s; error := v;
     showDebug := showDebug s |}.

Definition setProcessingStatus (v : jsstr) (s : State) : State :=
  {| messages := messages s; input := input s; isLoading := isLoading s;
     attachment := attachment s; uploadProgress := uploadProgress s;
     processingStatus := v; error := error s; showDebug := showDebug s |}.

Definition setAttachment (v : option Attachment) (s : State) : State :=
  {| messages := messages s; input := input s; isLoading := isLoading s;
     attachment := v; uploadProgress := uploadProgress s;
     processingStatus := processingStatus s; error := error s;
     showDebug := showDebug s |}.

Definition setMessages (f : list Message -> list Message) (s : State)
  : State :=
  {| messages := f (messages s); input := input s; isLoading := isLoading s;
     attachment := attachment s; uploadProgress := uploadProgress s;
     processingStatus := processingStatus s; error := error s;
     showDebug := showDebug s |}.

Section WithEnv.
Variable env : Env.

(** One line of found items: at most three of them, then an ellipsis. *)
Definition found_line (label : jsstr) (found : list jsstr) : jsstr :=
  if 0 <? length found then
    label ++ join (lit ", ") (slice_to 3 found) ++
    (if 3 <? length found then lit "..." else []) ++ nl
  else [].

(** The text of the analysis message. *)
Definition analysis_content (newAttachment : Attachment) (stats : Stats)
  (keyInfo : KeyInfo) : jsstr :=
  lit "# PDF Analysis Complete" ++ nl ++
  nl ++
  lit "**Document**: " ++ name newAttachment ++ nl ++
  lit "**Pages**: " ++ of_N (pages stats) ++ nl ++
  lit "**Word Count**: " ++ toLocaleString env (wordCount stats) ++ nl ++
  lit "**Character Count**: " ++
    toLocaleString env (characterCount stats) ++ nl ++
  lit "**Estimated Reading Time**: " ++ of_N (readingTime stats) ++
    lit " minutes" ++ nl ++
  nl ++
  found_line (lit "**Email Addresses Found**: ") (emails keyInfo) ++
  found_line (lit "**Phone Numbers Found**: ") (phones keyInfo) ++
  found_line (lit "**Dates Found**: ") (dates keyInfo) ++ nl ++
  lit "I have successfully extracted and analyzed the content from your PDF document. The text has been processed and I am now ready to answer questions, provide summaries, or discuss any specific aspects of the document." ++ nl ++
  nl ++
  lit "## What would you like to know about this document?" ++ nl ++
  nl ++
  lit "Some suggestions:" ++ nl ++
  litq "- 'Summarize the main points'" ++ nl ++
  litq "- 'What are the key topics covered?'" ++ nl ++
  litq "- 'Extract important dates or numbers'" ++ nl ++
  litq "- 'What conclusions does the document reach?'".

(** The [try] block after [processPDFFile] returned. *)
Definition upload_succeeded (newAttachment : Attachment)
  (prev : option Attachment) (sb : State * Browser) : State * Browser :=
  let '(s, b) := sb in
  let b := clearInterval b in
  let s := setUploadProgress 100 s in
  let s := setProcessingStatus (lit "PDF processed successfully!") s in
  (* Clean up previous attachment *)
  let b := match prev with
           | Some old => cleanupPDFResources old b
           | None => b
           end in
  let s := setAttachment (Some newAttachment) s in
  (* Get PDF statistics for analysis message *)
  let stats := getPDFStats newAttachment in
  let keyInfo := extractKeyInfo (or_string (extractedText newAttachment) []) in
  let analysisMessage :=
    {| msg_id := generateId env (drawn b);
       msg_content := analysis_content newAttachment stats keyInfo;
       msg_role := assistant;
       msg_timestamp := now env (drawn (tick b));
       msg_attachments := None |} in
  let b := tick (tick b) in
  (setMessages (fun prev => prev ++ [analysisMessage]) s, b).

(** The [catch] block. *)
Definition upload_failed (t : Thrown) (sb : State * Browser)
  : State * Browser :=
  let '(s, b) := sb in
  let errorMessage :=
    match t with
    | ErrorObj message => message
    | NonError => lit "Failed to process PDF document"
    end in
  (setError (Some errorMessage) s, b).

Definition handleFileUpload (file : File) (sb : State * Browser)
  : State * Browser :=
  let '(s0, b) := sb in
  let s := setIsLoading true s0 in
  let s := setUploadProgress 0 s in
  let s := setError None s in
  let s := setProcessingStatus (lit "Validating PDF file...") s in
  (* Simulate upload progress *)
  let b := setInterval b in
  let s := setProcessingStatus (lit "Extracting text from PDF...") s in
  let '(outcome, b) := processPDFFile env file b in
  let '(s, b) :=
    match outcome with
    | Ok newAttachment =>
        upload_succeeded newAttachment (attachment s0) (s, b)
    | Throw t => upload_failed t (s, b)
    end in
  (* finally *)
  let s := setIsLoading false s in
  let s := setUploadProgress 0 s in
  let s := setProcessingStatus [] s in
  (s, b).

End WithEnv.

Definition setInput (v : jsstr) (s : State) : State :=
  {| messages := messages s; input := v; isLoading := isLoading s;
     attachment := attachment s; uploadProgress := uploadProgress s;
     processingStatus := processingStatus s; error := error s;
     showDebug := showDebug s |}.

(** [{ role: msg.role, content: msg.content }] *)
Definition toGroqMessage (msg : Message) : GroqMessage :=
  {| role := msg_role msg; content := msg_content msg |}.

Definition removeAttachment (sb : State * Browser) : State * Browser :=
  let '(s, b) := sb in
  match attachment s with
  | Some a => (setAttachment None s, cleanupPDFResources a b)
  | None => (s, b)
  end.

Section WithServices.
Variable env : Env.
Variable service : nat -> GroqService.Request -> GroqService.ApiOutcome.

Definition canned_response : jsstr :=
  lit "I can see you have uploaded a document. Please ask me a question about its content.".

(** The three ways to an answer, lines 165-183. *)
Definition respond (s0 : State) (conversationHistory : list GroqMessage)
  : GroqService.M jsstr :=
  let question := trim (input s0) in
  let regular :=
    if truthy question then
      (* Regular chat *)
      GroqService.chatWithContext service question conversationHistory None
    else GroqService.ret canned_response in
  match attachment s0 with
  | Some a =>
      match extractedText a with
      | Some t =>
          if truthy t then
            (* Chat with document context *)
            GroqService.chatWithContext service question
              conversationHistory (Some t)
          else regular
      | None => regular
      end
  | None => regular
  end.

Definition handleSendMessage (w : State * Browser * GroqService.Log)
  : State * Browser * GroqService.Log :=
  let '(s0, b, log) := w in
  if (negb (truthy (trim (input s0))) &&
      match attachment s0 with Some _ => false | None => true end)
     || isLoading s0 then w
  else
    let userMessage :=
      {| msg_id := generateId env (drawn b);
         msg_content := trim (input s0);
         msg_role := user;
         msg_timestamp := now env (drawn (tick b));
         msg_attachments := Some match attachment s0 with
                                 | Some a => [a]
                                 | None => []
                                 end |} in
    let b := tick (tick b) in
    let s := setMessages (fun prev => prev ++ [userMessage]) s0 in
    let s := setInput [] s in
    let s := setIsLoading true s in
    let s := setError None s in
    (* try *)
    let conversationHistory := List.map toGroqMessage (messages s0) in
    let '(outcome, log) := respond s0 conversationHistory log in
    let '(s, b) :=
      match outcome with
      | Ok response =>
          let aiMessage :=
            {| msg_id := generateId env (drawn b);
               msg_content := response;
               msg_role := assistant;
               msg_timestamp := now env (drawn (tick b));
               msg_attachments := None |} in
          (setMessages (fun prev => prev ++ [aiMessage]) s, tick (tick b))
      | Throw t =>
          let errorMessage :=
            match t with
            | ErrorObj message => message
            | NonError => lit "Failed to process your request"
            end in
          (setError (Some errorMessage) s, b)
      end in
    (* finally *)
    (setIsLoading false s, b, log).

End WithServices.
End Chat.

(* ================================================================== *)
(** ** The vocabulary of the specification *)
(* ================================================================== *)

Module Spec.
Import Types Host.



(** What page [n] contributes to the extracted text: the placeholder
    when reading the page throws, its normalised text when that is not
    empty, and nothing otherwise. *)
Definition page_content (pdf : PDFDocument) (n : nat) : option jsstr :=
  match getPage pdf n with
  | PageThrows => Some PdfService.page_error_text
  | PageItems items =>
      let t := PdfService.pageText items in
      if truthy t then Some t else None
  end.

(** The contribution of one page, as a list. *)
Definition contribution (pdf : PDFDocument) (n : nat) : list (nat * jsstr) :=
  match page_content pdf n with
  | Some t => [(n, t)]
  | None => []
  end.

(** The pages that contribute, in page order, with their content. *)
Definition printed (pdf : PDFDocument) : list (nat * jsstr) :=
  flat_map (contribution pdf) (seq 1 (numPages pdf)).

(** A text that ends with a code unit other than white space. *)
Definition solid (t : jsstr) : Prop :=
  exists t' z, t = t' ++ [z] /\ is_ws z = false.

(** A page block without the line break that ends it. *)
Definition block (p : nat * jsstr) : jsstr :=
  PdfService.marker (fst p) ++ nl ++ snd p.

(** The number of code units of text that can be extracted from the
    pages of a document. *)
Definition extractable (pdf : PDFDocument) : nat :=
  list_sum (List.map (fun n => match getPage pdf n with
                               | PageItems items =>
                                   length (PdfService.pageText items)
                               | PageThrows => 0
                               end) (seq 1 (numPages pdf))).

(** The user turn as section 4.5 words it, with a line break after
    [User Question:]. *)
Definition user_turn_as_specified (budget : N) (question documentText : jsstr)
  : jsstr :=
  lit "Document Context:" ++ nl ++ slice_to budget documentText ++
  nl ++ nl ++ lit "User Question:" ++ nl ++ question.

(** A model call fails when it throws or returns no or an empty body. *)
Definition fails (o : GroqService.ApiOutcome) : bool :=
  match o with
  | GroqService.ApiThrows _ => true
  | GroqService.ApiReturns c =>
      match GroqService.first_content c with
      | Some body => negb (truthy body)
      | None => true
      end
  end.

(** The body of a reply the code accepts: present and not empty, as it
    arrived. *)
Definition accepted (o : GroqService.ApiOutcome) : option jsstr :=
  match o with
  | GroqService.ApiThrows _ => None
  | GroqService.ApiReturns c =>
      match GroqService.first_content c with
      | Some body => if truthy body then Some body else None
      | None => None
      end
  end.

(** The states of section 4.6, read off the state variables. The
    component has one busy flag for uploads and for model calls. *)
Inductive Orchestrator :=
| Idle
| Busy
| Error (message : jsstr).

Definition orchestrator (s : Chat.State) : Orchestrator :=
  if Chat.isLoading s then Busy
  else match Chat.error s with
       | Some message => Error message
       | None => Idle
       end.

(** The document text a send passes on: the extracted text of the
    attachment, when there is one and it is not empty. *)
Definition document_of (s : Chat.State) : option jsstr :=
  match Chat.attachment s with
  | Some a =>
      match extractedText a with
      | Some t => if truthy t then Some t else None
      | None => None
      end
  | None => None
  end.

(** The test that opens [handleSendMessage]. *)
Definition send_rejected (s : Chat.State) : bool :=
  (negb (truthy (trim (Chat.input s))) &&
   match Chat.attachment s with Some _ => false | None => true end)
  || Chat.isLoading s.

(** What [cleanupPDFResources] revokes. *)
Definition released (a : option Attachment) : list jsstr :=
  match a with
  | Some old => if startsWith (lit "blob:") (url old) then [url old] else []
  | None => []
  end.

(** Every run of white space replaced by one space, written as a plain
    recursion: [in_ws] says that the previous code unit was white
    space. *)
Fixpoint collapse (in_ws : bool) (s : jsstr) : jsstr :=
  match s with
  | [] => []
  | c :: r =>
      if is_ws c then
        if in_ws then collapse true r else 32%N :: collapse true r
      else c :: collapse false r
  end.

(** The position after the white space that starts at [(b, a)]. *)
Fixpoint skip_ws (b a : jsstr) : Regex.pos :=
  match a with
  | ch :: r =>
      if is_ws ch then skip_ws (ch :: b) r
      else {| Regex.before := b; Regex.after := a |}
  | [] => {| Regex.before := b; Regex.after := [] |}
  end.

(** The only white space of a text is single spaces between other code
    units: none where [after_ws] says that white space came before. *)
Fixpoint single_spaced (after_ws : bool) (s : jsstr) : bool :=
  match s with
  | [] => true
  | c :: r =>
      if is_ws c then N.eqb c 32 && negb after_ws && single_spaced true r
      else single_spaced false r
  end.

(** A position of the subject [text]. *)
Definition position_of (text : jsstr) (x : Regex.pos) : Prop :=
  rev (Regex.before x) ++ Regex.after x = text.

(** A text without markup: one line without asterisk, backtick or
    [<], that does not start with [#], [-], [>] or a digit. *)
Definition plain (text : jsstr) : bool :=
  forallb (fun c => negb (is_line_terminator c || N.eqb c 42 ||
                          N.eqb c 96 || N.eqb c 60)) text &&
  negb (Regex.head_is (fun c => N.eqb c 35 || N.eqb c 45 || N.eqb c 62 ||
                                Regex.is_digit c) text).

End Spec.

(* ================================================================== *)
(** ** Concrete documents, files and services *)
(* ================================================================== *)

Module Samples.
Import Types Host.

(** A document of [n] pages whose text items are given page by page. *)
Definition document (n : nat) (items : nat -> list TextContentItem)
  : PDFDocument :=
  {| numPages := n;
     getMetadata := MetadataInfo None;
     getPage := fun k => PageItems (items k) |}.

(** Three pages, each with the text [Hello world]. *)
Definition hello3 : PDFDocument :=
  document 3 (fun _ => [TextItem (lit "Hello world")]).

(** Three pages, the second one without any text. *)
Definition gap3 : PDFDocument :=
  document 3 (fun k => if Nat.eqb k 2 then []
                       else [TextItem (lit "Hello world")]).

(** One page without any text. *)
Definition scan1 : PDFDocument := document 1 (fun _ => []).

(** One page with the text [Hi]. *)
Definition hi1 : PDFDocument := document 1 (fun _ => [TextItem (lit "Hi")]).

(** The document [pdf] with another outcome of [getMetadata]. *)
Definition with_metadata (pdf : PDFDocument) (outcome : MetadataOutcome)
  : PDFDocument :=
  {| numPages := numPages pdf; getMetadata := outcome;
     getPage := getPage pdf |}.

(** A document of [n] pages that all fail to be read. *)
Definition unreadable (n : nat) : PDFDocument :=
  {| numPages := n; getMetadata := MetadataThrows;
     getPage := fun _ => PageThrows |}.

(** An environment in which every file holds the document [pdf]. *)
Definition env_with (pdf : PDFDocument) : Env :=
  {| getDocument := fun _ => Loaded pdf;
     formatFileSize := fun n => of_N n ++ lit " Bytes";
     toLocaleString := of_N;
     generateId := fun k => lit "id-" ++ of_N (N.of_nat k);
     createObjectURL := fun k _ => lit "blob:" ++ of_N (N.of_nat k);
     now := fun k => N.of_nat k |}.

Definition pdf_file (size : N) : File :=
  {| file_name := lit "report.pdf"; file_type := lit "application/pdf";
     file_size := size; file_data := [] |}.

Definition text_file : File :=
  {| file_name := lit "notes.txt"; file_type := lit "text/plain";
     file_size := 12; file_data := [] |}.

Definition fresh_browser : Browser :=
  {| drawn := 0; revoked := []; intervals := 0 |}.

Definition old_attachment : Attachment :=
  {| id := lit "id-old"; name := lit "old.pdf"; type := lit "pdf";
     size := 10; url := lit "blob:old";
     extractedText := Some (lit "--- Page 1 ---") ;
     metadata := Some no_metadata |}.

Definition idle (a : option Attachment) : Chat.State :=
  {| Chat.messages := []; Chat.input := []; Chat.isLoading := false;
     Chat.attachment := a; Chat.uploadProgress := 0;
     Chat.processingStatus := []; Chat.error := None;
     Chat.showDebug := false |}.

(** A reply with the given body. *)
Definition reply (body : jsstr) : GroqService.ApiOutcome :=
  GroqService.ApiReturns
    {| GroqService.choices :=
         [{| GroqService.message :=
               Some {| GroqService.reply_content := Some body |} |}] |}.

(** A service that is down, and one that answers a single space. *)
Definition service_down : nat -> GroqService.Request -> GroqService.ApiOutcome :=
  fun _ _ => GroqService.ApiThrows (ErrorObj (lit "fetch failed")).

Definition service_blank : nat -> GroqService.Request -> GroqService.ApiOutcome :=
  fun _ _ => reply (lit " ").

Definition turn (r : Role) (text : string) : GroqMessage :=
  {| role := r; content := lit text |}.

End Samples.

(* ================================================================== *)
(** ** Properties of the runtime fragment *)
(* ================================================================== *)

Module JSFacts.

Lemma eqb_refl (s : jsstr) : JS.eqb s s = true.
Proof.
  induction s as [|c s IH]; simpl; [reflexivity|].
  now rewrite N.eqb_refl, IH.
Qed.

Lemma eqb_eq (a b : jsstr) : JS.eqb a b = true <-> a = b.
Proof.
  split; [|intros ->; apply eqb_refl].
  revert b; induction a as [|x a IH]; intros [|y b]; simpl;
    try discriminate; [reflexivity|].
  rewrite andb_true_iff, N.eqb_eq. intros [-> H]. now rewrite (IH _ H).
Qed.

Lemma truthy_nonempty (s : jsstr) : truthy s = true <-> s <> [].
Proof. destruct s; simpl; split; congruence. Qed.

(** [trimStart] returns the empty string or one that starts with a code
    unit other than white space. *)
Lemma trimStart_head (s : jsstr) :
  trimStart s = [] \/
  exists c r, trimStart s = c :: r /\ is_ws c = false.
Proof.
  induction s as [|c s IH]; simpl; [now left|].
  destruct (is_ws c) eqn:E; [exact IH|].
  right. now exists c, s.
Qed.

Lemma trimStart_id (c : N) (r : jsstr) :
  is_ws c = false -> trimStart (c :: r) = c :: r.
Proof. intros H. simpl. now rewrite H. Qed.

(** A trimmed string is empty or ends with a code unit other than white
    space. *)
Lemma trim_last (s : jsstr) :
  trim s = [] \/ exists r c, trim s = r ++ [c] /\ is_ws c = false.
Proof.
  unfold trim, trimEnd.
  destruct (trimStart_head (rev (trimStart s))) as [E | (c & r & E & Hc)];
    rewrite E; simpl; [now left|].
  right. now exists (rev r), c.
Qed.

Lemma trimEnd_snoc (s : jsstr) (z : N) :
  is_ws z = false -> trimEnd (s ++ [z]) = s ++ [z].
Proof.
  intros Hz. unfold trimEnd. rewrite rev_unit, (trimStart_id _ _ Hz).
  simpl. now rewrite rev_involutive.
Qed.

Lemma trimEnd_snoc_ws (s : jsstr) (w : N) :
  is_ws w = true -> trimEnd (s ++ [w]) = trimEnd s.
Proof.
  intros Hw. unfold trimEnd. rewrite rev_unit. simpl. now rewrite Hw.
Qed.

(** Trimming removes nothing from a string that neither starts nor ends
    with white space. *)
Lemma trim_id (a z : N) (mid : jsstr) :
  is_ws a = false -> is_ws z = false ->
  trim (a :: mid ++ [z]) = a :: mid ++ [z].
Proof.
  intros Ha Hz. unfold trim. rewrite (trimStart_id _ _ Ha).
  apply (trimEnd_snoc (a :: mid) _ Hz).
Qed.

(** ... and exactly the final line break from such a string followed by
    one. *)
Lemma trim_drops_final_nl (a z : N) (mid : jsstr) :
  is_ws a = false -> is_ws z = false ->
  trim ((a :: mid ++ [z]) ++ nl) = a :: mid ++ [z].
Proof.
  intros Ha Hz. unfold trim.
  change ((a :: mid ++ [z]) ++ nl) with (a :: (mid ++ [z]) ++ nl).
  rewrite (trimStart_id _ _ Ha).
  change (a :: (mid ++ [z]) ++ nl) with (((a :: mid) ++ [z]) ++ [10%N]).
  rewrite trimEnd_snoc_ws by reflexivity.
  apply (trimEnd_snoc (a :: mid) _ Hz).
Qed.

Lemma trim_nonempty_iff (s : jsstr) :
  trim s <> [] <-> exists c, In c s /\ is_ws c = false.
Proof.
  assert (TS : forall u, trimStart u <> [] <->
                         exists c, In c u /\ is_ws c = false).
  { induction u as [|c u IH]; simpl.
    - split; [congruence | intros (c & [] & _)].
    - destruct (is_ws c) eqn:E.
      + rewrite IH. split; intros (d & Hd & Hw); exists d; split; auto.
        destruct Hd as [->|Hd]; [congruence | exact Hd].
      + split; [|congruence]. intros _. exists c. auto. }
  assert (TI : forall u c, In c (trimStart u) -> In c u).
  { induction u as [|d u IH]; simpl; [tauto|].
    intros c. destruct (is_ws d); [right; now apply IH | tauto]. }
  unfold trim, trimEnd. split.
  - intros H.
    assert (H' : trimStart (rev (trimStart s)) <> []).
    { intros E. apply H. now rewrite E. }
    apply TS in H'. destruct H' as (c & Hc & Hw).
    exists c. split; [|exact Hw]. apply TI. now apply in_rev.
  - intros (c & Hc & Hw) E.
    assert (S1 : trimStart s <> []) by (apply TS; eauto).
    destruct (trimStart_head s) as [E1 | (d & r & E1 & Hdw)];
      [contradiction|].
    assert (S2 : trimStart (rev (trimStart s)) <> []).
    { apply TS. exists d. split; [|exact Hdw].
      rewrite <- in_rev, E1. now left. }
    apply S2. apply (f_equal (@rev N)) in E. now rewrite rev_involutive in E.
Qed.


Lemma slice_last_suffix {A} (n : N) (a : list A) :
  exists older, a = older ++ slice_last n a.
Proof.
  exists (firstn (length a - N.to_nat n) a).
  unfold slice_last. now rewrite firstn_skipn.
Qed.

Lemma slice_last_length {A} (n : N) (a : list A) :
  length (slice_last n a) = Nat.min (N.to_nat n) (length a).
Proof. unfold slice_last. rewrite length_skipn. lia. Qed.

Lemma slice_to_prefix {A} (n : N) (s : list A) :
  exists rest, s = slice_to n s ++ rest.
Proof.
  exists (skipn (N.to_nat n) s). unfold slice_to. now rewrite firstn_skipn.
Qed.

Lemma slice_to_length {A} (n : N) (s : list A) :
  length (slice_to n s) = Nat.min (N.to_nat n) (length s).
Proof. unfold slice_to. apply length_firstn. Qed.

End JSFacts.

(* ================================================================== *)
(** ** Properties of the matcher *)
(* ================================================================== *)

Module RegexFacts.
Import Regex.
Unset Implicit Arguments.

(** A continuation that only ever answers with a position at or after
    the one it is given. *)
Definition forward (k : pos -> caps -> result) : Prop :=
  forall x c e c', k x c = Some (e, c') ->
                   length (after e) <= length (after x).

(** Two continuations that agree from a position on. *)
Definition agree_from (x : pos) (k1 k2 : pos -> caps -> result) : Prop :=
  forall x' c', length (after x') <= length (after x) -> k1 x' c' = k2 x' c'.

Lemma orelse_some (a : result) (b : unit -> result) (v : pos * caps) :
  orelse a b = Some v -> a = Some v \/ b tt = Some v.
Proof. destruct a; simpl; auto. Qed.

Section Body.
Variable body : pos -> caps -> (pos -> caps -> result) -> result.

Hypothesis body_forward :
  forall x c k, forward k ->
  forall e c', body x c k = Some (e, c') ->
               length (after e) <= length (after x).

Hypothesis body_ext :
  forall x c k1 k2, agree_from x k1 k2 -> body x c k1 = body x c k2.

Hypothesis body_none : forall x c, body x c (fun _ _ => None) = None.

Lemma star_loop_forward (greedy : bool) (k : pos -> caps -> result) :
  forward k -> forall n, forward (fun x c => star_loop body greedy k n x c).
Proof.
  intros Fk n. induction n as [|n IH]; intros x c e c' H.
  - simpl in H. destruct greedy; simpl in H.
    + now apply Fk in H.
    + apply orelse_some in H. destruct H as [H|H]; [|discriminate].
      now apply Fk in H.
  - simpl in H.
    assert (I : body x c (fun x' c' =>
                  if length (after x') <? length (after x)
                  then star_loop body greedy k n x' c' else None)
                = Some (e, c') -> length (after e) <= length (after x)).
    { apply body_forward. intros x' d e' d' H'.
      destruct (length (after x') <? length (after x)); [|discriminate].
      now apply IH in H'. }
    destruct greedy; apply orelse_some in H; destruct H as [H|H]; auto;
      now apply Fk in H.
Qed.

Lemma star_loop_ext (greedy : bool) (k1 k2 : pos -> caps -> result)
  (n : nat) :
  forall x c, agree_from x k1 k2 ->
              star_loop body greedy k1 n x c = star_loop body greedy k2 n x c.
Proof.
  induction n as [|n IH]; intros x c A; simpl.
  - now rewrite (A x c (le_n _)).
  - rewrite (A x c (le_n _)).
    rewrite (body_ext x c
               (fun x' c' => if length (after x') <? length (after x)
                             then star_loop body greedy k1 n x' c' else None)
               (fun x' c' => if length (after x') <? length (after x)
                             then star_loop body greedy k2 n x' c' else None));
      [reflexivity|].
    intros x' c' L.
    destruct (length (after x') <? length (after x)); [|reflexivity].
    apply IH. intros y d Ly. apply A. lia.
Qed.

Lemma star_loop_none (greedy : bool) (n : nat) :
  forall x c, star_loop body greedy (fun _ _ => None) n x c = None.
Proof.
  induction n as [|n IH]; intros x c; simpl.
  - now destruct greedy.
  - rewrite (body_ext x c _ (fun _ _ => None)).
    + rewrite body_none. now destruct greedy.
    + intros x' c' _.
      destruct (length (after x') <? length (after x)); [apply IH|reflexivity].
Qed.

(** The bound of a repetition is never used up: any two bounds that
    cover the code units left give the same result. *)
Lemma star_loop_bound (greedy : bool) (k : pos -> caps -> result) (n : nat) :
  forall n' x c,
    length (after x) <= n -> length (after x) <= n' ->
    star_loop body greedy k n x c = star_loop body greedy k n' x c.
Proof.
  induction n as [|n IH]; intros n' x c L L'.
  - assert (E : body x c (fun x' c' =>
                  if length (after x') <? length (after x)
                  then star_loop body greedy k (Nat.pred n') x' c' else None)
                = None).
    { rewrite (body_ext x c _ (fun _ _ => None)); [apply body_none|].
      intros x' c' _. replace (length (after x)) with 0 by lia.
      reflexivity. }
    destruct n' as [|n']; [reflexivity|]. simpl. simpl in E. now rewrite E.
  - destruct n' as [|n'].
    + assert (E : body x c (fun x' c' =>
                    if length (after x') <? length (after x)
                    then star_loop body greedy k n x' c' else None)
                  = None).
      { rewrite (body_ext x c _ (fun _ _ => None)); [apply body_none|].
        intros x' c' _. replace (length (after x)) with 0 by lia.
        reflexivity. }
      simpl. now rewrite E.
    + simpl.
      rewrite (body_ext x c
                 (fun x' c' => if length (after x') <? length (after x)
                               then star_loop body greedy k n x' c' else None)
                 (fun x' c' => if length (after x') <? length (after x)
                               then star_loop body greedy k n' x' c' else None));
        [reflexivity|].
      intros x' c' _.
      destruct (Nat.ltb_spec (length (after x')) (length (after x)));
        [|reflexivity].
      apply IH; lia.
Qed.

End Body.

(** The matcher only moves forward. *)
Lemma m_forward (r : re) :
  forall x c k, forward k ->
  forall e c', m r x c k = Some (e, c') ->
               length (after e) <= length (after x).
Proof.
  induction r as [|p| | | |r1 IH1 r2 IH2|r1 IH1 r2 IH2|g r IH|i r IH];
    intros x c k Fk e c' H; simpl in H.
  - now apply Fk in H.
  - destruct (after x) as [|ch rest] eqn:E; [discriminate|].
    destruct (p ch); [|discriminate]. apply Fk in H. simpl in *. lia.
  - destruct (before x) as [|ch ?]; [now apply Fk in H|].
    destruct (is_line_terminator ch); [now apply Fk in H|discriminate].
  - destruct (after x) as [|ch ?] eqn:E; [apply Fk in H; now rewrite E in H|].
    destruct (is_line_terminator ch); [|discriminate].
    apply Fk in H. now rewrite E in H.
  - destruct (xorb _ _); [now apply Fk in H|discriminate].
  - apply (IH1 x c _) in H; [exact H|].
    intros x' d e' d' H'. now apply (IH2 x' d k Fk) in H'.
  - apply orelse_some in H. destruct H as [H|H]; eauto.
  - exact (star_loop_forward (m r) IH g k Fk (length (after x)) x c e c' H).
  - apply (IH x c _) in H; [exact H|].
    intros x' d e' d' H'. now apply Fk in H'.
Qed.

(** Its result depends on the continuation only from the position on. *)
Lemma m_ext (r : re) :
  forall x c k1 k2, agree_from x k1 k2 -> m r x c k1 = m r x c k2.
Proof.
  induction r as [|p| | | |r1 IH1 r2 IH2|r1 IH1 r2 IH2|g r IH|i r IH];
    intros x c k1 k2 A; simpl.
  - apply A, le_n.
  - destruct (after x) as [|ch rest] eqn:E; [reflexivity|].
    destruct (p ch); [|reflexivity]. apply A. simpl. rewrite E. simpl. lia.
  - destruct (before x) as [|ch ?]; [apply A, le_n|].
    destruct (is_line_terminator ch); [apply A, le_n|reflexivity].
  - destruct (after x) as [|ch ?] eqn:E; [apply A; now rewrite E|].
    destruct (is_line_terminator ch); [|reflexivity]. apply A. now rewrite E.
  - destruct (xorb _ _); [apply A, le_n|reflexivity].
  - apply IH1. intros x' c' L. apply IH2. intros y d Ly. apply A. lia.
  - now rewrite (IH1 x c k1 k2 A), (IH2 x c k1 k2 A).
  - apply star_loop_ext; [exact IH | exact A].
  - apply IH. intros x' c' L. now apply A.
Qed.

Lemma m_none (r : re) : forall x c, m r x c (fun _ _ => None) = None.
Proof.
  induction r as [|p| | | |r1 IH1 r2 IH2|r1 IH1 r2 IH2|g r IH|i r IH];
    intros x c; simpl; try reflexivity.
  - destruct (after x) as [|ch rest]; [reflexivity|]. now destruct (p ch).
  - destruct (before x) as [|ch ?]; [reflexivity|].
    now destruct (is_line_terminator ch).
  - destruct (after x) as [|ch ?]; [reflexivity|].
    now destruct (is_line_terminator ch).
  - now destruct (xorb _ _).
  - rewrite (m_ext r1 x c _ (fun _ _ => None)); [apply IH1|].
    intros x' c' _. apply IH2.
  - now rewrite IH1, IH2.
  - apply star_loop_none; [apply m_ext | exact IH].
  - apply IH.
Qed.

(** A repetition computes the same with any bound that covers the code
    units left: the one [m] uses is enough. *)
Lemma star_bound (r : re) (greedy : bool) (k : pos -> caps -> result)
  (n : nat) (x : pos) (c : caps) :
  length (after x) <= n ->
  m (Star greedy r) x c k = star_loop (m r) greedy k n x c.
Proof.
  intros L. simpl.
  apply star_loop_bound; [apply m_ext | apply m_none | lia | exact L].
Qed.

Lemma exec_at_forward (r : re) (x e : pos) (c : caps) :
  exec_at r x = Some (e, c) -> length (after e) <= length (after x).
Proof.
  apply m_forward. intros x' d e' d' [= <- _]. lia.
Qed.

Lemma search_forward (r : re) (a b : jsstr) (s e : pos) (c : caps) :
  search r b a = Some (s, e, c) ->
  length (after e) <= length (after s) /\ length (after s) <= length a.
Proof.
  revert b. induction a as [|ch a IH]; intros b H; simpl in H.
  - destruct (exec_at r {| before := b; after := [] |}) as [[e' c']|] eqn:E;
      [|discriminate].
    injection H as <- <- <-. apply exec_at_forward in E. simpl in *. lia.
  - destruct (exec_at r {| before := b; after := ch :: a |}) as [[e' c']|] eqn:E.
    + injection H as <- <- <-. apply exec_at_forward in E. simpl in *. lia.
    + apply IH in H. simpl. lia.
Qed.

Lemma resume_forward (s e x' : pos) (skipped : jsstr) :
  length (after e) <= length (after s) ->
  resume s e = (skipped, Some x') ->
  length (after x') < length (after s).
Proof.
  unfold resume. intros L.
  destruct (Nat.ltb_spec (length (after e)) (length (after s))) as [Lt|Ge].
  - intros [= _ <-]. exact Lt.
  - destruct (after e) as [|ch rest] eqn:E; [discriminate|].
    intros [= _ <-]. simpl in *. lia.
Qed.

(** [replace] never uses up its rounds: more of them change nothing. *)
Lemma replace_from_rounds (r : re) (tpl : list piece) (n : nat) :
  forall n' x,
    length (after x) < n -> length (after x) < n' ->
    replace_from r tpl n x = replace_from r tpl n' x.
Proof.
  induction n as [|n IH]; intros n' x L L'; [lia|].
  destruct n' as [|n']; [lia|]. simpl.
  destruct (search r (before x) (after x)) as [[[s e] c]|] eqn:S;
    [|reflexivity].
  apply search_forward in S. destruct S as [S1 S2].
  destruct (resume s e) as [skipped [x'|]] eqn:R; [|reflexivity].
  apply (resume_forward s e x' skipped S1) in R.
  rewrite (IH n' x') by lia. reflexivity.
Qed.

Lemma match_from_rounds (r : re) (n : nat) :
  forall n' x,
    length (after x) < n -> length (after x) < n' ->
    match_from r n x = match_from r n' x.
Proof.
  induction n as [|n IH]; intros n' x L L'; [lia|].
  destruct n' as [|n']; [lia|]. simpl.
  destruct (search r (before x) (after x)) as [[[s e] c]|] eqn:S;
    [|reflexivity].
  apply search_forward in S. destruct S as [S1 S2].
  destruct (resume s e) as [skipped [x'|]] eqn:R; [|reflexivity].
  apply (resume_forward s e x' skipped S1) in R.
  rewrite (IH n' x') by lia. reflexivity.
Qed.

End RegexFacts.

Set Implicit Arguments.

(* ================================================================== *)
(** ** Upload validation and statistics *)
(* ================================================================== *)

Module PdfFacts.
Import Types Host PdfService Spec JSFacts.

(** C10. For a file declared as application/pdf, [validatePDFFile]
    rejects it, with the too-large message, exactly when its size is
    strictly above 15 * 1024 * 1024 bytes; a file of exactly that size
    passes. *)
Theorem validatePDFFile_size_limit (env : Env) (file : File) :
  file_type file = lit "application/pdf" ->
  (valid (validatePDFFile env file) = false <->
   (15 * 1024 * 1024 < file_size file)%N) /\
  (error (validatePDFFile env file) =
     Some (too_large_message env (file_size file)) <->
   (15 * 1024 * 1024 < file_size file)%N) /\
  (file_size file = (15 * 1024 * 1024)%N ->
   validatePDFFile env file = {| valid := true; error := None |}).
Proof.
  intros Ht. unfold validatePDFFile, pdf_mime, maxSize.
  rewrite Ht, eqb_refl. simpl negb. cbv iota.
  destruct (N.ltb_spec (15 * 1024 * 1024) (file_size file)) as [L|L];
    simpl; repeat split; intros; try congruence; try lia.
Qed.

Lemma validatePDFFile_size_limit_witness :
  file_type (Samples.pdf_file (15 * 1024 * 1024)) = lit "application/pdf" /\
  validatePDFFile (Samples.env_with Samples.hello3)
    (Samples.pdf_file (15 * 1024 * 1024)) = {| valid := true; error := None |}.
Proof.
  split; [reflexivity|].
  apply (validatePDFFile_size_limit (Samples.env_with Samples.hello3)
           (Samples.pdf_file (15 * 1024 * 1024)) eq_refl).
  reflexivity.
Defined.




End PdfFacts.

(* ================================================================== *)
(** ** Text extraction *)
(* ================================================================== *)

Module ExtractFacts.
Import Types Host PdfService Spec JSFacts.

Lemma process_page_contribution (pdf : PDFDocument) (n : nat)
  (textPages : list jsstr) :
  process_page pdf n textPages =
  textPages ++ List.map (fun p => block p ++ nl) (contribution pdf n).
Proof.
  unfold process_page, contribution, page_content, block.
  destruct (getPage pdf n) as [|items]; simpl.
  - now rewrite <- !app_assoc.
  - destruct (truthy (pageText items)); simpl.
    + now rewrite <- !app_assoc.
    + now rewrite app_nil_r.
Qed.

(** The loop appends the blocks of the pages it visits, in order. *)
Lemma page_loop_blocks (pdf : PDFDocument) (remaining pageNum : nat)
  (textPages : list jsstr) :
  page_loop pdf remaining pageNum textPages =
  textPages ++
  List.map (fun p => block p ++ nl)
    (flat_map (contribution pdf) (seq pageNum remaining)).
Proof.
  revert pageNum textPages.
  induction remaining as [|r IH]; intros pageNum textPages; simpl.
  - now rewrite app_nil_r.
  - rewrite IH, process_page_contribution, map_app, app_assoc.
    reflexivity.
Qed.

Lemma join_blocks (l : list (nat * jsstr)) :
  l <> [] ->
  join nl (List.map (fun p => block p ++ nl) l) =
  join (nl ++ nl) (List.map block l) ++ nl.
Proof.
  induction l as [|p [|q l] IH]; intros H; [congruence|reflexivity|].
  change (join nl (List.map (fun p => block p ++ nl) (p :: q :: l)))
    with ((block p ++ nl) ++ nl ++
          join nl (List.map (fun p => block p ++ nl) (q :: l))).
  change (join (nl ++ nl) (List.map block (p :: q :: l)))
    with (block p ++ (nl ++ nl) ++ join (nl ++ nl) (List.map block (q :: l))).
  rewrite IH by discriminate. now rewrite <- !app_assoc.
Qed.

Lemma page_content_solid (pdf : PDFDocument) (n : nat) (t : jsstr) :
  page_content pdf n = Some t -> solid t.
Proof.
  unfold page_content.
  destruct (getPage pdf n) as [|items].
  - intros [= <-].
    exists (lit "[Error extracting text from this page"), 93%N.
    split; reflexivity.
  - destruct (truthy (pageText items)) eqn:T; [|discriminate].
    intros [= <-]. apply truthy_nonempty in T.
    destruct (trim_last (normalize_whitespace
                           (join (lit " ") (List.map item_str items))))
      as [E | (r & c & E & Hc)].
    + contradiction.
    + now exists r, c.
Qed.

Lemma printed_content (pdf : PDFDocument) (n : nat) (t : jsstr) :
  In (n, t) (printed pdf) <->
  1 <= n <= numPages pdf /\ page_content pdf n = Some t.
Proof.
  unfold printed. rewrite in_flat_map. split.
  - intros (k & Hk & Hin). apply in_seq in Hk. unfold contribution in Hin.
    destruct (page_content pdf k) eqn:E; simpl in Hin; [|contradiction].
    destruct Hin as [[= <- <-]|[]]. split; [lia|exact E].
  - intros (Hn & E). exists n. split; [apply in_seq; lia|].
    unfold contribution. rewrite E. now left.
Qed.

(** The page numbers of the blocks: those of the pages with content, in
    increasing order. *)
Lemma printed_pages (pdf : PDFDocument) :
  List.map fst (printed pdf) =
  filter (fun n => match page_content pdf n with
                   | Some _ => true
                   | None => false
                   end) (seq 1 (numPages pdf)).
Proof.
  unfold printed. induction (seq 1 (numPages pdf)) as [|k l IH]; simpl;
    [reflexivity|].
  rewrite map_app, IH. unfold contribution.
  now destruct (page_content pdf k).
Qed.

(** The blocks, joined by blank lines, start with a dash and end with a
    code unit other than white space. *)
Lemma joined_blocks_shape (l : list (nat * jsstr)) :
  l <> [] -> (forall p, In p l -> solid (snd p)) ->
  exists mid z,
    join (nl ++ nl) (List.map block l) = 45%N :: mid ++ [z] /\
    is_ws z = false.
Proof.
  induction l as [|p [|q l] IH]; intros H G; [congruence| |].
  - destruct (G p (or_introl eq_refl)) as (t' & z & E & Hz).
    exists (skipn 1 (marker (fst p)) ++ nl ++ t'), z. split; [|exact Hz].
    simpl. unfold block. rewrite E.
    unfold marker. simpl. now rewrite <- !app_assoc.
  - destruct IH as (mid & z & E & Hz);
      [discriminate | intros r Hr; apply G; now right |].
    change (join (nl ++ nl) (List.map block (p :: q :: l)))
      with (block p ++ (nl ++ nl) ++ join (nl ++ nl) (List.map block (q :: l))).
    rewrite E.
    exists (skipn 1 (block p) ++ (nl ++ nl) ++ 45%N :: mid), z.
    split; [|exact Hz].
    unfold block, marker. simpl. now rewrite <- !app_assoc.
Qed.

Lemma joined_blocks_length (l : list (nat * jsstr)) :
  l <> [] -> 14 <= length (join (nl ++ nl) (List.map block l)).
Proof.
  destruct l as [|p [|q l]]; intros H; [congruence| |].
  - simpl. unfold block, marker. rewrite !length_app. simpl. lia.
  - change (join (nl ++ nl) (List.map block (p :: q :: l)))
      with (block p ++ (nl ++ nl) ++ join (nl ++ nl) (List.map block (q :: l))).
    unfold block, marker. rewrite !length_app. simpl. lia.
Qed.

(** The closed form of the text the page loop, [join] and [trim]
    produce. *)
Lemma fullText_blocks (pdf : PDFDocument) :
  fullText pdf = join (nl ++ nl) (List.map block (printed pdf)).
Proof.
  unfold fullText. rewrite page_loop_blocks, app_nil_l.
  fold (printed pdf).
  destruct (printed pdf) as [|p l] eqn:E; [reflexivity|].
  rewrite join_blocks by discriminate.
  destruct (joined_blocks_shape (l := p :: l)) as (mid & z & S & Hz);
    [discriminate | |].
  - intros [n t] Hin. rewrite <- E in Hin.
    apply printed_content in Hin. apply (page_content_solid pdf n), Hin.
  - rewrite S. now apply trim_drops_final_nl.
Qed.

Lemma extractable_printed (pdf : PDFDocument) :
  1 <= extractable pdf -> printed pdf <> [].
Proof.
  unfold extractable, printed, contribution, page_content.
  induction (seq 1 (numPages pdf)) as [|k l IH]; simpl; [lia|].
  destruct (getPage pdf k) as [|items]; [discriminate|].
  destruct (pageText items) as [|c t]; simpl; [exact IH | discriminate].
Qed.

(** A text of fewer than 10 code units is what a document without any
    contributing page yields. *)
Lemma short_text_no_blocks (pdf : PDFDocument) :
  length (fullText pdf) < 10 <-> printed pdf = [].
Proof.
  rewrite fullText_blocks. split.
  - intros L. destruct (printed pdf) as [|p l] eqn:E; [reflexivity|].
    pose proof (joined_blocks_length (l := p :: l) ltac:(discriminate)).
    lia.
  - intros ->. simpl. lia.
Qed.

(** C3, as amended. From a PDF with at least 10 code units of
    extractable text, [extractTextFromPDF] returns the page count and a
    text made of one block [--- Page N ---], line break, content for
    every page N of 1..pageCount whose normalised text is not empty or
    whose extraction threw, and for no other page; the blocks stand in
    page order, separated by blank lines, and the text is trimmed. When
    every page has content the markers run from 1 to pageCount without a
    gap. *)
Theorem extractTextFromPDF_page_blocks (env : Env) (file : File)
  (pdf : PDFDocument) :
  getDocument env (file_data file) = Loaded pdf ->
  10 <= extractable pdf ->
  exists r,
    extractTextFromPDF env file = Ok r /\
    result_pageCount r = numPages pdf /\
    text r = join (nl ++ nl) (List.map block (printed pdf)) /\
    trim (text r) = text r /\
    List.map fst (printed pdf) =
      filter (fun n => match page_content pdf n with
                       | Some _ => true
                       | None => false
                       end) (seq 1 (numPages pdf)) /\
    (forall n t, In (n, t) (printed pdf) <->
                 1 <= n <= numPages pdf /\ page_content pdf n = Some t) /\
    ((forall n, 1 <= n <= numPages pdf -> page_content pdf n <> None) ->
     List.map fst (printed pdf) = seq 1 (numPages pdf)).
Proof.
  intros Hdoc Hx.
  assert (NE : printed pdf <> []) by (apply extractable_printed; lia).
  assert (Solid : forall p, In p (printed pdf) -> solid (snd p)).
  { intros [n t] Hin. apply printed_content in Hin.
    apply (page_content_solid pdf n), Hin. }
  destruct (joined_blocks_shape NE Solid) as (mid & z & S & Hz).
  pose proof (joined_blocks_length NE) as Len.
  unfold extractTextFromPDF, extract_body. rewrite Hdoc.
  rewrite fullText_blocks.
  replace (negb (truthy (join (nl ++ nl) (List.map block (printed pdf))))
           || (length (join (nl ++ nl) (List.map block (printed pdf))) <? 10))
    with false.
  2:{ symmetry. apply orb_false_iff. split.
      - rewrite S. reflexivity.
      - apply Nat.ltb_ge. lia. }
  eexists. split; [reflexivity|]. cbn [result_pageCount text].
  split; [reflexivity|]. split; [reflexivity|].
  split; [rewrite S; now apply trim_id|].
  split; [apply printed_pages|].
  split; [apply printed_content|].
  intros All. rewrite printed_pages. apply forallb_filter_id.
  apply forallb_forall. intros n Hn. apply in_seq in Hn.
  specialize (All n ltac:(lia)).
  now destruct (page_content pdf n).
Qed.

Lemma extractTextFromPDF_page_blocks_witness :
  exists r,
    extractTextFromPDF (Samples.env_with Samples.hello3)
      (Samples.pdf_file 1024) = Ok r /\
    List.map fst (printed Samples.hello3) = [1; 2; 3].
Proof.
  destruct (extractTextFromPDF_page_blocks
              (Samples.env_with Samples.hello3) (Samples.pdf_file 1024)
              (pdf := Samples.hello3) eq_refl)
    as (r & E & _ & _ & _ & _ & _ & All).
  - apply Nat.leb_le. vm_compute. reflexivity.
  - exists r. split; [exact E|]. apply All.
    intros n Hn. unfold page_content. simpl. discriminate.
Defined.

(** C3 as stated fails: a page without text gets no marker, although the
    document has more than 10 code units of extractable text. *)
Lemma page_without_text_has_no_marker :
  10 <= extractable Samples.gap3 /\
  exists r,
    extractTextFromPDF (Samples.env_with Samples.gap3)
      (Samples.pdf_file 1024) = Ok r /\
    result_pageCount r = 3 /\
    includes (marker 2) (text r) = false /\
    text r = lit "--- Page 1 ---" ++ nl ++ lit "Hello world" ++ nl ++ nl ++
             lit "--- Page 3 ---" ++ nl ++ lit "Hello world".
Proof.
  split; [apply Nat.leb_le; vm_compute; reflexivity|].
  eexists. split; [vm_compute; reflexivity|].
  repeat split; vm_compute; reflexivity.
Qed.

(** Without the [catch] block: a document that loads is refused when
    its text, markers included, has fewer than 10 code units. *)
Lemma extractTextFromPDF_loaded (env : Env) (file : File)
  (pdf : PDFDocument) :
  getDocument env (file_data file) = Loaded pdf ->
  extractTextFromPDF env file =
  if length (fullText pdf) <? 10 then Throw (ErrorObj EmptyOrImageOnly)
  else Ok {| text := fullText pdf;
             result_pageCount := numPages pdf;
             result_metadata :=
               match getMetadata pdf with
               | MetadataInfo info => read_metadata file info
               | MetadataThrows => no_metadata
               end |}.
Proof.
  intros Hdoc. unfold extractTextFromPDF, extract_body. rewrite Hdoc.
  cbv zeta. destruct (fullText pdf) as [|c t]; [reflexivity|].
  cbn [truthy negb orb].
  now destruct (length (c :: t) <? 10).
Qed.

(** The pages of [l] contribute nothing exactly when each of them is
    read and none has any text. *)
Lemma no_contribution (pdf : PDFDocument) (l : list nat) :
  flat_map (contribution pdf) l = [] <->
  list_sum (List.map (fun n => match getPage pdf n with
                               | PageItems items => length (pageText items)
                               | PageThrows => 0
                               end) l) = 0 /\
  forall n, In n l -> getPage pdf n <> PageThrows.
Proof.
  induction l as [|k l IH].
  - simpl. split; [|reflexivity].
    intros _. split; [reflexivity | intros n []].
  - cbn [flat_map List.map list_sum].
    unfold contribution at 1. unfold page_content.
    destruct (getPage pdf k) as [|items] eqn:G.
    + split; [discriminate|]. intros (_ & H).
      exfalso. apply (H k); [now left | exact G].
    + destruct (pageText items) as [|c t] eqn:T.
      * cbn [truthy app length Nat.add]. rewrite IH.
        split; intros (S & H); (split; [exact S|]).
        -- intros n [<-|Hn]; [congruence | now apply H].
        -- intros n Hn. apply H. now right.
      * cbn [truthy app length]. split; [discriminate|].
        intros (S & _). simpl in S. discriminate S.
Qed.

Lemma no_blocks_no_text (pdf : PDFDocument) :
  printed pdf = [] <->
  extractable pdf = 0 /\
  forall n, 1 <= n <= numPages pdf -> getPage pdf n <> PageThrows.
Proof.
  unfold printed, extractable. rewrite no_contribution.
  split; intros (S & H); (split; [exact S|]); intros n Hn; apply H.
  - apply in_seq. lia.
  - apply in_seq in Hn. lia.
Qed.

(** C6, as amended. A document that loads is refused with the error of
    class EmptyOrImageOnly exactly when it has no text at all: every
    page is read and the normalised text of every page is empty. The
    test of the code is on the text with its page markers, fewer than 10
    code units, and one block has more than that; so a document with 1
    to 9 code units of text is returned, and so is one with a page that
    could not be read. No other error comes from a document that
    loads. *)
Theorem extractTextFromPDF_fails_without_any_text (env : Env) (file : File)
  (pdf : PDFDocument) :
  getDocument env (file_data file) = Loaded pdf ->
  (extractTextFromPDF env file = Throw (ErrorObj EmptyOrImageOnly) <->
   extractable pdf = 0 /\
   forall n, 1 <= n <= numPages pdf -> getPage pdf n <> PageThrows) /\
  (extractTextFromPDF env file = Throw (ErrorObj EmptyOrImageOnly) <->
   length (fullText pdf) < 10) /\
  (forall t, extractTextFromPDF env file = Throw t ->
             t = ErrorObj EmptyOrImageOnly) /\
  (forall r, extractTextFromPDF env file = Ok r ->
             text r = fullText pdf /\ 10 <= length (text r)) /\
  (1 <= extractable pdf ->
   exists r, extractTextFromPDF env file = Ok r).
Proof.
  intros Hdoc. rewrite (extractTextFromPDF_loaded env file Hdoc).
  rewrite <- no_blocks_no_text, <- short_text_no_blocks.
  destruct (length (fullText pdf) <? 10) eqn:L.
  - apply Nat.ltb_lt in L.
    split; [tauto|]. split; [tauto|].
    split; [now intros t [= <-]|]. split; [discriminate|].
    intros X. apply extractable_printed in X.
    apply short_text_no_blocks in L. contradiction.
  - apply Nat.ltb_ge in L.
    split; [split; [discriminate | lia]|].
    split; [split; [discriminate | lia]|].
    split; [discriminate|]. split.
    + intros r [= <-]. cbn [text]. split; [reflexivity | exact L].
    + intros _. eexists. reflexivity.
Qed.

Lemma extractTextFromPDF_fails_without_any_text_witness :
  extractTextFromPDF (Samples.env_with Samples.scan1) (Samples.pdf_file 1024)
  = Throw (ErrorObj EmptyOrImageOnly).
Proof.
  destruct (extractTextFromPDF_fails_without_any_text
              (Samples.env_with Samples.scan1) (Samples.pdf_file 1024)
              (pdf := Samples.scan1) eq_refl) as ((_ & Refused) & _).
  apply Refused.
  split; [reflexivity|]. intros n _. simpl. discriminate.
Defined.

(** C6 as stated fails: a document whose only text is [Hi] has 2 code
    units of text, fewer than 10, and is returned all the same, since
    the page marker counts toward the 10 code units. *)
Lemma short_text_is_returned :
  extractable Samples.hi1 = 2 /\
  exists r,
    extractTextFromPDF (Samples.env_with Samples.hi1)
      (Samples.pdf_file 1024) = Ok r /\
    text r = lit "--- Page 1 ---" ++ nl ++ lit "Hi" /\
    length (text r) = 17.
Proof.
  split; [reflexivity|].
  eexists. split; [vm_compute; reflexivity|].
  split; vm_compute; reflexivity.
Qed.

End ExtractFacts.

(* ================================================================== *)
(** ** Uploading a file *)
(* ================================================================== *)

Module UploadFacts.
Import Types Host PdfService Chat Spec JSFacts.

Lemma classify_is_error (t : Thrown) : exists message, classify t = ErrorObj message.
Proof.
  destruct t as [m|]; simpl; [|eauto].
  destruct (includes (lit "Invalid PDF") m); [eauto|].
  destruct (includes (lit "password") m); [eauto|].
  destruct (includes (lit "empty") m); eauto.
Qed.

(** A failed validation is thrown with its message, before any
    extraction. *)
Lemma processPDFFile_validation_failure (env : Env) (file : File)
  (b : Browser) (message : jsstr) :
  validatePDFFile env file =
    {| valid := false; PdfService.error := Some message |} ->
  processPDFFile env file b = (Throw (ErrorObj message), b).
Proof. intros E. unfold processPDFFile. now rewrite E. Qed.

(** A failed extraction is thrown on as it is. *)
Lemma processPDFFile_extraction_failure (env : Env) (file : File)
  (b : Browser) (t : Thrown) :
  valid (validatePDFFile env file) = true ->
  extractTextFromPDF env file = Throw t ->
  processPDFFile env file b = (Throw t, b).
Proof. intros V E. unfold processPDFFile. now rewrite V, E. Qed.

(** A failure of [processPDFFile] carries an error object, does not
    depend on the browser state and leaves it as it was. *)
Lemma processPDFFile_failure (env : Env) (file : File) (b : Browser)
  (t : Thrown) :
  fst (processPDFFile env file b) = Throw t ->
  (exists message, t = ErrorObj message) /\
  forall b', processPDFFile env file b' = (Throw t, b').
Proof.
  unfold processPDFFile.
  destruct (valid (validatePDFFile env file)); simpl.
  - unfold extractTextFromPDF.
    destruct (extract_body env file) as [r|t0]; simpl; [discriminate|].
    intros [= <-]. split; [|reflexivity].
    destruct (classify_is_error t0) as (m & ->). eauto.
  - intros [= <-]. split; [eauto | reflexivity].
Qed.

(** No attachment that [processPDFFile] builds has a page count in its
    metadata, so [getPDFStats] reports 0 pages for it. *)
Lemma uploaded_attachment_reports_no_pages (env : Env) (file : File)
  (b b' : Browser) (a : Attachment) :
  processPDFFile env file b = (Ok a, b') ->
  pages (getPDFStats a) = 0%N.
Proof.
  unfold processPDFFile.
  destruct (valid (validatePDFFile env file)); simpl; [|discriminate].
  unfold extractTextFromPDF, extract_body.
  destruct (getDocument env (file_data file)) as [t|pdf]; [discriminate|].
  destruct (negb (truthy (fullText pdf)) || (length (fullText pdf) <? 10));
    [discriminate|].
  intros [= <- _]. unfold getPDFStats. cbn [pages metadata result_metadata].
  now destruct (getMetadata pdf).
Qed.

(** C7. When an upload fails, at whichever step of [processPDFFile], the
    component ends in the error state with the message that was thrown,
    and the attachment it held is still there, not revoked; no message
    is appended. *)
Theorem failed_upload_keeps_attachment (env : Env) (file : File)
  (s : State) (b : Browser) (t : Thrown) :
  fst (processPDFFile env file b) = Throw t ->
  exists message,
    t = ErrorObj message /\
    orchestrator (fst (handleFileUpload env file (s, b))) = Error message /\
    Chat.error (fst (handleFileUpload env file (s, b))) = Some message /\
    attachment (fst (handleFileUpload env file (s, b))) = attachment s /\
    revoked (snd (handleFileUpload env file (s, b))) = revoked b /\
    messages (fst (handleFileUpload env file (s, b))) = messages s.
Proof.
  intros F. apply processPDFFile_failure in F.
  destruct F as ((message & ->) & F).
  exists message. split; [reflexivity|].
  unfold handleFileUpload. rewrite F. simpl. repeat split; reflexivity.
Qed.

Lemma failed_upload_keeps_attachment_witness :
  let after := handleFileUpload (Samples.env_with Samples.hello3)
                 Samples.text_file
                 (Samples.idle (Some Samples.old_attachment),
                  Samples.fresh_browser) in
  orchestrator (fst after) = Error (lit "Please select a PDF file") /\
  attachment (fst after) = Some Samples.old_attachment /\
  revoked (snd after) = [].
Proof.
  destruct (failed_upload_keeps_attachment
              (Samples.env_with Samples.hello3) Samples.text_file
              (Samples.idle (Some Samples.old_attachment))
              Samples.fresh_browser
              (t := ErrorObj (lit "Please select a PDF file")) eq_refl)
    as (message & E & O & _ & A & R & _).
  injection E as <-. cbv zeta. repeat split; assumption.
Defined.

(** C2 at a three-page PDF with [Hello world] on every page: the
    extracted text has three page markers and three times the phrase,
    and the analysis message reports 0 pages, not 3. *)
Theorem scenario_A_reports_zero_pages :
  let after := handleFileUpload (Samples.env_with Samples.hello3)
                 (Samples.pdf_file 1024)
                 (Samples.idle None, Samples.fresh_browser) in
  exists a m,
    attachment (fst after) = Some a /\
    messages (fst after) = [m] /\
    extractedText a =
      Some (lit "--- Page 1 ---" ++ nl ++ lit "Hello world" ++ nl ++ nl ++
            lit "--- Page 2 ---" ++ nl ++ lit "Hello world" ++ nl ++ nl ++
            lit "--- Page 3 ---" ++ nl ++ lit "Hello world") /\
    occurrences (lit "--- Page ") (or_string (extractedText a) []) = 3 /\
    occurrences (lit "Hello world") (or_string (extractedText a) []) = 3 /\
    pages (getPDFStats a) = 0%N /\
    includes (lit "**Pages**: 0" ++ nl) (msg_content m) = true /\
    includes (lit "Pages**: 3") (msg_content m) = false.
Proof.
  cbv zeta. eexists. eexists.
  split; [vm_compute; reflexivity|].
  split; [vm_compute; reflexivity|].
  repeat split; vm_compute; reflexivity.
Qed.

End UploadFacts.

(* ================================================================== *)
(** ** Asking the model *)
(* ================================================================== *)

Module GroqFacts.
Import Types GroqService Spec JSFacts.

Lemma fails_accepted (o : ApiOutcome) : fails o = true <-> accepted o = None.
Proof.
  destruct o as [t|c]; simpl; [tauto|].
  destruct (first_content c) as [body|]; [|tauto].
  destruct (truthy body); simpl; split; congruence.
Qed.

Lemma accepted_body (o : ApiOutcome) (body : jsstr) :
  accepted o = Some body <->
  exists c, o = ApiReturns c /\ first_content c = Some body /\ body <> [].
Proof.
  destruct o as [t|c]; simpl.
  - split; [discriminate | intros (c & [=] & _)].
  - destruct (first_content c) as [b|] eqn:E.
    + destruct (truthy b) eqn:T.
      * apply truthy_nonempty in T. split.
        -- intros [= <-]. now exists c.
        -- intros (c' & [= <-] & F & _). congruence.
      * split; [discriminate|].
        intros (c' & [= <-] & F & NE). rewrite E in F.
        injection F as ->. destruct body; [congruence | discriminate].
    + split; [discriminate|]. intros (c' & [= <-] & F & _). congruence.
Qed.

(** One attempt: the request is logged, and the reply is returned
    trimmed when it is accepted. *)
Lemma attempt_run (service : nat -> Request -> ApiOutcome) (req : Request)
  (message : jsstr) (log : Log) :
  (completion <- create service req ;;
   checked (first_content completion) message) log =
  match accepted (service (length log) req) with
  | Some body => (Ok (trim body), log ++ [req])
  | None =>
      (Throw match service (length log) req with
             | ApiThrows t => t
             | ApiReturns _ => ErrorObj message
             end, log ++ [req])
  end.
Proof.
  unfold bind, create, checked, accepted.
  destruct (service (length log) req) as [t|c]; [reflexivity|].
  destruct (first_content c) as [body|]; [|reflexivity].
  now destruct (truthy body).
Qed.

(** The whole of [chatWithContext], by the replies to its two
    requests. *)
Lemma chatWithContext_run (service : nat -> Request -> ApiOutcome)
  (q : jsstr) (history : list GroqMessage) (doc : option jsstr) (log : Log) :
  chatWithContext service q history doc log =
  let p := primary_request q history doc in
  let f := fallback_request q history doc in
  match accepted (service (length log) p) with
  | Some body => (Ok (trim body), log ++ [p])
  | None =>
      match accepted (service (S (length log)) f) with
      | Some body => (Ok (trim body), log ++ [p; f])
      | None => (Throw (ErrorObj ServiceUnavailable), log ++ [p; f])
      end
  end.
Proof.
  cbv zeta. unfold chatWithContext, try_catch.
  rewrite attempt_run.
  destruct (accepted (service (length log) (primary_request q history doc)));
    [reflexivity|].
  rewrite attempt_run.
  replace (length (log ++ [primary_request q history doc]))
    with (S (length log)) by (rewrite length_app; simpl; lia).
  rewrite <- app_assoc. simpl app.
  now destruct (accepted (service (S (length log))
                            (fallback_request q history doc))).
Qed.

(** The user turn, by the document text: framed when the text is
    present and not empty. *)
Lemma userContent_cases (budget : N) (q : jsstr) (doc : option jsstr) :
  userContent budget q doc =
  match doc with
  | Some (c :: d) =>
      lit "Document Context:" ++ nl ++ slice_to budget (c :: d) ++
      nl ++ nl ++ lit "User Question: " ++ q
  | _ => q
  end.
Proof. now destruct doc as [[|c d]|]. Qed.

Lemma primary_messages (q : jsstr) (history : list GroqMessage)
  (doc : option jsstr) :
  messages (primary_request q history doc) =
  system_turn :: slice_last 10 history ++
  [{| role := user; content := userContent 8000 q doc |}].
Proof. unfold primary_request. now destruct history. Qed.

Lemma fallback_messages (q : jsstr) (history : list GroqMessage)
  (doc : option jsstr) :
  messages (fallback_request q history doc) =
  system_turn :: slice_last 8 history ++
  [{| role := user; content := userContent 6000 q doc |}].
Proof. reflexivity. Qed.

(** C1. When the first call throws or returns no or an empty body,
    [chatWithContext] sends exactly one more request, to the fallback
    model. That request holds the system instructions, then the last 8
    history entries (all of them when there are fewer) in their order,
    then one user turn with the first 6000 code units of the document
    text (all of it when it is shorter; the question alone without a
    document). When that call fails too, the result is the error
    ServiceUnavailable, whatever the service threw; when it is accepted,
    its body is returned trimmed. *)
Theorem fallback_after_primary_failure
  (service : nat -> Request -> ApiOutcome) (q : jsstr)
  (history : list GroqMessage) (doc : option jsstr) (log : Log) :
  fails (service (length log) (primary_request q history doc)) = true ->
  let fb := fallback_request q history doc in
  let run := chatWithContext service q history doc log in
  let turn :=
    {| role := user;
       content :=
         match doc with
         | Some (c :: d) =>
             lit "Document Context:" ++ nl ++ slice_to 6000 (c :: d) ++
             nl ++ nl ++ lit "User Question: " ++ q
         | _ => q
         end |} in
  snd run = log ++ [primary_request q history doc; fb] /\
  model fb = FALLBACK_MODEL /\
  messages fb = system_turn :: slice_last 8 history ++ [turn] /\
  (exists older, history = older ++ slice_last 8 history) /\
  length (slice_last 8 history) = Nat.min 8 (length history) /\
  (forall d : jsstr,
     N.of_nat (length (slice_to 6000 d)) =
       N.min 6000 (N.of_nat (length d)) /\
     exists rest, d = slice_to 6000 d ++ rest) /\
  (fails (service (S (length log)) fb) = true ->
   fst run = Throw (ErrorObj ServiceUnavailable)) /\
  (forall body,
     accepted (service (S (length log)) fb) = Some body ->
     fst run = Ok (trim body)).
Proof.
  intros F. cbv zeta. rewrite chatWithContext_run. cbv zeta.
  apply fails_accepted in F. rewrite F.
  split.
  { now destruct (accepted (service (S (length log))
                              (fallback_request q history doc))). }
  split; [reflexivity|].
  split; [now rewrite fallback_messages, userContent_cases|].
  split; [apply slice_last_suffix|].
  split; [rewrite slice_last_length; reflexivity|].
  split.
  { intros d. split; [rewrite slice_to_length; lia | apply slice_to_prefix]. }
  split.
  - intros F2. apply fails_accepted in F2. now rewrite F2.
  - intros body A. now rewrite A.
Qed.

Lemma fallback_after_primary_failure_witness :
  let history :=
    List.map (Samples.turn user)
      ["m0"; "m1"; "m2"; "m3"; "m4"; "m5"; "m6"; "m7"; "m8"]%string in
  chatWithContext Samples.service_down (lit "Q") history (Some (lit "D")) [] =
  (Throw (ErrorObj ServiceUnavailable),
   [primary_request (lit "Q") history (Some (lit "D"));
    fallback_request (lit "Q") history (Some (lit "D"))]) /\
  messages (fallback_request (lit "Q") history (Some (lit "D"))) =
  system_turn :: tl history ++
  [{| role := user;
      content := lit "Document Context:" ++ nl ++ lit "D" ++ nl ++ nl ++
                 lit "User Question: Q" |}].
Proof.
  cbv zeta.
  destruct (fallback_after_primary_failure Samples.service_down
              (lit "Q")
              (List.map (Samples.turn user)
                 ["m0"; "m1"; "m2"; "m3"; "m4"; "m5"; "m6"; "m7";
                  "m8"]%string)
              (Some (lit "D")) [] eq_refl) as (L & _ & M & _ & _ & _ & R & _).
  specialize (R eq_refl). cbv zeta in *.
  split; [|exact M].
  destruct (chatWithContext Samples.service_down (lit "Q") _ _ [])
    as [res log'].
  simpl in L, R. now subst.
Defined.

(** C4, as amended. The first request goes to the default model and
    holds the system instructions, then the last 10 history entries (all
    of them when there are fewer) in their order, then one user turn:
    for a document text that is present and not empty, [Document
    Context:], a line break, the first 8000 code units of the text, two
    line breaks, [User Question: ] with one space, and the question;
    otherwise the question alone. With 11 entries of history these are
    the last 10 and the new user turn. *)
Theorem primary_request_shape
  (service : nat -> Request -> ApiOutcome) (q : jsstr)
  (history : list GroqMessage) (doc : option jsstr) (log : Log) :
  let p := primary_request q history doc in
  let turn :=
    {| role := user;
       content :=
         match doc with
         | Some (c :: d) =>
             lit "Document Context:" ++ nl ++ slice_to 8000 (c :: d) ++
             nl ++ nl ++ lit "User Question: " ++ q
         | _ => q
         end |} in
  (exists later,
     snd (chatWithContext service q history doc log) = log ++ p :: later) /\
  model p = DEFAULT_MODEL /\
  messages p = system_turn :: slice_last 10 history ++ [turn] /\
  (exists older, history = older ++ slice_last 10 history) /\
  length (slice_last 10 history) = Nat.min 10 (length history) /\
  (forall d, (N.of_nat (length (slice_to 8000 d)) <= 8000)%N /\
             exists rest : jsstr, d = slice_to 8000 d ++ rest) /\
  (length history = 11 ->
   messages p = system_turn :: tl history ++ [turn]).
Proof.
  cbv zeta.
  assert (M : messages (primary_request q history doc) =
              system_turn :: slice_last 10 history ++
              [{| role := user;
                  content :=
                    match doc with
                    | Some (c :: d) =>
                        lit "Document Context:" ++ nl ++
                        slice_to 8000 (c :: d) ++
                        nl ++ nl ++ lit "User Question: " ++ q
                    | _ => q
                    end |}]).
  { unfold primary_request, with_generation_params, userContent.
    cbn [messages].
    assert (U : forall k, match doc with
                          | Some d => if truthy d then k d else q
                          | None => q
                          end = match doc with
                                | Some (c :: d) => k (c :: d)
                                | _ => q
                                end).
    { intros k. now destruct doc as [[|c d]|]. }
    rewrite (U (fun d => lit "Document Context:" ++ nl ++ slice_to 8000 d ++
                         nl ++ nl ++ lit "User Question: " ++ q)).
    destruct history as [|m history]; reflexivity. }
  split.
  { rewrite chatWithContext_run. cbv zeta.
    destruct (accepted (service (length log) (primary_request q history doc)));
      [now exists []|].
    destruct (accepted (service (S (length log))
                          (fallback_request q history doc)));
      now exists [fallback_request q history doc]. }
  split; [reflexivity|]. split; [exact M|].
  split; [apply slice_last_suffix|].
  split; [rewrite slice_last_length; reflexivity|].
  split.
  { intros d. split; [rewrite slice_to_length; lia | apply slice_to_prefix]. }
  intros L. rewrite M.
  destruct history as [|m0 rest]; [discriminate|].
  unfold slice_last. simpl length in *. injection L as L. rewrite L.
  reflexivity.
Qed.

Lemma primary_request_shape_witness :
  let history :=
    List.map (Samples.turn user)
      ["m0"; "m1"; "m2"; "m3"; "m4"; "m5"; "m6"; "m7"; "m8"; "m9";
       "m10"]%string in
  messages (primary_request (lit "Q") history None) =
  system_turn :: tl history ++ [{| role := user; content := lit "Q" |}].
Proof.
  cbv zeta.
  apply (primary_request_shape Samples.service_down (lit "Q")
           (List.map (Samples.turn user)
              ["m0"; "m1"; "m2"; "m3"; "m4"; "m5"; "m6"; "m7"; "m8"; "m9";
               "m10"]%string) None []).
  reflexivity.
Defined.

(** C4 as stated fails: the code puts a space, not a line break, after
    [User Question:]. *)
Lemma user_turn_separator_is_a_space :
  let p := primary_request (lit "Q") [] (Some (lit "D")) in
  List.map content (messages p) =
    [aiPrompt;
     lit "Document Context:" ++ nl ++ lit "D" ++ nl ++ nl ++
     lit "User Question: Q"] /\
  List.map content (messages p) <>
    [aiPrompt; user_turn_as_specified 8000 (lit "Q") (lit "D")].
Proof.
  cbv zeta. split; [reflexivity|]. vm_compute. discriminate.
Qed.

(** C5, as amended. A reply counts when its body is present and not
    empty as it arrived, before trimming: the first such reply of the
    two attempts is returned trimmed, and without one the result is the
    error ServiceUnavailable. What is returned is not empty exactly when
    the body holds a code unit other than white space. *)
Theorem reply_validity
  (service : nat -> Request -> ApiOutcome) (q : jsstr)
  (history : list GroqMessage) (doc : option jsstr) (log : Log) :
  let first := service (length log) (primary_request q history doc) in
  let second := service (S (length log)) (fallback_request q history doc) in
  fst (chatWithContext service q history doc log) =
    match accepted first, accepted second with
    | Some body, _ => Ok (trim body)
    | None, Some body => Ok (trim body)
    | None, None => Throw (ErrorObj ServiceUnavailable)
    end /\
  (forall o body,
     accepted o = Some body <->
     exists c, o = ApiReturns c /\ first_content c = Some body /\
               body <> []) /\
  (forall o, accepted o = None <-> fails o = true) /\
  (forall body,
     trim body <> [] <-> exists c, In c body /\ is_ws c = false).
Proof.
  cbv zeta. split.
  { rewrite chatWithContext_run. cbv zeta.
    destruct (accepted (service (length log) (primary_request q history doc)));
      [reflexivity|].
    now destruct (accepted (service (S (length log))
                              (fallback_request q history doc))). }
  split; [apply accepted_body|].
  split; [intros o; symmetry; apply fails_accepted|].
  apply trim_nonempty_iff.
Qed.

(** C5 as stated fails: a reply of one space passes the check and is
    returned as the empty string, without a second attempt. *)
Lemma blank_reply_is_returned_empty :
  chatWithContext Samples.service_blank (lit "Q") [] None [] =
  (Ok [], [primary_request (lit "Q") [] None]).
Proof. reflexivity. Qed.

End GroqFacts.

(* ================================================================== *)
(** ** Rendering markup *)
(* ================================================================== *)

Module MarkdownFacts.
Import Utils.

(** C9 at the text [# Title]: the heading rule produces a heading block,
    and the output is wrapped in a paragraph all the same. *)
Theorem heading_is_wrapped_in_paragraph :
  parseMarkdown (lit "# Title") =
  litq "<p class='mb-4'>" ++
  litq "<h1 class='text-2xl font-serif font-bold mt-8 mb-4 text-vintage-title'>" ++
  lit "Title</h1>" ++ lit "</p>".
Proof. vm_compute. reflexivity. Qed.

(** The same with a paragraph break: both the break and the wrapper are
    in the output. *)
Lemma paragraph_break_is_wrapped :
  parseMarkdown (lit "a" ++ nl ++ nl ++ lit "b") =
  litq "<p class='mb-4'>a</p><p class='mb-4'>b</p>".
Proof. vm_compute. reflexivity. Qed.

(** Plain text gets the wrapper, as rule (9) of section 4.4 has it. *)
Lemma plain_text_is_wrapped :
  parseMarkdown (lit "Title") = litq "<p class='mb-4'>Title</p>".
Proof. vm_compute. reflexivity. Qed.

(** None of the tags the rules emit is among the four the final test
    looks for. *)
Lemma emitted_tags_escape_the_test :
  List.map (fun tag =>
              includes tag
                (litq "<h1 class='text-2xl font-serif font-bold mt-8 mb-4 text-vintage-title'>" ++
                 litq "<h2 class='text-xl font-serif font-bold mt-8 mb-4 text-vintage-title'>" ++
                 litq "<h3 class='text-lg font-serif font-bold mt-6 mb-3 text-vintage-title'>" ++
                 lit "</p>" ++ paragraph_open))
    [lit "<p>"; lit "<h1>"; lit "<h2>"; lit "<h3>"]
  = [false; false; false; false].
Proof. vm_compute. reflexivity. Qed.

End MarkdownFacts.

(* ================================================================== *)
(** ** More about the PDF service *)
(* ================================================================== *)

Module PdfMore.
Import Types Host PdfService Spec JSFacts ExtractFacts.

(** A file passes [validatePDFFile] exactly when it is declared as
    application/pdf and has at most 15 * 1024 * 1024 bytes, and an error
    message comes with every rejection and with no acceptance. *)
Theorem validatePDFFile_accepts (env : Env) (file : File) :
  (valid (validatePDFFile env file) = true <->
   file_type file = lit "application/pdf" /\
   (file_size file <= 15 * 1024 * 1024)%N) /\
  (PdfService.error (validatePDFFile env file) = None <->
   valid (validatePDFFile env file) = true) /\
  (file_type file <> lit "application/pdf" ->
   PdfService.error (validatePDFFile env file) =
     Some (lit "Please select a PDF file")).
Proof.
  unfold validatePDFFile, pdf_mime, maxSize.
  destruct (JS.eqb (file_type file) (lit "application/pdf")) eqn:T.
  - apply eqb_eq in T. simpl negb. cbv iota.
    destruct (N.ltb_spec (15 * 1024 * 1024) (file_size file)) as [L|L];
      simpl; repeat split; intros; try congruence; try lia; try tauto.
  - assert (NT : file_type file <> lit "application/pdf").
    { intros E. apply eqb_eq in E. congruence. }
    simpl. repeat split; intros; try congruence; try tauto.
Qed.

Lemma validatePDFFile_accepts_witness :
  PdfService.error (validatePDFFile (Samples.env_with Samples.hello3)
                      Samples.text_file)
  = Some (lit "Please select a PDF file").
Proof.
  apply (validatePDFFile_accepts (Samples.env_with Samples.hello3)
           Samples.text_file).
  discriminate.
Defined.

(** A rejected file never reaches the PDF library: whatever
    [getDocument] would do, [processPDFFile] throws the validation
    message and leaves the browser as it was. *)
Theorem rejected_file_is_not_extracted (env env' : Env) (file : File)
  (b : Browser) :
  formatFileSize env' = formatFileSize env ->
  valid (validatePDFFile env file) = false ->
  exists message,
    PdfService.error (validatePDFFile env file) = Some message /\
    processPDFFile env file b = (Throw (ErrorObj message), b) /\
    processPDFFile env' file b = (Throw (ErrorObj message), b).
Proof.
  intros F V.
  assert (E : validatePDFFile env' file = validatePDFFile env file).
  { unfold validatePDFFile, too_large_message. now rewrite F. }
  unfold processPDFFile. rewrite E, V. simpl.
  revert V. unfold validatePDFFile.
  destruct (negb (JS.eqb (file_type file) pdf_mime)); simpl; [eauto|].
  destruct (maxSize <? file_size file)%N; simpl; [eauto|discriminate].
Qed.

Lemma rejected_file_is_not_extracted_witness :
  processPDFFile (Samples.env_with Samples.scan1)
    (Samples.pdf_file (20 * 1024 * 1024)) Samples.fresh_browser
  = processPDFFile (Samples.env_with Samples.hello3)
      (Samples.pdf_file (20 * 1024 * 1024)) Samples.fresh_browser.
Proof.
  destruct (rejected_file_is_not_extracted
              (Samples.env_with Samples.hello3)
              (Samples.env_with Samples.scan1)
              (Samples.pdf_file (20 * 1024 * 1024))
              Samples.fresh_browser eq_refl eq_refl)
    as (message & _ & E1 & E2).
  now rewrite E1, E2.
Defined.

(** The whole of [extractTextFromPDF], by what the library returns. *)
Lemma extractTextFromPDF_run (env : Env) (file : File) :
  extractTextFromPDF env file =
  match getDocument env (file_data file) with
  | LoadThrows t => Throw (classify t)
  | Loaded pdf =>
      match printed pdf with
      | [] => Throw (ErrorObj EmptyOrImageOnly)
      | _ :: _ =>
          Ok {| text := join (nl ++ nl) (List.map block (printed pdf));
                result_pageCount := numPages pdf;
                result_metadata :=
                  match getMetadata pdf with
                  | MetadataInfo info => read_metadata file info
                  | MetadataThrows => no_metadata
                  end |}
      end
  end.
Proof.
  unfold extractTextFromPDF, extract_body.
  destruct (getDocument env (file_data file)) as [t|pdf]; [reflexivity|].
  destruct (printed pdf) as [|p l] eqn:P.
  - assert (E : fullText pdf = []) by (rewrite fullText_blocks, P; reflexivity).
    rewrite E. reflexivity.
  - assert (NE : printed pdf <> []) by (rewrite P; discriminate).
    pose proof (joined_blocks_length NE) as Len.
    rewrite fullText_blocks. rewrite P in *.
    set (X := join (nl ++ nl) (List.map block (p :: l))) in *.
    replace (negb (truthy X) || (length X <? 10)) with false; [reflexivity|].
    symmetry. apply orb_false_iff. split.
    + destruct X; [simpl in Len; lia | reflexivity].
    + apply Nat.ltb_ge. lia.
Qed.

Lemma extract_ok_shape (env : Env) (file : File) (r : PDFProcessingResult) :
  extractTextFromPDF env file = Ok r ->
  10 <= length (text r) /\ trim (text r) = text r /\
  forall pdf, getDocument env (file_data file) = Loaded pdf ->
              result_pageCount r = numPages pdf.
Proof.
  rewrite extractTextFromPDF_run.
  destruct (getDocument env (file_data file)) as [t|pdf]; [discriminate|].
  destruct (printed pdf) as [|p l] eqn:P; [discriminate|].
  assert (NE : p :: l <> []) by discriminate.
  pose proof (joined_blocks_length NE) as Len.
  destruct (joined_blocks_shape (l := p :: l) NE) as (mid & z & S & Hz).
  { intros [n t] Hin. rewrite <- P in Hin. apply printed_content in Hin.
    apply (page_content_solid pdf n), Hin. }
  remember (join (nl ++ nl) (List.map block (p :: l))) as X eqn:EX.
  intros [= <-]. cbn [text result_pageCount].
  split; [lia|]. split; [rewrite S; now apply trim_id|].
  now intros pdf' [= <-].
Qed.

Lemma processPDFFile_browser (env : Env) (file : File) (b b' : Browser)
  (a : Attachment) :
  processPDFFile env file b = (Ok a, b') ->
  drawn b' = 2 + drawn b /\ revoked b' = revoked b /\
  intervals b' = intervals b.
Proof.
  unfold processPDFFile.
  destruct (valid (validatePDFFile env file)); simpl; [|discriminate].
  destruct (extractTextFromPDF env file) as [r|t]; [|discriminate].
  intros [= <- <-]. simpl. auto.
Qed.

(** A loaded document is extracted exactly when one of its pages has
    text or fails to be read: a failing page does not abort the
    extraction, it counts as content, and the result then has at least
    10 code units and no white space at either end. *)
Theorem extraction_succeeds_iff_a_page_contributes (env : Env) (file : File)
  (pdf : PDFDocument) :
  getDocument env (file_data file) = Loaded pdf ->
  ((exists r, extractTextFromPDF env file = Ok r) <->
   exists n, 1 <= n <= numPages pdf /\ page_content pdf n <> None) /\
  (forall r, extractTextFromPDF env file = Ok r ->
             10 <= length (text r) /\ trim (text r) = text r /\
             result_pageCount r = numPages pdf) /\
  (forall t, extractTextFromPDF env file = Throw t ->
             t = ErrorObj EmptyOrImageOnly).
Proof.
  intros Hdoc. rewrite extractTextFromPDF_run, Hdoc.
  destruct (printed pdf) as [|p l] eqn:P.
  - split; [|split; [discriminate | now intros t [= <-]]]. split.
    + intros (r & [=]).
    + intros (n & Hn & C). exfalso.
      destruct (page_content pdf n) as [t|] eqn:E; [|congruence].
      assert (In (n, t) (printed pdf)) by (apply printed_content; auto).
      rewrite P in H. contradiction.
  - assert (NE : p :: l <> []) by discriminate.
    pose proof (joined_blocks_length NE) as Len.
    destruct (joined_blocks_shape (l := p :: l) NE) as (mid & z & S & Hz).
    { intros [n t] Hin. rewrite <- P in Hin. apply printed_content in Hin.
      apply (page_content_solid pdf n), Hin. }
    remember (join (nl ++ nl) (List.map block (p :: l))) as X eqn:EX.
    split; [|split; [|discriminate]].
    + split; [|eauto]. intros _. destruct p as [n t].
      assert (I : In (n, t) (printed pdf)) by (rewrite P; now left).
      apply printed_content in I. exists n. split; [tauto|].
      destruct I as [_ ->]. discriminate.
    + intros r [= <-]. cbn [text result_pageCount].
      split; [lia|]. split; [|reflexivity].
      rewrite S. now apply trim_id.
Qed.

Lemma extraction_succeeds_iff_a_page_contributes_witness :
  exists r,
    extractTextFromPDF (Samples.env_with (Samples.unreadable 2))
      (Samples.pdf_file 1024) = Ok r.
Proof.
  apply (extraction_succeeds_iff_a_page_contributes
           (Samples.env_with (Samples.unreadable 2)) (Samples.pdf_file 1024)
           (pdf := Samples.unreadable 2) eq_refl).
  exists 1. split; [simpl; lia|]. discriminate.
Defined.

Lemma startsWith_app (x b : jsstr) : startsWith x (x ++ b) = true.
Proof. induction x as [|c x IH]; simpl; [reflexivity|]. now rewrite N.eqb_refl. Qed.

Lemma includes_unfold (needle s : jsstr) :
  includes needle s =
  startsWith needle s || match s with
                         | [] => false
                         | _ :: s' => includes needle s'
                         end.
Proof. destruct s; reflexivity. Qed.

Lemma includes_middle (x a b : jsstr) : includes x (a ++ x ++ b) = true.
Proof.
  induction a as [|c a IH]; simpl app.
  - now rewrite includes_unfold, startsWith_app.
  - rewrite includes_unfold, IH. apply orb_true_r.
Qed.

Lemma join_member {A} (f : A -> jsstr) (sep : jsstr) (l : list A) (p : A) :
  In p l -> exists a b, join sep (List.map f l) = a ++ f p ++ b.
Proof.
  induction l as [|x [|y l] IH]; intros H; [contradiction | |].
  - destruct H as [->|[]]. exists [], []. simpl. now rewrite app_nil_r.
  - change (join sep (List.map f (x :: y :: l)))
      with (f x ++ sep ++ join sep (List.map f (y :: l))).
    destruct H as [->|H].
    + exists [], (sep ++ join sep (List.map f (y :: l))). reflexivity.
    + destruct (IH H) as (a & b & E). rewrite E.
      exists (f x ++ sep ++ a), b. now rewrite <- !app_assoc.
Qed.

(** A page that cannot be read does not stop the extraction: the result
    is there and holds the marker of that page followed by the
    placeholder. *)
Theorem failed_page_gets_placeholder (env : Env) (file : File)
  (pdf : PDFDocument) (n : nat) :
  getDocument env (file_data file) = Loaded pdf ->
  1 <= n <= numPages pdf ->
  getPage pdf n = PageThrows ->
  exists r,
    extractTextFromPDF env file = Ok r /\
    includes (marker n ++ nl ++ lit "[Error extracting text from this page]")
      (text r) = true.
Proof.
  intros Hdoc Hn Hp.
  assert (I : In (n, page_error_text) (printed pdf)).
  { apply printed_content. split; [exact Hn|].
    unfold page_content. now rewrite Hp. }
  rewrite extractTextFromPDF_run, Hdoc.
  destruct (printed pdf) as [|p l] eqn:P; [contradiction|].
  eexists. split; [reflexivity|]. cbn [text].
  destruct (join_member block (nl ++ nl) (p :: l) (n, page_error_text) I)
    as (a & b & E).
  rewrite E. apply includes_middle.
Qed.

Lemma failed_page_gets_placeholder_witness :
  exists r,
    extractTextFromPDF (Samples.env_with (Samples.unreadable 2))
      (Samples.pdf_file 1024) = Ok r /\
    includes (marker 2 ++ nl ++ lit "[Error extracting text from this page]")
      (text r) = true.
Proof.
  apply (failed_page_gets_placeholder
           (Samples.env_with (Samples.unreadable 2)) (Samples.pdf_file 1024)
           (pdf := Samples.unreadable 2) (n := 2) eq_refl).
  - simpl. lia.
  - reflexivity.
Defined.

(** [extractTextFromPDF] throws error objects only, and their messages
    are the four fixed ones or the one that quotes the message it
    caught; the quoting one comes only from a load error whose message
    holds none of the three key words. *)
Theorem extraction_errors_are_classified (env : Env) (file : File)
  (t : Thrown) :
  extractTextFromPDF env file = Throw t ->
  exists message,
    t = ErrorObj message /\
    (message = InvalidDocument \/ message = PasswordProtected \/
     message = EmptyOrImageOnly \/ message = Unexpected \/
     exists raw,
       getDocument env (file_data file) = LoadThrows (ErrorObj raw) /\
       message = lit "Failed to extract text from PDF: " ++ raw /\
       includes (lit "Invalid PDF") raw = false /\
       includes (lit "password") raw = false /\
       includes (lit "empty") raw = false).
Proof.
  rewrite extractTextFromPDF_run.
  destruct (getDocument env (file_data file)) as [t0|pdf].
  - intros [= <-]. destruct t0 as [raw|]; simpl.
    + destruct (includes (lit "Invalid PDF") raw) eqn:I1; [eauto 7|].
      destruct (includes (lit "password") raw) eqn:I2; [eauto 7|].
      destruct (includes (lit "empty") raw) eqn:I3; [eauto 7|].
      eexists. split; [reflexivity|]. do 4 right. now exists raw.
    + eauto 7.
  - destruct (printed pdf); [|discriminate]. intros [= <-]. eauto 7.
Qed.

Lemma extraction_errors_are_classified_witness :
  exists message,
    ErrorObj EmptyOrImageOnly = ErrorObj message /\
    (message = InvalidDocument \/ message = PasswordProtected \/
     message = EmptyOrImageOnly \/ message = Unexpected \/
     exists raw,
       getDocument (Samples.env_with Samples.scan1)
         (file_data (Samples.pdf_file 1024)) = LoadThrows (ErrorObj raw) /\
       message = lit "Failed to extract text from PDF: " ++ raw /\
       includes (lit "Invalid PDF") raw = false /\
       includes (lit "password") raw = false /\
       includes (lit "empty") raw = false).
Proof.
  apply (extraction_errors_are_classified (Samples.env_with Samples.scan1)
           (Samples.pdf_file 1024)).
  reflexivity.
Defined.

(** What [getMetadata] does, throwing included, changes nothing but the
    metadata of the result: the text, the page count and a failure are
    the same. *)
Theorem metadata_outcome_only_changes_metadata (env env' : Env) (file : File)
  (pdf : PDFDocument) (outcome : MetadataOutcome) :
  getDocument env (file_data file) = Loaded pdf ->
  getDocument env' (file_data file) =
    Loaded (Samples.with_metadata pdf outcome) ->
  match extractTextFromPDF env file, extractTextFromPDF env' file with
  | Ok r, Ok r' =>
      text r' = text r /\ result_pageCount r' = result_pageCount r /\
      (outcome = MetadataThrows -> result_metadata r' = no_metadata)
  | Throw t, Throw t' => t' = t
  | _, _ => False
  end.
Proof.
  intros H H'. rewrite !extractTextFromPDF_run, H, H'.
  change (printed (Samples.with_metadata pdf outcome)) with (printed pdf).
  destruct (printed pdf); [reflexivity|]. cbn.
  split; [reflexivity|]. split; [reflexivity|]. now intros ->.
Qed.

Lemma metadata_outcome_only_changes_metadata_witness :
  match extractTextFromPDF (Samples.env_with Samples.hello3)
          (Samples.pdf_file 1024),
        extractTextFromPDF
          (Samples.env_with
             (Samples.with_metadata Samples.hello3 MetadataThrows))
          (Samples.pdf_file 1024) with
  | Ok r, Ok r' => text r' = text r /\ result_metadata r' = no_metadata
  | _, _ => False
  end.
Proof.
  pose proof (metadata_outcome_only_changes_metadata
                (Samples.env_with Samples.hello3)
                (Samples.env_with
                   (Samples.with_metadata Samples.hello3 MetadataThrows))
                (Samples.pdf_file 1024) (pdf := Samples.hello3)
                (outcome := MetadataThrows) eq_refl eq_refl) as H.
  destruct (extractTextFromPDF (Samples.env_with Samples.hello3)
              (Samples.pdf_file 1024)) as [r|t] eqn:E;
    [|vm_compute in E; discriminate E].
  destruct (extractTextFromPDF
              (Samples.env_with
                 (Samples.with_metadata Samples.hello3 MetadataThrows))
              (Samples.pdf_file 1024)) as [r'|t']; [|exact H].
  destruct H as (T & _ & M). split; [exact T | now apply M].
Defined.

(** An attachment that [processPDFFile] returns comes from a file that
    passed validation, carries its name and size and the type pdf, and
    holds an extracted text of at least 10 code units without white space
    at either end; building it draws one identifier and one object URL
    and revokes nothing. *)
Theorem processPDFFile_builds_attachment (env : Env) (file : File)
  (b b' : Browser) (a : Attachment) :
  processPDFFile env file b = (Ok a, b') ->
  valid (validatePDFFile env file) = true /\
  name a = file_name file /\ size a = file_size file /\
  type a = lit "pdf" /\
  (exists t, extractedText a = Some t /\ 10 <= length t /\ trim t = t) /\
  id a = generateId env (drawn b) /\
  url a = createObjectURL env (S (drawn b)) file /\
  drawn b' = 2 + drawn b /\ revoked b' = revoked b /\
  intervals b' = intervals b.
Proof.
  unfold processPDFFile.
  destruct (valid (validatePDFFile env file)); simpl; [|discriminate].
  destruct (extractTextFromPDF env file) as [r|t] eqn:E; [|discriminate].
  intros [= <- <-]. simpl.
  destruct (extract_ok_shape env file E) as (L & T & _).
  repeat split; try reflexivity. now exists (text r).
Qed.

Lemma processPDFFile_builds_attachment_witness :
  exists a b',
    processPDFFile (Samples.env_with Samples.hello3) (Samples.pdf_file 1024)
      Samples.fresh_browser = (Ok a, b') /\
    drawn b' = 2 /\ name a = lit "report.pdf".
Proof.
  destruct (processPDFFile (Samples.env_with Samples.hello3)
              (Samples.pdf_file 1024) Samples.fresh_browser)
    as [[a|t] b'] eqn:E; [|vm_compute in E; discriminate E].
  exists a, b'. split; [reflexivity|].
  destruct (processPDFFile_builds_attachment
              (Samples.env_with Samples.hello3) (Samples.pdf_file 1024)
              Samples.fresh_browser E)
    as (_ & Nm & _ & _ & _ & _ & _ & D & _).
  split; [exact D | exact Nm].
Defined.




Lemma existsb_eqb_In (x : jsstr) (l : list jsstr) :
  existsb (JS.eqb x) l = true <-> In x l.
Proof.
  rewrite existsb_exists. split.
  - intros (y & Hy & E). apply eqb_eq in E. now subst.
  - intros H. exists x. split; [exact H | apply eqb_refl].
Qed.

Lemma unique_from_spec (a seen : list jsstr) :
  NoDup (unique_from seen a) /\
  (forall x, In x (unique_from seen a) <-> In x a /\ ~ In x seen).
Proof.
  revert seen. induction a as [|y a IH]; intros seen; simpl.
  - split; [constructor | tauto].
  - destruct (existsb (JS.eqb y) seen) eqn:E.
    + apply existsb_eqb_In in E. destruct (IH seen) as [N M].
      split; [exact N|]. intros x. rewrite M. split; [tauto|].
      intros [[->|H] S]; tauto.
    + assert (NI : ~ In y seen).
      { intros H. apply existsb_eqb_In in H. congruence. }
      destruct (IH (y :: seen)) as [N M]. split.
      * constructor; [|exact N]. rewrite M. simpl. tauto.
      * intros x. simpl. rewrite M. simpl. split.
        -- intros [<-|[H S]]; tauto.
        -- intros [[<-|H] S]; [now left|].
           destruct (list_eq_dec N.eq_dec y x) as [->|D]; [now left|].
           right. split; [exact H|]. tauto.
Qed.

(** A list without repetitions passes through unchanged: the first
    occurrences keep their order. *)
Lemma unique_from_id (a seen : list jsstr) :
  NoDup a -> (forall x, In x a -> ~ In x seen) -> unique_from seen a = a.
Proof.
  revert seen. induction a as [|y a IH]; intros seen N D; simpl;
    [reflexivity|].
  inversion N as [|? ? Hy Na]; subst.
  destruct (existsb (JS.eqb y) seen) eqn:E.
  - apply existsb_eqb_In in E. exfalso. apply (D y); [now left | exact E].
  - f_equal. apply IH; [exact Na|].
    intros x Hx [<-|S]; [contradiction|]. apply (D x); [now right | exact S].
Qed.

(** Each of the four lists of [extractKeyInfo] holds every string its
    expression matched, once: no repetition, nothing lost, nothing
    added. A second pass over such a list changes nothing. *)
Theorem extractKeyInfo_lists_are_sets (text : jsstr) :
  let info := extractKeyInfo text in
  (NoDup (emails info) /\ NoDup (phones info) /\
   NoDup (urls info) /\ NoDup (dates info)) /\
  (forall x,
     (In x (emails info) <-> In x (Regex.match_all emailRegex text)) /\
     (In x (phones info) <-> In x (Regex.match_all phoneRegex text)) /\
     (In x (urls info) <-> In x (Regex.match_all urlRegex text)) /\
     (In x (dates info) <-> In x (Regex.match_all dateRegex text))) /\
  (unique (emails info) = emails info /\ unique (phones info) = phones info /\
   unique (urls info) = urls info /\ unique (dates info) = dates info).
Proof.
  cbv zeta. unfold extractKeyInfo, unique. cbn [emails phones urls dates].
  assert (S : forall l, NoDup (unique_from [] l) /\
                        (forall x, In x (unique_from [] l) <-> In x l) /\
                        unique_from [] (unique_from [] l) = unique_from [] l).
  { intros l. destruct (unique_from_spec l []) as [N M].
    split; [exact N|]. split.
    - intros x. rewrite M. simpl. tauto.
    - apply unique_from_id; [exact N | intros x _ []]. }
  split; [repeat split; apply S|].
  split; [intros x; repeat split; apply S | repeat split; apply S].
Qed.

End PdfMore.

(* ================================================================== *)
(** ** More about the model gateway *)
(* ================================================================== *)

Module GroqMore.
Import Types GroqService Spec JSFacts GroqFacts.

Lemma trimEnd_keeps_head (c : N) (r : jsstr) :
  is_ws c = false ->
  trimEnd (c :: r) = [c] \/
  exists mid z, trimEnd (c :: r) = c :: mid ++ [z] /\ is_ws z = false.
Proof.
  intros Hc. induction r as [|w r IH] using rev_ind.
  - left. apply (trimEnd_snoc [] c Hc).
  - change (c :: r ++ [w]) with ((c :: r) ++ [w]).
    destruct (is_ws w) eqn:W.
    + now rewrite trimEnd_snoc_ws.
    + right. exists r, w. split; [now apply trimEnd_snoc | exact W].
Qed.

(** Trimming twice is trimming once. *)
Lemma trim_idempotent (s : jsstr) : trim (trim s) = trim s.
Proof.
  assert (Sh : trim s = [] \/
               (exists c, trim s = [c] /\ is_ws c = false) \/
               exists a mid z, trim s = a :: mid ++ [z] /\
                               is_ws a = false /\ is_ws z = false).
  { unfold trim.
    destruct (trimStart_head s) as [E | (c & r & E & Hc)]; rewrite E;
      [now left|].
    destruct (@trimEnd_keeps_head c r Hc) as [E1 | (mid & z & E1 & Hz)];
      rewrite E1; eauto 10. }
  destruct Sh as [E | [(c & E & Hc) | (a & mid & z & E & Ha & Hz)]];
    rewrite E.
  - reflexivity.
  - unfold trim. rewrite (trimStart_id _ _ Hc).
    apply (trimEnd_snoc [] c Hc).
  - now apply trim_id.
Qed.

(** [chatWithContext] adds one request to the log when the first reply
    is accepted and two otherwise, never more, and what was logged
    before stays in front. *)
Theorem chatWithContext_request_count
  (service : nat -> Request -> ApiOutcome) (q : jsstr)
  (history : list GroqMessage) (doc : option jsstr) (log : Log) :
  let p := primary_request q history doc in
  let f := fallback_request q history doc in
  let log' := snd (chatWithContext service q history doc log) in
  (fails (service (length log) p) = false -> log' = log ++ [p]) /\
  (fails (service (length log) p) = true -> log' = log ++ [p; f]) /\
  length log < length log' <= length log + 2 /\
  firstn (length log) log' = log.
Proof.
  cbv zeta. rewrite chatWithContext_run. cbv zeta.
  destruct (accepted (service (length log) (primary_request q history doc)))
    as [body|] eqn:A.
  - assert (F : fails (service (length log)
                         (primary_request q history doc)) = false).
    { destruct (fails _) eqn:F; [|reflexivity].
      apply fails_accepted in F. congruence. }
    rewrite F. cbn [snd]. rewrite length_app. simpl.
    split; [reflexivity|]. split; [discriminate|]. split; [lia|].
    rewrite firstn_app, Nat.sub_diag, firstn_all. simpl.
    apply app_nil_r.
  - apply fails_accepted in A. rewrite A.
    destruct (accepted (service (S (length log))
                          (fallback_request q history doc)));
      cbn [snd]; rewrite length_app; simpl;
      (split; [discriminate|]); (split; [reflexivity|]); (split; [lia|]);
      rewrite firstn_app, Nat.sub_diag, firstn_all; simpl;
      apply app_nil_r.
Qed.

Lemma chatWithContext_request_count_witness :
  snd (chatWithContext Samples.service_blank (lit "Q") [] None []) =
  [primary_request (lit "Q") [] None].
Proof.
  apply (chatWithContext_request_count Samples.service_blank (lit "Q")
           [] None []).
  reflexivity.
Defined.

(** What [chatWithContext] returns has no white space at either end,
    and it is the trimmed body of the first or of the second reply. *)
Theorem chatWithContext_result_is_trimmed
  (service : nat -> Request -> ApiOutcome) (q : jsstr)
  (history : list GroqMessage) (doc : option jsstr) (log : Log)
  (r : jsstr) :
  fst (chatWithContext service q history doc log) = Ok r ->
  trim r = r /\
  exists c body,
    (service (length log) (primary_request q history doc) = ApiReturns c \/
     service (S (length log)) (fallback_request q history doc)
       = ApiReturns c) /\
    first_content c = Some body /\ r = trim body.
Proof.
  rewrite chatWithContext_run. cbv zeta.
  destruct (accepted (service (length log) (primary_request q history doc)))
    as [body|] eqn:A.
  - intros [= <-]. split; [apply trim_idempotent|].
    apply accepted_body in A. destruct A as (c & E & F & _).
    exists c, body. auto.
  - destruct (accepted (service (S (length log))
                          (fallback_request q history doc)))
      as [body|] eqn:B; [|discriminate].
    intros [= <-]. split; [apply trim_idempotent|].
    apply accepted_body in B. destruct B as (c & E & F & _).
    exists c, body. auto.
Qed.

Lemma chatWithContext_result_is_trimmed_witness :
  trim (@nil N) = [].
Proof.
  apply (chatWithContext_result_is_trimmed Samples.service_blank (lit "Q")
           [] None [] (r := [])).
  reflexivity.
Defined.

Lemma slice_last_slice_last {A} (n k : N) (a : list A) :
  (n <= k)%N -> slice_last n (slice_last k a) = slice_last n a.
Proof.
  intros L. unfold slice_last. rewrite length_skipn, skipn_skipn.
  f_equal. lia.
Qed.

Lemma slice_to_slice_to {A} (n k : N) (s : list A) :
  (n <= k)%N -> slice_to n (slice_to k s) = slice_to n s.
Proof.
  intros L. unfold slice_to. rewrite firstn_firstn. f_equal. lia.
Qed.

Lemma truthy_slice_to (n : N) (s : jsstr) :
  (0 < n)%N -> truthy (slice_to n s) = truthy s.
Proof.
  intros L. unfold slice_to.
  destruct (N.to_nat n) eqn:E; [lia|]. now destruct s.
Qed.

Lemma userContent_window (n k : N) (q : jsstr) (doc : option jsstr) :
  (0 < n <= k)%N ->
  userContent n q (option_map (slice_to k) doc) = userContent n q doc.
Proof.
  intros L. destruct doc as [d|]; [|reflexivity]. simpl.
  rewrite truthy_slice_to by lia.
  destruct (truthy d); [|reflexivity].
  now rewrite slice_to_slice_to by lia.
Qed.

(** The context window: [chatWithContext] behaves the same when it is
    given only the last 10 entries of the history and the first 8000
    code units of the document. Nothing older and nothing further is
    ever sent, in either attempt. *)
Theorem chatWithContext_context_window
  (service : nat -> Request -> ApiOutcome) (q : jsstr)
  (history : list GroqMessage) (doc : option jsstr) (log : Log) :
  chatWithContext service q (slice_last 10 history)
    (option_map (slice_to 8000) doc) log
  = chatWithContext service q history doc log.
Proof.
  assert (P : primary_request q (slice_last 10 history)
                (option_map (slice_to 8000) doc)
              = primary_request q history doc).
  { unfold primary_request.
    rewrite userContent_window by lia.
    rewrite slice_last_slice_last by lia.
    rewrite slice_last_length.
    destruct history as [|m h]; reflexivity. }
  assert (F : fallback_request q (slice_last 10 history)
                (option_map (slice_to 8000) doc)
              = fallback_request q history doc).
  { unfold fallback_request.
    rewrite userContent_window by lia.
    now rewrite slice_last_slice_last by lia. }
  rewrite !chatWithContext_run. cbv zeta. now rewrite P, F.
Qed.

(** The second attempt never sees more than the first. The history of
    the fallback request is that of the primary request without its
    oldest entries, at most two of them, and none unless 8 entries are
    kept. The document context of the fallback request is the start of
    that of the primary request, at most 2000 code units shorter, and
    not shorter at all unless it has 6000 code units. Without a
    document both user turns are the question. *)
Theorem fallback_context_within_primary (q : jsstr)
  (history : list GroqMessage) (doc : option jsstr) :
  let turn (text : jsstr) := {| role := user; content := text |} in
  let framed (context : jsstr) :=
    lit "Document Context:" ++ nl ++ context ++ nl ++ nl ++
    lit "User Question: " ++ q in
  exists older dropped kept first second,
    history = older ++ dropped ++ kept /\
    length dropped <= 2 /\ (dropped = [] \/ length kept = 8) /\
    messages (primary_request q history doc) =
      system_turn :: dropped ++ kept ++ [turn first] /\
    messages (fallback_request q history doc) =
      system_turn :: kept ++ [turn second] /\
    match doc with
    | Some (c :: d) =>
        exists context more rest,
          c :: d = context ++ more ++ rest /\
          (N.of_nat (length more) <= 2000)%N /\
          (more = [] \/ N.of_nat (length context) = 6000%N) /\
          first = framed (context ++ more) /\ second = framed context
    | _ => first = q /\ second = q
    end.
Proof.
  cbv zeta.
  assert (H : exists dropped,
            slice_last 10 history = dropped ++ slice_last 8 history /\
            length dropped <= 2 /\
            (dropped = [] \/ length (slice_last 8 history) = 8)).
  { exists (firstn ((length history - N.to_nat 8)
                    - (length history - N.to_nat 10))
              (slice_last 10 history)).
    split; [|split].
    - unfold slice_last.
      replace (skipn (length history - N.to_nat 8) history)
        with (skipn ((length history - N.to_nat 8)
                     - (length history - N.to_nat 10))
                (skipn (length history - N.to_nat 10) history))
        by (rewrite skipn_skipn; f_equal; lia).
      now rewrite firstn_skipn.
    - rewrite length_firstn. lia.
    - rewrite slice_last_length.
      destruct (Nat.le_gt_cases (length history) 8) as [Le|Gt].
      + left.
        replace (length history - N.to_nat 8 - (length history - N.to_nat 10))
          with 0 by lia.
        reflexivity.
      + right. lia. }
  destruct H as (dropped & E10 & Ld & Full).
  destruct (slice_last_suffix 10 history) as (older & Eh).
  exists older, dropped, (slice_last 8 history),
    (userContent 8000 q doc), (userContent 6000 q doc).
  split; [now rewrite <- E10|]. split; [exact Ld|]. split; [exact Full|].
  split; [rewrite primary_messages, E10; now rewrite <- app_assoc|].
  split; [apply fallback_messages|].
  rewrite !userContent_cases. destruct doc as [[|c d]|]; [now split| |now split].
  set (text := c :: d).
  exists (slice_to 6000 text), (skipn (N.to_nat 6000) (slice_to 8000 text)),
    (skipn (N.to_nat 8000) text).
  assert (E : slice_to 6000 text ++
              skipn (N.to_nat 6000) (slice_to 8000 text) = slice_to 8000 text).
  { replace (slice_to 6000 text) with (slice_to 6000 (slice_to 8000 text))
      by (apply slice_to_slice_to; lia).
    unfold slice_to at 1. apply firstn_skipn. }
  split.
  { rewrite app_assoc, E. unfold slice_to. now rewrite firstn_skipn. }
  split; [rewrite length_skipn, slice_to_length; lia|].
  split.
  { rewrite slice_to_length.
    destruct (Nat.le_gt_cases (length text) (N.to_nat 6000)) as [Le|Gt].
    - left. apply length_zero_iff_nil.
      rewrite length_skipn, slice_to_length. lia.
    - right. lia. }
  now rewrite E.
Qed.

Lemma analyzeDocument_run (service : nat -> Request -> ApiOutcome)
  (documentText fileName : jsstr) (log : Log) :
  analyzeDocument service documentText fileName log =
  match accepted (service (length log)
                    (analysis_request documentText fileName)) with
  | Some body =>
      (Ok (trim body), log ++ [analysis_request documentText fileName])
  | None =>
      (Throw (ErrorObj AnalysisFailed),
       log ++ [analysis_request documentText fileName])
  end.
Proof.
  unfold analyzeDocument, try_catch. rewrite attempt_run.
  now destruct (accepted _).
Qed.

(** [analyzeDocument] sends exactly one request, to the default model,
    and does not retry: a reply with a body that is present and not
    empty is returned trimmed, anything else is the one error message of
    the function. Only the first 10000 code units of the document reach
    the request. *)
Theorem analyzeDocument_single_attempt
  (service : nat -> Request -> ApiOutcome)
  (documentText fileName : jsstr) (log : Log) :
  let req := analysis_request documentText fileName in
  let run := analyzeDocument service documentText fileName log in
  snd run = log ++ [req] /\
  model req = DEFAULT_MODEL /\
  List.map role (messages req) = [system; user] /\
  (forall c body,
     service (length log) req = ApiReturns c ->
     first_content c = Some body -> body <> [] ->
     fst run = Ok (trim body)) /\
  (fails (service (length log) req) = true ->
   fst run = Throw (ErrorObj AnalysisFailed)) /\
  (forall r, fst run = Ok r ->
             trim r = r /\
             exists c body,
               service (length log) req = ApiReturns c /\
               first_content c = Some body /\ body <> [] /\
               r = trim body) /\
  (forall t, fst run = Throw t ->
             t = ErrorObj AnalysisFailed /\
             fails (service (length log) req) = true) /\
  analysis_request (slice_to 10000 documentText) fileName = req.
Proof.
  cbv zeta. rewrite analyzeDocument_run.
  split; [now destruct (accepted _)|].
  split; [reflexivity|]. split; [reflexivity|]. split.
  { intros c body S C NE.
    assert (A : accepted (service (length log)
                            (analysis_request documentText fileName))
                = Some body).
    { apply accepted_body. now exists c. }
    now rewrite A. }
  split.
  { intros F. apply fails_accepted in F. now rewrite F. }
  split.
  { destruct (accepted _) as [body|] eqn:A; [|discriminate].
    intros r [= <-]. split; [apply trim_idempotent|].
    apply accepted_body in A. destruct A as (c & S & C & NE).
    now exists c, body. }
  split.
  { destruct (accepted _) as [body|] eqn:A; [discriminate|].
    intros t [= <-]. split; [reflexivity | now apply fails_accepted]. }
  unfold analysis_request, analysisPrompt.
  now rewrite slice_to_slice_to by lia.
Qed.

Lemma analyzeDocument_single_attempt_witness :
  fst (analyzeDocument (fun _ _ => Samples.reply (lit " Summary. "))
         (lit "text") (lit "a.pdf") [])
  = Ok (lit "Summary.") /\
  fst (analyzeDocument Samples.service_down (lit "text") (lit "a.pdf") [])
  = Throw (ErrorObj AnalysisFailed).
Proof.
  split.
  - destruct (analyzeDocument_single_attempt
                (fun _ _ => Samples.reply (lit " Summary. "))
                (lit "text") (lit "a.pdf") []) as (_ & _ & _ & Accepted & _).
    apply (Accepted _ (lit " Summary. ") eq_refl eq_refl).
    simpl. discriminate.
  - destruct (analyzeDocument_single_attempt Samples.service_down
                (lit "text") (lit "a.pdf") []) as (_ & _ & _ & _ & Failed & _).
    apply Failed. reflexivity.
Defined.

End GroqMore.

(* ================================================================== *)
(** ** More about the Chat component *)
(* ================================================================== *)

Module ChatMore.
Import Types Host PdfService Chat Spec JSFacts.

Lemma processPDFFile_timer (env : Env) (file : File) (b : Browser) :
  processPDFFile env file (setInterval b) =
  (fst (processPDFFile env file b),
   setInterval (snd (processPDFFile env file b))).
Proof.
  unfold processPDFFile.
  destruct (negb (valid (validatePDFFile env file))); [reflexivity|].
  now destruct (extractTextFromPDF env file).
Qed.

Lemma cleanup_revoked (a : Attachment) (b : Browser) :
  revoked (cleanupPDFResources a b) = revoked b ++ released (Some a) /\
  drawn (cleanupPDFResources a b) = drawn b /\
  intervals (cleanupPDFResources a b) = intervals b.
Proof.
  unfold cleanupPDFResources, released.
  destruct (startsWith (lit "blob:") (url a)); simpl;
    rewrite ?app_nil_r; auto.
Qed.

(** A successful upload puts the new attachment in place of the old
    one, revokes the object URL of the old one when it is a blob URL,
    appends exactly one assistant message, the analysis of the new
    attachment, and ends idle without error. *)
Theorem successful_upload_replaces_attachment (env : Env) (file : File)
  (s : State) (b : Browser) (a : Attachment) :
  fst (processPDFFile env file b) = Ok a ->
  let after := handleFileUpload env file (s, b) in
  attachment (fst after) = Some a /\
  (exists m,
     messages (fst after) = messages s ++ [m] /\
     msg_role m = assistant /\
     msg_content m =
       analysis_content env a (getPDFStats a)
         (extractKeyInfo (or_string (extractedText a) []))) /\
  orchestrator (fst after) = Idle /\
  input (fst after) = input s /\
  revoked (snd after) = revoked b ++ released (attachment s) /\
  drawn (snd after) = 4 + drawn b.
Proof.
  intros P. cbv zeta. unfold handleFileUpload.
  rewrite processPDFFile_timer, P.
  destruct (processPDFFile env file b) as [res b1] eqn:E. simpl in P.
  subst res.
  destruct (PdfMore.processPDFFile_browser env file b E) as (D & R & _).
  cbn [snd fst]. unfold upload_succeeded.
  destruct (attachment s) as [old|] eqn:A; cbn.
  - destruct (cleanup_revoked old (clearInterval (setInterval b1)))
      as (R1 & D1 & _).
    rewrite R1, D1. cbn. rewrite R, D.
    repeat split; try reflexivity. eexists. repeat split; reflexivity.
  - rewrite R, D, app_nil_r.
    repeat split; try reflexivity. eexists. repeat split; reflexivity.
Qed.

Lemma successful_upload_replaces_attachment_witness :
  revoked (snd (handleFileUpload (Samples.env_with Samples.hello3)
                  (Samples.pdf_file 1024)
                  (Samples.idle (Some Samples.old_attachment),
                   Samples.fresh_browser)))
  = [lit "blob:old"].
Proof.
  destruct (processPDFFile (Samples.env_with Samples.hello3)
              (Samples.pdf_file 1024) Samples.fresh_browser)
    as [[a|t] b1] eqn:E; [|vm_compute in E; discriminate E].
  apply (successful_upload_replaces_attachment
           (Samples.env_with Samples.hello3) (Samples.pdf_file 1024)
           (Samples.idle (Some Samples.old_attachment))
           Samples.fresh_browser (a := a)).
  now rewrite E.
Defined.

(** The progress timer that [handleFileUpload] starts is stopped only
    when the upload succeeds: after a failed upload it is still
    running. *)
Theorem progress_timer_outlives_failed_upload (env : Env) (file : File)
  (s : State) (b : Browser) :
  intervals (snd (handleFileUpload env file (s, b))) =
  match fst (processPDFFile env file b) with
  | Ok _ => intervals b
  | Throw _ => S (intervals b)
  end.
Proof.
  unfold handleFileUpload. rewrite processPDFFile_timer.
  destruct (processPDFFile env file b) as [[a|t] b1] eqn:E; cbn [fst snd].
  - destruct (PdfMore.processPDFFile_browser env file b E) as (_ & _ & I).
    unfold upload_succeeded.
    destruct (attachment s) as [old|]; cbn.
    + destruct (cleanup_revoked old (clearInterval (setInterval b1)))
        as (_ & _ & I1).
      rewrite I1. cbn. exact I.
    + exact I.
  - assert (F : fst (processPDFFile env file b) = Throw t) by now rewrite E.
    apply UploadFacts.processPDFFile_failure in F. destruct F as [_ F].
    rewrite F in E. injection E as <-. reflexivity.
Qed.

(** [removeAttachment] clears the attachment, revokes its object URL
    when that is a blob URL and leaves the conversation alone; a second
    call changes nothing more. *)
Theorem removeAttachment_releases_once (s : State) (b : Browser) :
  let after := removeAttachment (s, b) in
  attachment (fst after) = None /\
  messages (fst after) = messages s /\
  Chat.error (fst after) = Chat.error s /\
  revoked (snd after) = revoked b ++ released (attachment s) /\
  removeAttachment after = after.
Proof.
  cbv zeta. unfold removeAttachment.
  destruct (attachment s) as [a|] eqn:A; cbn.
  - destruct (cleanup_revoked a b) as (R & _ & _).
    repeat split; try reflexivity. exact R.
  - rewrite A, app_nil_r. repeat split; reflexivity.
Qed.

Lemma respond_cases
  (service : nat -> GroqService.Request -> GroqService.ApiOutcome)
  (s : State) (history : list GroqMessage) :
  respond service s history =
  match document_of s with
  | Some t =>
      GroqService.chatWithContext service (trim (input s)) history (Some t)
  | None =>
      if truthy (trim (input s)) then
        GroqService.chatWithContext service (trim (input s)) history None
      else GroqService.ret canned_response
  end.
Proof.
  unfold respond, document_of.
  destruct (attachment s) as [a|]; [|reflexivity].
  destruct (extractedText a) as [t|]; [|reflexivity].
  now destruct (truthy t).
Qed.

(** [respond] throws nothing but the one error of the gateway and sends
    at most two requests. *)
Lemma respond_outcome
  (service : nat -> GroqService.Request -> GroqService.ApiOutcome)
  (s : State) (history : list GroqMessage) (log : GroqService.Log) :
  (forall t, fst (respond service s history log) = Throw t ->
             t = ErrorObj GroqService.ServiceUnavailable) /\
  ((document_of s = None /\ trim (input s) = [] /\
    respond service s history log = (Ok canned_response, log)) \/
   ((document_of s <> None \/ trim (input s) <> []) /\
    exists later,
      snd (respond service s history log) =
        log ++ GroqService.primary_request (trim (input s)) history
                 (document_of s) :: later /\
      length later <= 1)).
Proof.
  rewrite respond_cases.
  assert (C : forall doc,
            (forall t, fst (GroqService.chatWithContext service
                              (trim (input s)) history doc log) = Throw t ->
                       t = ErrorObj GroqService.ServiceUnavailable) /\
            exists later,
              snd (GroqService.chatWithContext service (trim (input s))
                     history doc log) =
                log ++ GroqService.primary_request (trim (input s)) history
                         doc :: later /\
              length later <= 1).
  { intros doc. rewrite GroqFacts.chatWithContext_run. cbv zeta.
    destruct (accepted _).
    - split; [discriminate|]. exists []. simpl. auto.
    - destruct (accepted _).
      + split; [discriminate|]. eexists [_]. simpl. auto.
      + split; [now intros t [= <-]|]. eexists [_]. simpl. auto. }
  destruct (document_of s) as [t|] eqn:D.
  - destruct (C (Some t)) as [T L]. split; [exact T|].
    right. split; [left; discriminate | exact L].
  - destruct (truthy (trim (input s))) eqn:Q.
    + destruct (C None) as [T L]. split; [exact T|].
      right. split; [|exact L]. right. now apply truthy_nonempty.
    + split; [discriminate|]. left.
      destruct (trim (input s)); [auto | discriminate].
Qed.

(** A send that the opening test rejects (nothing typed and nothing
    attached, or busy) changes nothing. Any other send empties the input,
    keeps the attachment and appends the user message with the trimmed
    input; then either the assistant message with the reply follows and
    no error is set, or no assistant message follows and the error is the
    one message of the gateway. *)
Theorem handleSendMessage_outcome (env : Env)
  (service : nat -> GroqService.Request -> GroqService.ApiOutcome)
  (s : State) (b : Browser) (log : GroqService.Log) :
  let after := handleSendMessage env service (s, b, log) in
  let s' := fst (fst after) in
  let b' := snd (fst after) in
  if send_rejected s then after = (s, b, log)
  else
    input s' = [] /\ isLoading s' = false /\
    attachment s' = attachment s /\ revoked b' = revoked b /\
    exists um,
      msg_role um = user /\ msg_content um = trim (input s) /\
      msg_attachments um = Some match attachment s with
                                | Some a => [a]
                                | None => []
                                end /\
      ((exists am,
          messages s' = messages s ++ [um; am] /\
          msg_role am = assistant /\
          fst (respond service s (List.map toGroqMessage (messages s)) log)
            = Ok (msg_content am) /\
          orchestrator s' = Idle /\ drawn b' = 4 + drawn b) \/
       (messages s' = messages s ++ [um] /\
        orchestrator s' = Error GroqService.ServiceUnavailable /\
        drawn b' = 2 + drawn b)).
Proof.
  cbv zeta. unfold handleSendMessage, send_rejected.
  destruct ((negb (truthy (trim (input s))) &&
             match attachment s with Some _ => false | None => true end)
            || isLoading s); [reflexivity|].
  destruct (respond_outcome service s
              (List.map toGroqMessage (messages s)) log) as [T _].
  destruct (respond service s (List.map toGroqMessage (messages s)) log)
    as [[response|t] log'] eqn:R; cbn.
  - do 4 (split; [reflexivity|]).
    exists {| msg_id := generateId env (drawn b);
              msg_content := trim (input s);
              msg_role := user;
              msg_timestamp := now env (drawn (tick b));
              msg_attachments := Some match attachment s with
                                      | Some a => [a]
                                      | None => []
                                      end |}.
    do 3 (split; [reflexivity|]). left.
    exists {| msg_id := generateId env (drawn (tick (tick b)));
              msg_content := response;
              msg_role := assistant;
              msg_timestamp := now env (drawn (tick (tick (tick b))));
              msg_attachments := None |}.
    rewrite <- app_assoc. repeat split; reflexivity.
  - rewrite (T t eq_refl). cbn.
    do 4 (split; [reflexivity|]).
    exists {| msg_id := generateId env (drawn b);
              msg_content := trim (input s);
              msg_role := user;
              msg_timestamp := now env (drawn (tick b));
              msg_attachments := Some match attachment s with
                                      | Some a => [a]
                                      | None => []
                                      end |}.
    do 3 (split; [reflexivity|]). right. repeat split; reflexivity.
Qed.

(** What a send asks the model: nothing at all when nothing was typed
    and the attachment has no text (the fixed reply is used); otherwise
    the first request carries the trimmed input as the question, the
    attachment text as the document and the messages from before the
    send as the history, without the user message that was just
    appended. At most one more request follows. *)
Theorem handleSendMessage_request (env : Env)
  (service : nat -> GroqService.Request -> GroqService.ApiOutcome)
  (s : State) (b : Browser) (log : GroqService.Log) :
  send_rejected s = false ->
  let after := handleSendMessage env service (s, b, log) in
  let history := List.map toGroqMessage (messages s) in
  (document_of s = None /\ trim (input s) = [] /\
   snd after = log /\
   exists um am,
     messages (fst (fst after)) = messages s ++ [um; am] /\
     msg_content am = canned_response) \/
  ((document_of s <> None \/ trim (input s) <> []) /\
   exists later,
     snd after =
       log ++ GroqService.primary_request (trim (input s)) history
                (document_of s) :: later /\
     length later <= 1).
Proof.
  intros NR. cbv zeta. unfold handleSendMessage.
  unfold send_rejected in NR. rewrite NR.
  destruct (respond_outcome service s
              (List.map toGroqMessage (messages s)) log)
    as [_ [(D & Q & R) | (DQ & later & L & Len)]].
  - left. rewrite R. cbn. do 3 (split; [assumption || reflexivity|]).
    eexists. eexists. rewrite <- app_assoc. split; reflexivity.
  - right. split; [exact DQ|]. exists later. split; [|exact Len].
    destruct (respond service s (List.map toGroqMessage (messages s)) log)
      as [[response|t] log']; exact L.
Qed.

Lemma handleSendMessage_request_witness :
  snd (handleSendMessage (Samples.env_with Samples.hello3)
         Samples.service_down
         (setInput (lit " hi ") (Samples.idle None),
          Samples.fresh_browser, []))
  = [GroqService.primary_request (lit "hi") [] None;
     GroqService.fallback_request (lit "hi") [] None].
Proof.
  destruct (handleSendMessage_request (Samples.env_with Samples.hello3)
              Samples.service_down
              (setInput (lit " hi ") (Samples.idle None))
              Samples.fresh_browser [] eq_refl)
    as [(_ & Q & _) | (_ & later & L & _)].
  - vm_compute in Q. discriminate Q.
  - vm_compute. reflexivity.
Defined.

Lemma handleSendMessage_run_log (env : Env)
  (service : nat -> GroqService.Request -> GroqService.ApiOutcome)
  (s : State) (b : Browser) (log : GroqService.Log) :
  send_rejected s = false ->
  document_of s <> None ->
  exists later,
    snd (handleSendMessage env service (s, b, log)) =
      log ++ GroqService.primary_request (trim (input s))
               (List.map toGroqMessage (messages s)) (document_of s)
             :: later.
Proof.
  intros NR D. unfold handleSendMessage.
  unfold send_rejected in NR. rewrite NR.
  destruct (respond_outcome service s
              (List.map toGroqMessage (messages s)) log)
    as [_ [(D0 & _) | (_ & later & L & _)]]; [contradiction|].
  exists later.
  destruct (respond service s (List.map toGroqMessage (messages s)) log)
    as [[response|t] log']; exact L.
Qed.

Lemma uploaded_text_is_usable (env : Env) (file : File) (b b' : Browser)
  (a : Attachment) :
  processPDFFile env file b = (Ok a, b') ->
  exists t, extractedText a = Some t /\ truthy t = true.
Proof.
  unfold processPDFFile.
  destruct (valid (validatePDFFile env file)); simpl; [|discriminate].
  destruct (extractTextFromPDF env file) as [r|t] eqn:E; [|discriminate].
  intros [= <- <-]. simpl. exists (text r). split; [reflexivity|].
  destruct (PdfMore.extract_ok_shape env file E) as (L & _).
  destruct (text r); [simpl in L; lia | reflexivity].
Qed.

(** Upload, then ask: after a successful upload the next send is not
    rejected, whatever was typed, and its first request carries the
    extracted text of the new attachment as the document and, as the
    last entry of the history, the analysis message the upload
    appended. *)
Theorem question_after_upload (env : Env)
  (service : nat -> GroqService.Request -> GroqService.ApiOutcome)
  (file : File) (s : State) (b : Browser) (a : Attachment)
  (typed : jsstr) (log : GroqService.Log) :
  fst (processPDFFile env file b) = Ok a ->
  let uploaded := handleFileUpload env file (s, b) in
  let asked :=
    handleSendMessage env service
      (setInput typed (fst uploaded), snd uploaded, log) in
  exists t analysis later,
    extractedText a = Some t /\
    messages (fst uploaded) = messages s ++ [analysis] /\
    snd asked =
      log ++
      GroqService.primary_request (trim typed)
        (List.map toGroqMessage (messages s) ++
         [{| role := assistant; content := msg_content analysis |}])
        (Some t) :: later.
Proof.
  intros P. cbv zeta.
  destruct (processPDFFile env file b) as [res b1] eqn:E. simpl in P.
  subst res.
  destruct (uploaded_text_is_usable env file b E) as (t & Ht & Tt).
  assert (U : attachment (fst (handleFileUpload env file (s, b))) = Some a /\
              isLoading (fst (handleFileUpload env file (s, b))) = false /\
              exists m,
                messages (fst (handleFileUpload env file (s, b)))
                  = messages s ++ [m] /\
                msg_role m = assistant).
  { unfold handleFileUpload.
    rewrite processPDFFile_timer, E. cbn [fst snd]. unfold upload_succeeded.
    destruct (attachment s); cbn; repeat split; eexists; split; reflexivity. }
  remember (handleFileUpload env file (s, b)) as up eqn:Eup.
  destruct U as (A & L & m & M & Rm).
  remember (setInput typed (fst up)) as s1 eqn:Es1.
  assert (A1 : attachment s1 = Some a) by (subst s1; exact A).
  assert (L1 : isLoading s1 = false) by (subst s1; exact L).
  assert (I1 : input s1 = typed) by (subst s1; reflexivity).
  assert (M1 : messages s1 = messages s ++ [m]) by (subst s1; exact M).
  assert (D : document_of s1 = Some t).
  { unfold document_of. now rewrite A1, Ht, Tt. }
  assert (NR : send_rejected s1 = false).
  { unfold send_rejected. rewrite A1, L1. now rewrite andb_false_r. }
  destruct (handleSendMessage_run_log env service s1 (snd up) log NR)
    as (later & Lg); [rewrite D; discriminate|].
  exists t, m, later. split; [exact Ht|]. split; [exact M|].
  rewrite Lg, D, I1, M1, map_app. simpl.
  unfold toGroqMessage at 2. now rewrite Rm.
Qed.

Lemma question_after_upload_witness :
  exists t analysis later,
    snd (handleSendMessage (Samples.env_with Samples.hello3)
           Samples.service_down
           (setInput (lit "What is this about?")
              (fst (handleFileUpload (Samples.env_with Samples.hello3)
                      (Samples.pdf_file 1024)
                      (Samples.idle None, Samples.fresh_browser))),
            snd (handleFileUpload (Samples.env_with Samples.hello3)
                   (Samples.pdf_file 1024)
                   (Samples.idle None, Samples.fresh_browser)), []))
    = GroqService.primary_request (lit "What is this about?")
        [{| role := assistant; content := msg_content analysis |}]
        (Some t) :: later.
Proof.
  destruct (processPDFFile (Samples.env_with Samples.hello3)
              (Samples.pdf_file 1024) Samples.fresh_browser)
    as [[a|t] b1] eqn:E; [|vm_compute in E; discriminate E].
  destruct (question_after_upload (Samples.env_with Samples.hello3)
              Samples.service_down (Samples.pdf_file 1024)
              (Samples.idle None) Samples.fresh_browser (a := a)
              (lit "What is this about?") [])
    as (t & analysis & later & _ & _ & L).
  - now rewrite E.
  - exists t, analysis, later. exact L.
Defined.

End ChatMore.

(* ================================================================== *)
(** ** More about the utilities *)
(* ================================================================== *)

Module UtilsMore.
Import Utils JSFacts.

Lemma slice_prefix {A} (n : Z) (a : list A) :
  (0 <= n)%Z -> slice 0 n a = firstn (Z.to_nat n) a.
Proof.
  intros Hn. unfold slice, slice_index.
  destruct (Z.ltb_spec n 0) as [L|_]; [lia|]. simpl.
  rewrite Nat.sub_0_r.
  destruct (Nat.min_spec (Z.to_nat n) (length a)) as [[L ->]|[L ->]];
    [reflexivity|].
  rewrite firstn_all. symmetry. now apply firstn_all2.
Qed.

(** [truncateText] and [truncate] are the same function. A text of at
    most [maxLength] code units comes back as it is; a longer one is cut
    to its first [maxLength] code units and gets three dots, so the
    result has [maxLength + 3] code units, up to three more than the
    limit and possibly more than the text had. With a negative
    [maxLength] that many code units are cut off the end instead. *)
Theorem truncateText_cases (text : jsstr) (maxLength : Z) :
  truncate text maxLength = truncateText text maxLength /\
  ((Z.of_nat (length text) <= maxLength)%Z ->
   truncateText text maxLength = text) /\
  ((0 <= maxLength < Z.of_nat (length text))%Z ->
   truncateText text maxLength =
     firstn (Z.to_nat maxLength) text ++ lit "..." /\
   Z.of_nat (length (truncateText text maxLength)) = (maxLength + 3)%Z) /\
  ((maxLength < 0)%Z ->
   truncateText text maxLength =
     firstn (length text - Z.to_nat (- maxLength)) text ++ lit "...") /\
  ((0 <= maxLength)%Z ->
   (Z.of_nat (length (truncateText text maxLength)) <= maxLength + 3)%Z).
Proof.
  unfold truncate, truncateText.
  split; [reflexivity|].
  destruct (Z.leb_spec (Z.of_nat (length text)) maxLength) as [L|L].
  - split; [reflexivity|]. split; [lia|]. split; [lia|]. lia.
  - split; [lia|]. split; [|split].
    + intros [H0 _]. rewrite slice_prefix by exact H0.
      split; [reflexivity|].
      rewrite length_app, length_firstn. simpl. lia.
    + intros N. unfold slice, slice_index.
      destruct (Z.ltb_spec maxLength 0) as [_|G]; [|lia]. simpl.
      now rewrite Nat.sub_0_r.
    + intros H0. rewrite slice_prefix by exact H0.
      rewrite length_app, length_firstn. simpl. lia.
Qed.

Lemma truncateText_cases_witness :
  truncateText (lit "abcd") 3 = lit "abc..." /\
  truncateText (lit "abcd") (-1) = lit "abc...".
Proof.
  split.
  - apply (truncateText_cases (lit "abcd") 3). simpl. lia.
  - apply (truncateText_cases (lit "abcd") (-1)). lia.
Defined.

Lemma slice_step {A} (a : list A) (size i : Z) :
  (1 <= size)%Z -> (0 <= i < Z.of_nat (length a))%Z ->
  slice i (i + size) a =
    firstn (Z.to_nat size) (skipn (Z.to_nat i) a) /\
  1 <= length (slice i (i + size) a) <= Z.to_nat size /\
  ((i + size < Z.of_nat (length a))%Z ->
   length (slice i (i + size) a) = Z.to_nat size).
Proof.
  intros Hs Hi. unfold slice, slice_index.
  destruct (Z.ltb_spec i 0) as [L|_]; [lia|].
  destruct (Z.ltb_spec (i + size) 0) as [L|_]; [lia|].
  replace (Nat.min (Z.to_nat i) (length a)) with (Z.to_nat i) by lia.
  assert (E : firstn (Nat.min (Z.to_nat (i + size)) (length a) - Z.to_nat i)
                (skipn (Z.to_nat i) a)
              = firstn (Z.to_nat size) (skipn (Z.to_nat i) a)).
  { destruct (Nat.min_spec (Z.to_nat (i + size)) (length a))
      as [[L ->]|[L ->]].
    - f_equal. lia.
    - rewrite !firstn_all2; [reflexivity | |]; rewrite length_skipn; lia. }
  rewrite E. split; [reflexivity|].
  rewrite length_firstn, length_skipn. lia.
Qed.

Lemma chunk_loop_positive {A} (array : list A) (size : Z) :
  (1 <= size)%Z ->
  forall fuel i chunks,
    (0 <= i)%Z -> length array - Z.to_nat i <= fuel ->
    exists cs,
      chunk_loop fuel array size i chunks = Some (chunks ++ cs) /\
      concat cs = skipn (Z.to_nat i) array /\
      Forall (fun c => 1 <= length c <= Z.to_nat size) cs /\
      Forall (fun c => length c = Z.to_nat size) (removelast cs) /\
      length array - Z.to_nat i <= length cs * Z.to_nat size
        < length array - Z.to_nat i + Z.to_nat size.
Proof.
  intros Hs. induction fuel as [|fuel IH]; intros i chunks Hi Hf.
  - exists []. simpl.
    destruct (Z.ltb_spec i (Z.of_nat (length array))) as [L|G]; [lia|].
    rewrite app_nil_r. split; [reflexivity|].
    split; [symmetry; apply skipn_all2; lia|].
    repeat split; try constructor; lia.
  - simpl.
    destruct (Z.ltb_spec i (Z.of_nat (length array))) as [L|G].
    + destruct (@slice_step A array size i Hs (conj Hi L))
        as (E & Len & Full).
      destruct (IH (i + size)%Z (chunks ++ [slice i (i + size) array])
                  ltac:(lia) ltac:(lia)) as (cs & R & C & F1 & F2 & N).
      exists (slice i (i + size) array :: cs).
      rewrite R, <- app_assoc. split; [reflexivity|].
      split.
      { simpl. rewrite C, E.
        replace (Z.to_nat (i + size)) with (Z.to_nat size + Z.to_nat i)
          by lia.
        rewrite <- skipn_skipn. apply firstn_skipn. }
      split; [constructor; assumption|].
      split.
      { destruct cs as [|c cs]; [constructor|].
        change (removelast (slice i (i + size) array :: c :: cs))
          with (slice i (i + size) array :: removelast (c :: cs)).
        constructor; [|exact F2]. apply Full.
        destruct (Z.ltb_spec (i + size) (Z.of_nat (length array)));
          [assumption|].
        exfalso.
        change (length (c :: cs) * Z.to_nat size)
          with (Z.to_nat size + length cs * Z.to_nat size) in N.
        remember (length cs * Z.to_nat size) as P. lia. }
      replace (Z.to_nat (i + size)) with (Z.to_nat i + Z.to_nat size) in N
        by lia.
      change (length (slice i (i + size) array :: cs) * Z.to_nat size)
        with (Z.to_nat size + length cs * Z.to_nat size).
      destruct (Z.ltb_spec (i + size) (Z.of_nat (length array))).
      { remember (length cs * Z.to_nat size) as P. lia. }
      destruct cs as [|c cs]; [simpl; lia|].
      change (length (c :: cs) * Z.to_nat size)
        with (Z.to_nat size + length cs * Z.to_nat size) in *.
      remember (length cs * Z.to_nat size) as P. lia.
    + exists []. rewrite app_nil_r. split; [reflexivity|].
      split; [symmetry; apply skipn_all2; lia|].
      split; [constructor|]. split; [constructor|]. simpl. lia.
Qed.

(** For a size of at least 1, [chunk] ends within as many iterations as
    the array has elements, and its chunks put together are the array:
    nothing is lost, repeated or reordered. Every chunk has between 1 and
    [size] elements, every chunk but the last exactly [size], and there
    are as many chunks as the length divided by the size, rounded up. *)
Theorem chunk_partitions {A} (fuel : nat) (array : list A) (size : Z) :
  (1 <= size)%Z -> length array <= fuel ->
  exists chunks,
    chunk fuel array size = Some chunks /\
    concat chunks = array /\
    Forall (fun c => 1 <= length c <= Z.to_nat size) chunks /\
    Forall (fun c => length c = Z.to_nat size) (removelast chunks) /\
    length array <= length chunks * Z.to_nat size
      < length array + Z.to_nat size.
Proof.
  intros Hs Hf.
  destruct (@chunk_loop_positive A array size Hs fuel 0%Z [] ltac:(lia)
              ltac:(simpl; lia)) as (cs & R & C & F1 & F2 & N).
  exists cs. simpl in *. rewrite Nat.sub_0_r in N. now repeat split.
Qed.

Lemma chunk_partitions_witness :
  chunk 5 [1; 2; 3; 4; 5] 2 = Some [[1; 2]; [3; 4]; [5]].
Proof.
  destruct (@chunk_partitions nat 5 [1; 2; 3; 4; 5] 2 ltac:(lia)
              ltac:(simpl; lia)) as (cs & R & _).
  rewrite R. vm_compute in R. injection R as <-. reflexivity.
Defined.

(** For a size of 0 or less and an array that is not empty, the loop of
    [chunk] never ends: no number of iterations is enough. *)
Theorem chunk_never_ends {A} (fuel : nat) (array : list A) (size : Z) :
  (size <= 0)%Z -> array <> [] -> chunk fuel array size = None.
Proof.
  intros Hs NE. unfold chunk.
  assert (G : forall i chunks, (i <= 0)%Z ->
                               chunk_loop fuel array size i chunks = None).
  { induction fuel as [|fuel IH]; intros i chunks Hi; simpl;
      destruct (Z.ltb_spec i (Z.of_nat (length array))) as [L|G];
      try reflexivity.
    - destruct array; [congruence | simpl in G; lia].
    - apply IH. lia.
    - destruct array; [congruence | simpl in G; lia]. }
  apply G. lia.
Qed.

Lemma chunk_never_ends_witness : chunk 1000 [1; 2; 3] 0 = None.
Proof.
  apply (@chunk_never_ends nat 1000 [1; 2; 3] 0); [lia|discriminate].
Defined.

(** [formatRelativeTime] says [just now] for everything less than a
    minute old, dates in the future included; then whole minutes from 1
    to 59, whole hours from 1 to 23 and whole days from 1 on, each
    rounded down. *)
Theorem formatRelativeTime_units (now date : Z) :
  let age := (now - date)%Z in
  ((age < 60000)%Z -> formatRelativeTime now date = lit "just now") /\
  ((60000 <= age < 3600000)%Z ->
   exists k, (1 <= k <= 59)%N /\
             (60000 * Z.of_N k <= age < 60000 * (Z.of_N k + 1))%Z /\
             formatRelativeTime now date = of_N k ++ lit "m ago") /\
  ((3600000 <= age < 86400000)%Z ->
   exists k, (1 <= k <= 23)%N /\
             (3600000 * Z.of_N k <= age < 3600000 * (Z.of_N k + 1))%Z /\
             formatRelativeTime now date = of_N k ++ lit "h ago") /\
  ((86400000 <= age)%Z ->
   exists k, (1 <= k)%N /\
             (86400000 * Z.of_N k <= age < 86400000 * (Z.of_N k + 1))%Z /\
             formatRelativeTime now date = of_N k ++ lit "d ago").
Proof.
  cbv zeta. unfold formatRelativeTime.
  set (d := ((now - date) / 1000)%Z).
  assert (D : (1000 * d <= now - date < 1000 * d + 1000)%Z).
  { subst d. pose proof (Z.div_mod (now - date) 1000 ltac:(lia)).
    pose proof (Z.mod_pos_bound (now - date) 1000 ltac:(lia)). lia. }
  destruct (Z.ltb_spec d 60) as [L1|G1].
  { split; [reflexivity|]. repeat split; intros; lia. }
  split; [lia|].
  destruct (Z.ltb_spec d 3600) as [L2|G2].
  { split.
    - intros _. exists (Z.to_N (d / 60)).
      pose proof (Z.div_mod d 60 ltac:(lia)).
      pose proof (Z.mod_pos_bound d 60 ltac:(lia)).
      repeat split; try reflexivity; lia.
    - split; intros; lia. }
  split; [lia|].
  destruct (Z.ltb_spec d 86400) as [L3|G3].
  { split.
    - intros _. exists (Z.to_N (d / 3600)).
      pose proof (Z.div_mod d 3600 ltac:(lia)).
      pose proof (Z.mod_pos_bound d 3600 ltac:(lia)).
      repeat split; try reflexivity; lia.
    - intros; lia. }
  split; [lia|].
  intros _. exists (Z.to_N (d / 86400)).
  pose proof (Z.div_mod d 86400 ltac:(lia)).
  pose proof (Z.mod_pos_bound d 86400 ltac:(lia)).
  repeat split; try reflexivity; lia.
Qed.

Lemma formatRelativeTime_units_witness :
  formatRelativeTime 1000 5000 = lit "just now".
Proof.
  apply (formatRelativeTime_units 1000 5000). lia.
Defined.

End UtilsMore.

(* ================================================================== *)
(** ** The matcher and the declarative reading *)
(* ================================================================== *)

Module MatcherFacts.
Import Regex RegexFacts.
Unset Implicit Arguments.

(** Whatever the matcher finds is a match in the declarative sense,
    followed by a success of the continuation. *)
Lemma m_sound (r : re) :
  forall x c k res,
    m r x c k = Some res ->
    exists y c', matches r x y /\ k y c' = Some res.
Proof.
  induction r as [|p| | | |r1 IH1 r2 IH2|r1 IH1 r2 IH2|g r IH|i r IH];
    intros x c k res H; simpl in H.
  - exists x, c. split; [constructor | exact H].
  - destruct (after x) as [|ch rest] eqn:E; [discriminate|].
    destruct (p ch) eqn:P; [|discriminate].
    eexists; exists c. split; [exact (@M_Chr p x ch rest E P) | exact H].
  - exists x, c. split; [|destruct (before x) as [|ch ?];
                           [exact H | destruct (is_line_terminator ch);
                                       [exact H | discriminate]]].
    constructor. destruct (before x) as [|ch ?]; [reflexivity|].
    now destruct (is_line_terminator ch).
  - exists x, c. split; [|destruct (after x) as [|ch ?];
                           [exact H | destruct (is_line_terminator ch);
                                       [exact H | discriminate]]].
    constructor. destruct (after x) as [|ch ?]; [reflexivity|].
    now destruct (is_line_terminator ch).
  - destruct (xorb _ _) eqn:X; [|discriminate].
    exists x, c. split; [now constructor | exact H].
  - apply IH1 in H. destruct H as (y & c1 & M1 & H).
    apply IH2 in H. destruct H as (z & c2 & M2 & H).
    exists z, c2. split; [exact (@M_Seq r1 r2 x y z M1 M2) | exact H].
  - apply orelse_some in H. destruct H as [H|H].
    + apply IH1 in H. destruct H as (y & c' & M & H).
      exists y, c'. split; [now apply M_Alt_l | exact H].
    + apply IH2 in H. destruct H as (y & c' & M & H).
      exists y, c'. split; [now apply M_Alt_r | exact H].
  - remember (length (after x)) as n eqn:En. clear En. revert x c H.
    induction n as [|n IHn]; intros x c H; simpl in H.
    + assert (K : k x c = Some res).
      { destruct g; simpl in H; [exact H|].
        apply orelse_some in H. destruct H as [H|H];
          [exact H | discriminate]. }
      exists x, c. split; [constructor | exact K].
    + assert (C : m r x c (fun x' c' =>
                    if length (after x') <? length (after x)
                    then star_loop (m r) g k n x' c' else None) = Some res
                  \/ k x c = Some res).
      { destruct g; apply orelse_some in H; tauto. }
      destruct C as [C|K].
      * apply IH in C. destruct C as (y & c1 & M1 & C).
        destruct (Nat.ltb_spec (length (after y)) (length (after x)))
          as [L|_]; [|discriminate].
        apply IHn in C. destruct C as (z & c2 & M2 & C).
        exists z, c2. split; [exact (@M_Star_more g r x y z M1 L M2) | exact C].
      * exists x, c. split; [constructor | exact K].
  - apply IH in H. destruct H as (y & c' & M & H).
    eexists; eexists. split; [apply M_Group, M | exact H].
Qed.

(** The matcher backtracks far enough: when there is a match after
    which the continuation cannot fail, the matcher does not fail. *)
Lemma m_complete (r : re) (x y : pos) :
  matches r x y ->
  forall c k, (forall c', k y c' <> None) -> m r x c k <> None.
Proof.
  induction 1 as [x|p x ch rest E P|x B|x B|x B
                  |r1 r2 x y z _ IH1 _ IH2
                  |r1 r2 x y _ IH|r1 r2 x y _ IH
                  |g r x|g r x y z _ IH1 L _ IH2
                  |i r x y _ IH]; intros c k K; simpl.
  - apply K.
  - rewrite E, P. apply K.
  - destruct (before x) as [|ch ?]; [apply K|]. rewrite B. apply K.
  - destruct (after x) as [|ch ?]; [apply K|]. rewrite B. apply K.
  - rewrite B. apply K.
  - apply IH1. intros c'. now apply IH2.
  - specialize (IH c k K). destruct (m r1 x c k); [discriminate|contradiction].
  - specialize (IH c k K). destruct (m r1 x c k); [discriminate|exact IH].
  - specialize (K c).
    destruct (length (after x)) as [|n]; simpl;
      destruct g; simpl;
      try (destruct (k x c); [discriminate|contradiction]);
      match goal with
      | |- orelse ?a _ <> None => destruct a; [discriminate|]; simpl
      end; destruct (k x c); [discriminate|contradiction].
  - destruct (length (after x)) as [|n] eqn:N; [lia|]. simpl.
    assert (I : m r x c (fun x' c' =>
                  if length (after x') <? length (after x)
                  then star_loop (m r) g k n x' c' else None) <> None).
    { apply IH1. intros c'.
      destruct (Nat.ltb_spec (length (after y)) (length (after x)));
        [|lia].
      rewrite <- (star_bound r g k n y c') by lia. now apply IH2. }
    destruct g; simpl.
    + destruct (m r x c _); [discriminate|contradiction].
    + destruct (k x c); [discriminate|]. simpl.
      destruct (m r x c _); [discriminate|contradiction].
  - apply IH. intros c'. apply K.
Qed.

(** A match consumes a stretch of the subject. *)
Lemma matches_consumes (r : re) (x y : pos) :
  matches r x y ->
  exists w, after x = w ++ after y /\ before y = rev w ++ before x.
Proof.
  induction 1 as [x|p x ch rest E P|x B|x B|x B
                  |r1 r2 x y z _ IH1 _ IH2
                  |r1 r2 x y _ IH|r1 r2 x y _ IH
                  |g r x|g r x y z _ IH1 L _ IH2
                  |i r x y _ IH];
    try (exists []; split; reflexivity); try exact IH.
  - exists [ch]. simpl. now rewrite E.
  - destruct IH1 as (w1 & A1 & B1), IH2 as (w2 & A2 & B2).
    exists (w1 ++ w2). rewrite A1, A2, B2, B1, rev_app_distr, !app_assoc.
    now split.
  - destruct IH1 as (w1 & A1 & B1), IH2 as (w2 & A2 & B2).
    exists (w1 ++ w2). rewrite A1, A2, B2, B1, rev_app_distr, !app_assoc.
    now split.
Qed.

(** The position reached from [x] after the code units [w]. *)
Lemma matches_str (l : jsstr) (x y : pos) :
  matches (str l) x y <->
  after x = l ++ after y /\ before y = rev l ++ before x.
Proof.
  revert x y. induction l as [|ch l IH]; intros x y; simpl; split.
  - inversion 1; subst. now split.
  - intros [A B]. destruct x, y; simpl in *; subst. constructor.
  - inversion 1 as [| | | | |? ? ? z ? M1 M2| | | | |]; subst.
    inversion M1 as [|? ? ch0 rest E P| | | | | | | | |]; subst.
    apply N.eqb_eq in P. subst ch0.
    apply IH in M2. simpl in M2. destruct M2 as [A B].
    rewrite E, A, B, <- app_assoc. now split.
  - intros [A B].
    apply (@M_Seq _ _ x
             {| before := ch :: before x; after := l ++ after y |} y).
    + apply (@M_Chr _ x ch (l ++ after y) A). apply N.eqb_refl.
    + apply IH. simpl. split; [reflexivity|].
      now rewrite B, <- app_assoc.
Qed.

Lemma matches_star_chr (g : bool) (p : N -> bool) (x y : pos) :
  matches (Star g (Chr p)) x y <->
  exists w, forallb p w = true /\
            after x = w ++ after y /\ before y = rev w ++ before x.
Proof.
  split.
  - intros M. remember (Star g (Chr p)) as r eqn:R.
    induction M as [x|? x ch rest E P|x B|x B|x B
                    |r1 r2 x y z _ IH1 _ IH2
                    |r1 r2 x y _ IH|r1 r2 x y _ IH
                    |g' r' x|g' r' x y z M1 IH1 L M2 IH2
                    |i r' x y _ IH]; try discriminate.
    + exists []. now split.
    + injection R as -> ->. destruct (IH2 eq_refl) as (w & F & A & B).
      inversion M1 as [|? ? ch rest E P| | | | | | | | |]; subst.
      exists (ch :: w). simpl in *. rewrite P, F, E, A, B, <- app_assoc.
      now split.
  - intros (w & F & A & B). revert x F A B.
    induction w as [|ch w IH]; intros x F A B; simpl in *.
    + destruct x, y; simpl in *; subst. constructor.
    + apply andb_true_iff in F. destruct F as [P F].
      apply (@M_Star_more g (Chr p) x
               {| before := ch :: before x; after := w ++ after y |} y).
      * exact (@M_Chr p x ch (w ++ after y) A P).
      * rewrite A. simpl. lia.
      * apply IH; [exact F | reflexivity|].
        simpl. now rewrite B, <- app_assoc.
Qed.

Lemma matches_plus_chr (p : N -> bool) (x y : pos) :
  matches (plus (Chr p)) x y <->
  exists w, w <> [] /\ forallb p w = true /\
            after x = w ++ after y /\ before y = rev w ++ before x.
Proof.
  unfold plus. split.
  - inversion 1 as [| | | | |? ? ? z ? M1 M2| | | | |]; subst.
    inversion M1 as [|? ? ch rest E P| | | | | | | | |]; subst.
    apply matches_star_chr in M2. destruct M2 as (w & F & A & B).
    exists (ch :: w). simpl in *. rewrite P, F, E, A, B, <- app_assoc.
    repeat split. discriminate.
  - intros ([|ch w] & NE & F & A & B); [congruence|]. simpl in *.
    apply andb_true_iff in F. destruct F as [P F].
    apply (@M_Seq _ _ x
             {| before := ch :: before x; after := w ++ after y |} y).
    + exact (@M_Chr p x ch (w ++ after y) A P).
    + apply matches_star_chr. exists w. simpl.
      now rewrite B, <- app_assoc.
Qed.

(** [/^R$/.test(s)] holds exactly when [R] matches all of [s]. *)
Lemma test_anchored_matches (r : re) (s : jsstr) :
  Utils.test_anchored r s = true <->
  exists y, matches r (start s) y /\ after y = [].
Proof.
  unfold Utils.test_anchored. split.
  - destruct (m r (start s) [] _) as [res|] eqn:E; [|discriminate].
    intros _. apply m_sound in E. destruct E as (y & c' & M & K).
    exists y. split; [exact M|]. destruct (after y); [reflexivity|discriminate].
  - intros (y & M & E).
    pose proof (m_complete r (start s) y M []
                  (fun x c => match after x with
                              | [] => Some (x, c)
                              | _ :: _ => None
                              end)) as C.
    destruct (m r (start s) [] _); [reflexivity|].
    exfalso. apply C; [|reflexivity]. intros c'. now rewrite E.
Qed.

End MatcherFacts.

Set Implicit Arguments.

(* ================================================================== *)
(** ** [isValidEmail] *)
(* ================================================================== *)

Module EmailFacts.
Import Regex Utils MatcherFacts.

Lemma matches_seq (r1 r2 : re) (x z : pos) :
  matches (Seq r1 r2) x z <-> exists y, matches r1 x y /\ matches r2 y z.
Proof.
  split.
  - inversion 1 as [| | | | |? ? ? y ? M1 M2| | | | |]; subst. eauto.
  - intros (y & M1 & M2). exact (@M_Seq r1 r2 x y z M1 M2).
Qed.

Lemma matches_eps (x y : pos) : matches Eps x y <-> x = y.
Proof. split; [now inversion 1 | intros <-; constructor]. Qed.

Lemma email_char_not_at (w : jsstr) :
  forallb email_char w = true ->
  count_occ N.eq_dec w 64%N = 0 /\
  forallb (fun c => negb (is_ws c)) w = true.
Proof.
  induction w as [|c w IH]; simpl; [auto|].
  rewrite andb_true_iff. intros [P F]. destruct (IH F) as [C W].
  unfold email_char in P. apply andb_true_iff in P. destruct P as [P1 P2].
  rewrite P1, W. split; [|reflexivity].
  destruct (N.eq_dec c 64) as [->|_]; [discriminate|exact C].
Qed.

(** [isValidEmail] accepts exactly the strings of the form local part,
    [@], domain, [.], rest, where the three parts are not empty and hold
    neither white space nor [@]. So an accepted string has no white
    space and exactly one [@]. *)
Theorem isValidEmail_shape (email : jsstr) :
  (isValidEmail email = true <->
   exists local domain rest,
     email = local ++ lit "@" ++ domain ++ lit "." ++ rest /\
     local <> [] /\ domain <> [] /\ rest <> [] /\
     forallb email_char local = true /\
     forallb email_char domain = true /\
     forallb email_char rest = true) /\
  (isValidEmail email = true ->
   count_occ N.eq_dec email 64%N = 1 /\
   forallb (fun c => negb (is_ws c)) email = true).
Proof.
  assert (Shape : isValidEmail email = true <->
                  exists local domain rest,
                    email = local ++ lit "@" ++ domain ++ lit "." ++ rest /\
                    local <> [] /\ domain <> [] /\ rest <> [] /\
                    forallb email_char local = true /\
                    forallb email_char domain = true /\
                    forallb email_char rest = true).
  { unfold isValidEmail. rewrite test_anchored_matches. simpl seqs. split.
    - intros (y & M & E).
      apply matches_seq in M. destruct M as (y1 & M1 & M).
      apply matches_seq in M. destruct M as (y2 & M2 & M).
      apply matches_seq in M. destruct M as (y3 & M3 & M).
      apply matches_seq in M. destruct M as (y4 & M4 & M).
      apply matches_seq in M. destruct M as (y5 & M5 & M).
      apply matches_eps in M. subst y5.
      apply matches_plus_chr in M1. destruct M1 as (w1 & N1 & F1 & A1 & _).
      apply (matches_str (lit "@")) in M2. destruct M2 as (A2 & _).
      apply matches_plus_chr in M3. destruct M3 as (w3 & N3 & F3 & A3 & _).
      apply (matches_str (lit ".")) in M4. destruct M4 as (A4 & _).
      apply matches_plus_chr in M5. destruct M5 as (w5 & N5 & F5 & A5 & _).
      exists w1, w3, w5. simpl in A1.
      rewrite A1, A2, A3, A4, A5, E, app_nil_r. now repeat split.
    - intros (w1 & w3 & w5 & E & N1 & N3 & N5 & F1 & F3 & F5).
      set (t4 := w5). set (b4 := rev (lit ".") ++ rev w3 ++ rev (lit "@") ++ rev w1).
      exists {| before := rev w5 ++ b4; after := [] |}.
      split; [|reflexivity].
      apply matches_seq.
      exists {| before := rev w1;
                after := lit "@" ++ w3 ++ lit "." ++ w5 |}.
      split.
      { apply matches_plus_chr. exists w1. simpl.
        rewrite app_nil_r. now repeat split. }
      apply matches_seq.
      exists {| before := rev (lit "@") ++ rev w1;
                after := w3 ++ lit "." ++ w5 |}.
      split; [apply (matches_str (lit "@")); now split|].
      apply matches_seq.
      exists {| before := rev w3 ++ rev (lit "@") ++ rev w1;
                after := lit "." ++ w5 |}.
      split.
      { apply matches_plus_chr. exists w3. now repeat split. }
      apply matches_seq.
      exists {| before := b4; after := w5 |}.
      split; [apply (matches_str (lit ".")); now split|].
      apply matches_seq.
      exists {| before := rev w5 ++ b4; after := [] |}.
      split; [|constructor].
      apply matches_plus_chr. exists w5. simpl.
      rewrite app_nil_r. now repeat split. }
  split; [exact Shape|].
  intros V. apply Shape in V.
  destruct V as (w1 & w3 & w5 & -> & _ & _ & _ & F1 & F3 & F5).
  destruct (email_char_not_at w1 F1) as [C1 W1].
  destruct (email_char_not_at w3 F3) as [C3 W3].
  destruct (email_char_not_at w5 F5) as [C5 W5].
  split.
  - rewrite !count_occ_app, C1, C3, C5. reflexivity.
  - rewrite !forallb_app, W1, W3, W5. reflexivity.
Qed.

Lemma isValidEmail_shape_witness :
  count_occ N.eq_dec (lit "a.b@c.org") 64%N = 1.
Proof.
  apply (isValidEmail_shape (lit "a.b@c.org")). vm_compute. reflexivity.
Defined.

End EmailFacts.

(* ================================================================== *)
(** ** More about the renderer *)
(* ================================================================== *)

Module MarkdownMore.
Import Regex Utils Spec.
Unset Implicit Arguments.

Lemma requires_head_none (r : re) :
  forall p x c k,
    requires_head r = Some p -> head_is p (after x) = false ->
    m r x c k = None.
Proof.
  induction r as [|q| | | |r1 IH1 r2 IH2|r1 IH1 r2 IH2|g r IH|i r IH];
    intros p x c k R H; simpl in R; try discriminate.
  - injection R as ->. simpl.
    destruct (after x) as [|ch rest]; [reflexivity|].
    simpl in H. now rewrite H.
  - simpl. now apply (IH1 p).
  - simpl. now apply (IH p).
Qed.

(** An expression finds nothing in a subject that lacks the code units
    its matches start with. *)
Lemma search_requires_head (r : re) (p : N -> bool) :
  requires_head r = Some p ->
  forall a b, forallb (fun c => negb (p c)) a = true -> search r b a = None.
Proof.
  intros R. induction a as [|ch a IH]; intros b F; simpl.
  - unfold exec_at. now rewrite (requires_head_none r p).
  - simpl in F. apply andb_true_iff in F. destruct F as [P F].
    unfold exec_at. rewrite (requires_head_none r p); [|exact R|].
    + now apply IH.
    + simpl. now destruct (p ch).
Qed.

(** A line rule finds nothing in one line that does not start with the
    code unit its prefix starts with. *)
Lemma search_line_rule (prefix : re) (p : N -> bool) :
  requires_head prefix = Some p ->
  forall a b,
    forallb (fun c => negb (is_line_terminator c)) a = true ->
    match b with
    | [] => head_is p a = false
    | ch :: _ => is_line_terminator ch = false
    end ->
    search (line_rule prefix) b a = None.
Proof.
  intros R.
  assert (E : forall a b,
            match b with
            | [] => head_is p a = false
            | ch :: _ => is_line_terminator ch = false
            end ->
            exec_at (line_rule prefix) {| before := b; after := a |} = None).
  { intros a b H. unfold exec_at, line_rule. simpl.
    destruct b as [|ch b].
    - now apply (requires_head_none prefix p).
    - now rewrite H. }
  induction a as [|ch a IH]; intros b F H; simpl; rewrite (E _ _ H);
    [reflexivity|].
  simpl in F. apply andb_true_iff in F. destruct F as [L F].
  apply IH; [exact F|]. now apply negb_true_iff.
Qed.

Lemma replace_without_match (r : re) (tpl : list piece) (s : jsstr) :
  search r [] s = None -> replace r tpl s = s.
Proof. intros H. unfold replace. simpl. now rewrite H. Qed.

Lemma includes_requires (c0 : N) (rest s : jsstr) :
  forallb (fun c => negb (N.eqb c0 c)) s = true ->
  includes (c0 :: rest) s = false.
Proof.
  induction s as [|c s IH]; simpl; [reflexivity|].
  rewrite andb_true_iff. intros [P F]. apply negb_true_iff in P.
  rewrite P. simpl. now apply IH.
Qed.

Lemma forallb_weaken {A} (f g : A -> bool) (l : list A) :
  (forall x, f x = true -> g x = true) ->
  forallb f l = true -> forallb g l = true.
Proof.
  intros W. induction l as [|x l IH]; simpl; [reflexivity|].
  rewrite !andb_true_iff. intros [F1 F2]. split; auto.
Qed.

(** Text without markup passes through every rewrite rule unchanged and
    comes back wrapped in one paragraph. *)
Theorem parseMarkdown_plain_text (text : jsstr) :
  plain text = true ->
  parseMarkdown text = litq "<p class='mb-4'>" ++ text ++ lit "</p>".
Proof.
  unfold plain. rewrite andb_true_iff, negb_true_iff. intros [F H].
  assert (NoLT : forallb (fun c => negb (is_line_terminator c)) text = true).
  { revert F. apply forallb_weaken. intros c.
    rewrite !negb_true_iff, !orb_false_iff. tauto. }
  assert (No : forall d, d = 42%N \/ d = 96%N \/ d = 60%N \/ d = 10%N ->
                         forallb (fun c => negb (N.eqb d c)) text = true).
  { intros d D. revert F. apply forallb_weaken. intros c.
    rewrite !negb_true_iff, !orb_false_iff. intros [[[L A] B] C].
    rewrite N.eqb_sym.
    destruct D as [-> | [-> | [-> | ->]]]; try assumption.
    unfold is_line_terminator in L. rewrite !orb_false_iff in L. tauto. }
  assert (Hd : forall p,
            (forall c, p c = true ->
                       (N.eqb c 35 || N.eqb c 45 || N.eqb c 62
                        || is_digit c) = true) ->
            head_is p text = false).
  { intros p W. destruct text as [|c t]; [reflexivity|]. simpl in *.
    destruct (p c) eqn:P; [|reflexivity]. apply W in P. congruence. }
  assert (Line : forall prefix p tpl,
            requires_head prefix = Some p ->
            (forall c, p c = true ->
                       (N.eqb c 35 || N.eqb c 45 || N.eqb c 62
                        || is_digit c) = true) ->
            replace (line_rule prefix) tpl text = text).
  { intros prefix p tpl R W. apply replace_without_match.
    apply (search_line_rule prefix p R text [] NoLT). now apply Hd. }
  assert (Span : forall r d tpl,
            requires_head r = Some (N.eqb d) ->
            d = 42%N \/ d = 96%N \/ d = 60%N \/ d = 10%N ->
            replace r tpl text = text).
  { intros r d tpl R D. apply replace_without_match.
    apply (search_requires_head r (N.eqb d) R). now apply No. }
  assert (Is : forall d c, N.eqb d c = true -> c = d)
    by (intros d c E; apply N.eqb_eq in E; congruence).
  unfold parseMarkdown. cbv zeta.
  rewrite (Line (str (lit "### ")) (N.eqb 35) _ eq_refl)
    by (intros c E; apply Is in E; now subst).
  rewrite (Line (str (lit "## ")) (N.eqb 35) _ eq_refl)
    by (intros c E; apply Is in E; now subst).
  rewrite (Line (str (lit "# ")) (N.eqb 35) _ eq_refl)
    by (intros c E; apply Is in E; now subst).
  rewrite (Span (span_rule (lit "**") dot) 42%N _ eq_refl) by tauto.
  rewrite (Span (span_rule (lit "*") dot) 42%N _ eq_refl) by tauto.
  rewrite (Span (span_rule (lit "```") any) 96%N _ eq_refl) by tauto.
  rewrite (Span (span_rule (lit "`") dot) 96%N _ eq_refl) by tauto.
  rewrite (Line (str (lit "- ")) (N.eqb 45) _ eq_refl)
    by (intros c E; apply Is in E; now subst).
  rewrite (Line (seqs [plus (Chr is_digit); str (lit ". ")]) is_digit _
             eq_refl)
    by (intros c E; rewrite E; now rewrite !orb_true_r).
  rewrite (Span list_items 60%N _ eq_refl) by tauto.
  rewrite (Line (str (lit "> ")) (N.eqb 62) _ eq_refl)
    by (intros c E; apply Is in E; now subst).
  rewrite (Span (str (nl ++ nl)) 10%N _ eq_refl) by tauto.
  rewrite (Span (str nl) 10%N _ eq_refl) by tauto.
  replace (includes (lit "<p>") text) with false
    by (symmetry; apply (includes_requires 60%N (lit "p>")), No; tauto).
  replace (includes (lit "<h1>") text) with false
    by (symmetry; apply (includes_requires 60%N (lit "h1>")), No; tauto).
  replace (includes (lit "<h2>") text) with false
    by (symmetry; apply (includes_requires 60%N (lit "h2>")), No; tauto).
  replace (includes (lit "<h3>") text) with false
    by (symmetry; apply (includes_requires 60%N (lit "h3>")), No; tauto).
  reflexivity.
Qed.

Lemma parseMarkdown_plain_text_witness :
  parseMarkdown (lit "Revenue grew by 4 percent.") =
  litq "<p class='mb-4'>Revenue grew by 4 percent.</p>".
Proof.
  apply (parseMarkdown_plain_text (lit "Revenue grew by 4 percent.")).
  vm_compute. reflexivity.
Defined.

End MarkdownMore.

Set Implicit Arguments.

(* ================================================================== *)
(** ** White space in the page text *)
(* ================================================================== *)

Module WhitespaceFacts.
Import Regex Types Host PdfService Spec JSFacts.
Unset Implicit Arguments.

Lemma skip_ws_after (a b : jsstr) : after (skip_ws b a) = trimStart a.
Proof.
  revert b. induction a as [|ch a IH]; intros b; simpl; [reflexivity|].
  destruct (is_ws ch); [apply IH | reflexivity].
Qed.

Lemma trimStart_length (a : jsstr) : length (trimStart a) <= length a.
Proof.
  induction a as [|ch a IH]; simpl; [lia|].
  destruct (is_ws ch); simpl; lia.
Qed.

(** The greedy repetition of [\s] runs to the end of the white space. *)
Lemma star_ws (n : nat) :
  forall a b c,
    length a <= n ->
    star_loop (m (Chr is_ws)) true (fun x' c' => Some (x', c')) n
      {| before := b; after := a |} c
    = Some (skip_ws b a, c).
Proof.
  induction n as [|n IH]; intros a b c L.
  - destruct a; [reflexivity | simpl in L; lia].
  - destruct a as [|ch a]; [reflexivity|].
    simpl. destruct (is_ws ch) eqn:W; [|reflexivity].
    destruct (Nat.ltb_spec (length a) (S (length a))) as [_|G]; [|lia].
    rewrite IH by (simpl in L; lia). reflexivity.
Qed.

Lemma exec_ws (a b : jsstr) :
  exec_at (plus (Chr is_ws)) {| before := b; after := a |} =
  match a with
  | ch :: r => if is_ws ch then Some (skip_ws (ch :: b) r, []) else None
  | [] => None
  end.
Proof.
  unfold exec_at, plus. destruct a as [|ch r]; [reflexivity|].
  cbn [m after before]. destruct (is_ws ch); [|reflexivity].
  apply (star_ws (length r) r (ch :: b) []). lia.
Qed.

(** Where the search for [\s+] ends up. *)
Lemma search_ws (a : jsstr) :
  forall b,
    (search (plus (Chr is_ws)) b a = None /\
     forallb (fun c => negb (is_ws c)) a = true) \/
    exists pre ch r,
      a = pre ++ ch :: r /\
      forallb (fun c => negb (is_ws c)) pre = true /\ is_ws ch = true /\
      search (plus (Chr is_ws)) b a =
        Some ({| before := rev pre ++ b; after := ch :: r |},
              skip_ws (ch :: rev pre ++ b) r, []).
Proof.
  induction a as [|ch a IH]; intros b.
  - left. split; reflexivity.
  - cbn [search]. rewrite exec_ws.
    destruct (is_ws ch) eqn:W.
    + right. exists [], ch, a. repeat split. exact W.
    + destruct (IH (ch :: b)) as [[S F] | (pre & c0 & r & E & F & W0 & S)].
      * left. split; [exact S|]. simpl. now rewrite W, F.
      * right. exists (ch :: pre), c0, r. subst a. simpl.
        rewrite W, F, S, <- app_assoc. repeat split. exact W0.
Qed.

Lemma collapse_no_ws (s : jsstr) (in_ws : bool) :
  forallb (fun c => negb (is_ws c)) s = true -> collapse in_ws s = s.
Proof.
  revert in_ws. induction s as [|c s IH]; intros in_ws; simpl;
    [reflexivity|].
  rewrite andb_true_iff, negb_true_iff. intros [W F].
  rewrite W. f_equal. now apply IH.
Qed.

Lemma collapse_after_ws (s : jsstr) :
  collapse true s = collapse false (trimStart s).
Proof.
  induction s as [|c s IH]; simpl; [reflexivity|].
  destruct (is_ws c) eqn:W; [exact IH|]. simpl. now rewrite W.
Qed.

Lemma collapse_split (pre : jsstr) (ch : N) (r : jsstr) (in_ws : bool) :
  forallb (fun c => negb (is_ws c)) pre = true -> is_ws ch = true ->
  collapse false (pre ++ ch :: r) =
  pre ++ 32%N :: collapse false (trimStart r).
Proof.
  intros F W. induction pre as [|c pre IH]; simpl in *.
  - now rewrite W, collapse_after_ws.
  - apply andb_true_iff in F. destruct F as [Wc F].
    apply negb_true_iff in Wc. rewrite Wc. f_equal. now apply IH.
Qed.

Lemma between_prefix (pre b rest a : jsstr) :
  between {| before := b; after := a |}
          {| before := rev pre ++ b; after := rest |} = pre.
Proof.
  unfold between. simpl. rewrite length_app, length_rev.
  replace (length pre + length b - length b) with (length (rev pre))
    by (rewrite length_rev; lia).
  rewrite firstn_app, Nat.sub_diag, firstn_all. simpl.
  now rewrite app_nil_r, rev_involutive.
Qed.

(** [replace(/\s+/g, ' ')] is the plain recursion [collapse]. *)
Lemma replace_ws_collapse (n : nat) :
  forall a b,
    length a < n ->
    replace_from (plus (Chr is_ws)) [Text (lit " ")] n
      {| before := b; after := a |} = collapse false a.
Proof.
  induction n as [|n IH]; intros a b L; [lia|].
  cbn [replace_from before after].
  destruct (search_ws a b) as [[S F] | (pre & ch & r & E & F & W & S)];
    rewrite S.
  - symmetry. now apply collapse_no_ws.
  - rewrite between_prefix. unfold resume.
    rewrite skip_ws_after. cbn [after].
    pose proof (trimStart_length r) as T.
    destruct (Nat.ltb_spec (length (trimStart r)) (length (ch :: r)))
      as [_|G]; [|simpl in G; lia].
    assert (P : skip_ws (ch :: rev pre ++ b) r =
                {| before := before (skip_ws (ch :: rev pre ++ b) r);
                   after := trimStart r |}).
    { rewrite <- (skip_ws_after r (ch :: rev pre ++ b)).
      now destruct (skip_ws _ _). }
    rewrite P, IH.
    + rewrite E, (collapse_split pre ch r false F W). reflexivity.
    + rewrite E, length_app in L. simpl in L. lia.
Qed.

Lemma normalize_whitespace_collapse (s : jsstr) :
  normalize_whitespace s = collapse false s.
Proof. unfold normalize_whitespace, replace. apply replace_ws_collapse. lia. Qed.

Lemma collapse_single_spaced (s : jsstr) (in_ws : bool) :
  single_spaced in_ws (collapse in_ws s) = true.
Proof.
  revert in_ws. induction s as [|c s IH]; intros in_ws; simpl;
    [reflexivity|].
  destruct (is_ws c) eqn:W.
  - destruct in_ws; [apply IH|]. simpl. apply IH.
  - simpl. rewrite W. apply IH.
Qed.

Lemma single_spaced_trimStart (s : jsstr) (p : bool) :
  single_spaced p s = true -> single_spaced true (trimStart s) = true.
Proof.
  revert p. induction s as [|c s IH]; intros p; simpl; [reflexivity|].
  destruct (is_ws c) eqn:W.
  - rewrite !andb_true_iff. intros [_ H]. now apply (IH true).
  - intros H. simpl. now rewrite W.
Qed.

Lemma single_spaced_prefix (a z : jsstr) (p : bool) :
  single_spaced p (a ++ z) = true -> single_spaced p a = true.
Proof.
  revert p. induction a as [|c a IH]; intros p; simpl; [reflexivity|].
  destruct (is_ws c).
  - rewrite !andb_true_iff. intros [H1 H2]. split; [exact H1|].
    now apply IH.
  - apply IH.
Qed.

Lemma trimEnd_prefix (s : jsstr) : exists z, s = trimEnd s ++ z.
Proof.
  induction s as [|w s IH] using rev_ind.
  - exists []. reflexivity.
  - destruct (is_ws w) eqn:W.
    + rewrite trimEnd_snoc_ws by exact W. destruct IH as (z & E).
      exists (z ++ [w]). now rewrite app_assoc, <- E.
    + rewrite trimEnd_snoc by exact W. exists []. now rewrite app_nil_r.
Qed.

(** The text of a page, as [extractTextFromPDF] normalises it, has no
    white space but single spaces between other code units: no line
    break or tab, no two spaces in a row, none at the start or at the
    end. *)
Theorem pageText_is_single_spaced (items : list TextContentItem) :
  single_spaced true (pageText items) = true /\
  trim (pageText items) = pageText items /\
  pageText items =
    trim (collapse false (join (lit " ") (List.map item_str items))).
Proof.
  assert (E : pageText items =
              trim (collapse false
                      (join (lit " ") (List.map item_str items)))).
  { unfold pageText. now rewrite normalize_whitespace_collapse. }
  split; [|split; [|exact E]].
  - rewrite E. unfold trim.
    set (X := collapse false (join (lit " ") (List.map item_str items))).
    pose proof (collapse_single_spaced
                  (join (lit " ") (List.map item_str items)) false) as S.
    fold X in S. apply single_spaced_trimStart in S.
    destruct (trimEnd_prefix (trimStart X)) as (z & Z).
    rewrite Z in S. now apply single_spaced_prefix in S.
  - unfold pageText. apply GroqMore.trim_idempotent.
Qed.

End WhitespaceFacts.

Set Implicit Arguments.

(* ================================================================== *)
(** ** What [extractKeyInfo] finds *)
(* ================================================================== *)

Module KeyInfoFacts.
Import Regex Types Host PdfService Spec JSFacts MatcherFacts.
Unset Implicit Arguments.

Lemma search_exec (r : re) (a : jsstr) :
  forall b s e c,
    search r b a = Some (s, e, c) ->
    exec_at r s = Some (e, c) /\
    forall text, position_of text {| before := b; after := a |} ->
                 position_of text s.
Proof.
  induction a as [|ch a IH]; intros b s e c H; cbn [search] in H.
  - destruct (exec_at r {| before := b; after := [] |}) as [[e' c']|] eqn:E;
      [|discriminate].
    injection H as <- <- <-. auto.
  - destruct (exec_at r {| before := b; after := ch :: a |})
      as [[e' c']|] eqn:E.
    + injection H as <- <- <-. auto.
    + destruct (IH _ _ _ _ H) as [X P]. split; [exact X|].
      intros text T. apply P. unfold position_of in *. simpl in *.
      now rewrite <- app_assoc.
Qed.

Lemma exec_matches (r : re) (s e : pos) (c : caps) :
  exec_at r s = Some (e, c) -> matches r s e.
Proof.
  intros H. apply m_sound in H. destruct H as (y & c' & M & [= <- _]).
  exact M.
Qed.

Lemma matched_word (r : re) (s e : pos) :
  matches r s e ->
  after s = between s e ++ after e /\
  forall text, position_of text s ->
               position_of text e /\
               text = rev (before s) ++ between s e ++ after e.
Proof.
  intros M. destruct (matches_consumes r s e M) as (w & A & B).
  assert (W : between s e = w).
  { unfold between. rewrite B, length_app, length_rev.
    replace (length w + length (before s) - length (before s))
      with (length (rev w)) by (rewrite length_rev; lia).
    rewrite firstn_app, Nat.sub_diag, firstn_all. simpl.
    now rewrite app_nil_r, rev_involutive. }
  rewrite W. split; [exact A|].
  intros text T. unfold position_of in *.
  rewrite B, rev_app_distr, rev_involutive, <- app_assoc, <- A.
  split; [exact T | now rewrite T].
Qed.

(** Every string [match] returns is a match of the expression, found in
    the subject. *)
Lemma match_from_sound (r : re) (text : jsstr) (n : nat) :
  forall x w,
    position_of text x ->
    In w (match_from r n x) ->
    exists s e,
      matches r s e /\ w = between s e /\
      text = rev (before s) ++ w ++ after e.
Proof.
  induction n as [|n IH]; intros x w T H; [contradiction|].
  cbn [match_from] in H.
  destruct (search r (before x) (after x)) as [[[s e] c]|] eqn:S;
    [|contradiction].
  destruct (search_exec r _ _ _ _ _ S) as [X P].
  assert (Ts : position_of text s) by (apply P; now destruct x).
  apply exec_matches in X.
  destruct (matched_word r s e X) as [A Q].
  destruct (Q text Ts) as [Te E].
  destruct H as [<-|H]; [now exists s, e|].
  unfold resume in H.
  destruct (length (after e) <? length (after s)).
  - now apply (IH e).
  - destruct (after e) as [|ch rest] eqn:Ae; [contradiction|].
    apply (IH {| before := ch :: before e; after := rest |}); [|exact H].
    unfold position_of in *. simpl. rewrite <- app_assoc. simpl.
    now rewrite <- Te, Ae.
Qed.

Lemma matches_seq_split (r1 r2 : re) (x z : pos) :
  matches (Seq r1 r2) x z -> exists y, matches r1 x y /\ matches r2 y z.
Proof. inversion 1 as [| | | | |? ? ? y ? M1 M2| | | | |]; subst. eauto. Qed.

(** Every URL that [extractKeyInfo] lists occurs in the text, starts with
    [http://] or [https://], goes on with at least one more code unit
    and holds no white space. *)
Theorem extracted_urls_are_urls (text u : jsstr) :
  In u (urls (extractKeyInfo text)) ->
  includes u text = true /\
  exists rest,
    rest <> [] /\ forallb (fun c => negb (is_ws c)) rest = true /\
    (u = lit "http://" ++ rest \/ u = lit "https://" ++ rest).
Proof.
  unfold extractKeyInfo. cbn [urls]. unfold unique. intros H.
  apply PdfMore.unique_from_spec in H. destruct H as [H _].
  unfold match_all in H.
  apply (match_from_sound urlRegex text) in H; [|reflexivity].
  destruct H as (s & e & M & W & T).
  split.
  { rewrite T. apply PdfMore.includes_middle. }
  destruct (matched_word _ _ _ M) as [A _]. rewrite <- W in A.
  unfold urlRegex in M. simpl seqs in M.
  apply matches_seq_split in M. destruct M as (y1 & M1 & M).
  apply matches_seq_split in M. destruct M as (y2 & M2 & M).
  apply matches_seq_split in M. destruct M as (y3 & M3 & M).
  apply matches_seq_split in M. destruct M as (y4 & M4 & M).
  inversion M; subst.
  apply (matches_str (lit "http")) in M1. destruct M1 as [A1 _].
  apply (matches_str (lit "://")) in M3. destruct M3 as [A3 _].
  apply matches_plus_chr in M4. destruct M4 as (t & Nt & Ft & A4 & _).
  assert (O : after y1 = after y2 \/ after y1 = lit "s" ++ after y2).
  { inversion M2 as [| | | | | |? ? ? ? Ms|? ? ? ? Me| | |]; subst.
    - right. apply (matches_str (lit "s")) in Ms. tauto.
    - left. inversion Me; subst. reflexivity. }
  exists t. split; [exact Nt|]. split; [exact Ft|].
  destruct O as [O|O]; [left|right];
    rewrite A1, O, A3, A4 in A;
    apply (app_inv_tail (after e));
    rewrite <- A; simpl; now rewrite <- ?app_assoc.
Qed.

Lemma extracted_urls_are_urls_witness :
  includes (lit "https://a.b/c") (lit "see https://a.b/c now") = true.
Proof.
  apply (extracted_urls_are_urls (lit "see https://a.b/c now")
           (lit "https://a.b/c")).
  vm_compute. now left.
Defined.

End KeyInfoFacts.

Set Implicit Arguments.
